(** * Quadlet generation: the Container model and its serializer

    A shallow embedding of [src/js/container.js] (the [Container] class with
    its validating mutators and [clone]) and of the two modules found in
    [src/unnamed/part_001] (the value classes [Volume], [PortMapping],
    [Environment] and the [QuadletGenerator]).

    JavaScript strings are modelled by [string]; a character stands for one
    code unit below 256, so the white space removed by [trim] is the part
    of the ECMAScript white-space set that lies in that range. *)

From Stdlib Require Import ZArith Ascii String List Lia Bool DecimalString.
From stdpp Require Import base tactics option list strings.

Local Open Scope Z_scope.
Local Open Scope list_scope.
Local Open Scope stdpp_scope.

Set Default Proof Using "Type".

(* ===================================================================== *)
(** * Strings as the source uses them *)
(* ===================================================================== *)

Module Str.

(** Every character of [s] satisfies [p]. *)
Fixpoint all (p : ascii -> bool) (s : string) : bool :=
  match s with
  | "" => true
  | String a s' => p a && all p s'
  end.

(** Some character of [s] satisfies [p]. *)
Fixpoint any (p : ascii -> bool) (s : string) : bool :=
  match s with
  | "" => false
  | String a s' => p a || any p s'
  end.

(** ECMAScript [WhiteSpace] and [LineTerminator] code units below 256:
    TAB, LF, VT, FF, CR, SP and NBSP. *)
Definition isWhiteSpace (a : ascii) : bool :=
  match N_of_ascii a with
  | 9%N | 10%N | 11%N | 12%N | 13%N | 32%N | 160%N => true
  | _ => false
  end.

Fixpoint trimStart (s : string) : string :=
  match s with
  | "" => ""
  | String a s' => if isWhiteSpace a then trimStart s' else s
  end.

Fixpoint trimEnd (s : string) : string :=
  match s with
  | "" => ""
  | String a s' =>
      match trimEnd s' with
      | "" => if isWhiteSpace a then "" else String a ""
      | t => String a t
      end
  end.

(** [String.prototype.trim] *)
Definition trim (s : string) : string := trimEnd (trimStart s).

(** [s.startsWith(p)] *)
Fixpoint startsWith (p s : string) : bool :=
  match p, s with
  | "", _ => true
  | String a p', String b s' => Ascii.eqb a b && startsWith p' s'
  | String _ _, "" => false
  end.

(** [s.includes(p)] *)
Fixpoint includes (p s : string) : bool :=
  startsWith p s ||
  match s with
  | "" => false
  | String _ s' => includes p s'
  end.

(** [s.split(sep)] for a separator of one character. *)
Fixpoint split (sep : ascii) (s : string) : list string :=
  match s with
  | "" => [""]
  | String a s' =>
      if Ascii.eqb a sep then "" :: split sep s'
      else match split sep s' with
           | x :: xs => String a x :: xs
           | [] => [String a ""]
           end
  end.

(** [xs.join(sep)] on strings. *)
Fixpoint join (sep : string) (xs : list string) : string :=
  match xs with
  | [] => ""
  | [x] => x
  | x :: xs' => x +:+ sep +:+ join sep xs'
  end.

(** [s.indexOf(c)] for a pattern of one character; [-1] when absent. *)
Fixpoint indexOf (c : ascii) (s : string) : Z :=
  match s with
  | "" => -1
  | String a s' =>
      if Ascii.eqb a c then 0
      else let i := indexOf c s' in if i <? 0 then -1 else i + 1
  end.

Fixpoint take (n : nat) (s : string) : string :=
  match n, s with
  | S n', String a s' => String a (take n' s')
  | _, _ => ""
  end.

Fixpoint drop (n : nat) (s : string) : string :=
  match n, s with
  | S n', String _ s' => drop n' s'
  | _, _ => s
  end.

(** [s.substring(from, to)] and [s.substring(from)] for indices that are
    already integers; negative indices count as [0]. *)
Definition substring (s : string) (from to : Z) : string :=
  let from' := Z.to_nat from in
  let to' := Z.to_nat to in
  take (Nat.max from' to' - Nat.min from' to') (drop (Nat.min from' to') s).

Definition substringFrom (s : string) (from : Z) : string :=
  drop (Z.to_nat from) s.

(** [s.replace(/c/g, by)]: every occurrence of the character [c] is
    replaced, left to right. *)
Fixpoint replaceAll (c : ascii) (by_ : string) (s : string) : string :=
  match s with
  | "" => ""
  | String a s' =>
      if Ascii.eqb a c then by_ +:+ replaceAll c by_ s'
      else String a (replaceAll c by_ s')
  end.

Definition isDigit (a : ascii) : bool :=
  let n := N_of_ascii a in (48 <=? n)%N && (n <=? 57)%N.

Definition isUpper (a : ascii) : bool :=
  let n := N_of_ascii a in (65 <=? n)%N && (n <=? 90)%N.

Definition isLower (a : ascii) : bool :=
  let n := N_of_ascii a in (97 <=? n)%N && (n <=? 122)%N.

Definition digitValue (a : ascii) : Z := Z.of_N (N_of_ascii a) - 48.

(** Value of the longest prefix of decimal digits, continuing from [acc];
    [None] when the prefix is empty. *)
Fixpoint digitsPrefix (acc : option Z) (s : string) : option Z :=
  match s with
  | "" => acc
  | String a s' =>
      if isDigit a
      then digitsPrefix (Some (10 * default 0 acc + digitValue a)) s'
      else acc
  end.

(** [parseInt(s, 10)]: leading white space is skipped, one sign is
    accepted, then the longest run of digits is read; [None] is [NaN].
    The result is kept as an exact integer. *)
Definition parseInt10 (s : string) : option Z :=
  match trimStart s with
  | "" => None
  | String a s' =>
      if Ascii.eqb a "-" then Z.opp <$> digitsPrefix None s'
      else if Ascii.eqb a "+" then digitsPrefix None s'
      else digitsPrefix None (String a s')
  end.

End Str.

(* ===================================================================== *)
(** * Regular expressions *)
(* ===================================================================== *)

(** The patterns of the source are anchored at both ends ([^...$], no
    flags), so [RegExp.prototype.test] decides whether the whole string
    belongs to the language of the pattern.  Matching is done by
    derivatives. *)

Module Regex.

Inductive regex : Type :=
| Void
| Eps
| Class (p : ascii -> bool)
| Seq (r1 r2 : regex)
| Alt (r1 r2 : regex)
| Star (r : regex).

(** A literal character, [r?], [r+] and a literal word. *)
Definition Lit (c : ascii) : regex := Class (Ascii.eqb c).
Definition Opt (r : regex) : regex := Alt r Eps.
Definition Plus (r : regex) : regex := Seq r (Star r).
Fixpoint Word (s : string) : regex :=
  match s with
  | "" => Eps
  | String a s' => Seq (Lit a) (Word s')
  end.

Fixpoint nullable (r : regex) : bool :=
  match r with
  | Void => false
  | Eps => true
  | Class _ => false
  | Seq r1 r2 => nullable r1 && nullable r2
  | Alt r1 r2 => nullable r1 || nullable r2
  | Star _ => true
  end.

Fixpoint deriv (a : ascii) (r : regex) : regex :=
  match r with
  | Void => Void
  | Eps => Void
  | Class p => if p a then Eps else Void
  | Seq r1 r2 =>
      if nullable r1 then Alt (Seq (deriv a r1) r2) (deriv a r2)
      else Seq (deriv a r1) r2
  | Alt r1 r2 => Alt (deriv a r1) (deriv a r2)
  | Star r1 => Seq (deriv a r1) (Star r1)
  end.

(** [/^r$/.test(s)] *)
Fixpoint test (r : regex) (s : string) : bool :=
  match s with
  | "" => nullable r
  | String a s' => test (deriv a r) s'
  end.

(** The language of a pattern. *)
Inductive lang : regex -> string -> Prop :=
| lang_eps : lang Eps ""
| lang_class p a : p a = true -> lang (Class p) (String a "")
| lang_seq r1 r2 s1 s2 :
    lang r1 s1 -> lang r2 s2 -> lang (Seq r1 r2) (s1 +:+ s2)
| lang_alt_l r1 r2 s : lang r1 s -> lang (Alt r1 r2) s
| lang_alt_r r1 r2 s : lang r2 s -> lang (Alt r1 r2) s
| lang_star_nil r : lang (Star r) ""
| lang_star_app r s1 s2 :
    lang r s1 -> lang (Star r) s2 -> lang (Star r) (s1 +:+ s2).

Create HintDb regex.
#[global] Hint Constructors lang : regex.


(** A nonempty word of [Star r] starts with a nonempty word of [r]. *)



(** Words of [Class p *] are the strings whose characters all satisfy [p]. *)







End Regex.

(* ===================================================================== *)
(** * JavaScript values and the object store *)
(* ===================================================================== *)

(** References to array objects and to [Container] objects. *)
Definition aref := nat.
Definition cref := nat.

(** Primitive values.  Numbers are the integral ones ([PNum]) and [NaN];
    they are printed in decimal, as JavaScript does below [10^21]. *)
Inductive prim : Type :=
| PUndefined
| PNull
| PBool (b : bool)
| PNum (n : Z)
| PNaN
| PStr (s : string).

(** A value is a primitive or a reference to an array or to a container. *)
Inductive value : Type :=
| VPrim (p : prim)
| VArr (a : aref)
| VObj (c : cref).

Coercion VPrim : prim >-> value.

Definition null : value := VPrim PNull.
Definition undefined : value := VPrim PUndefined.
Definition str (s : string) : value := VPrim (PStr s).

#[global] Instance prim_eq_dec : EqDecision prim.
Proof. solve_decision. Defined.
#[global] Instance value_eq_dec : EqDecision value.
Proof. solve_decision. Defined.

(** [typeof v] *)
Definition typeof (v : value) : string :=
  match v with
  | VPrim PUndefined => "undefined"
  | VPrim PNull => "object"
  | VPrim (PBool _) => "boolean"
  | VPrim (PNum _) | VPrim PNaN => "number"
  | VPrim (PStr _) => "string"
  | VArr _ | VObj _ => "object"
  end.

(** [ToBoolean]: what [if (v)], [!v] and [v && ...] look at. *)
Definition primTruthy (p : prim) : bool :=
  match p with
  | PUndefined | PNull | PNaN => false
  | PBool b => b
  | PNum n => negb (n =? 0)
  | PStr s => negb (String.eqb s "")
  end.

Definition truthy (v : value) : bool :=
  match v with
  | VPrim p => primTruthy p
  | VArr _ | VObj _ => true
  end.

(** [a || b] *)
Definition or_else (a b : value) : value := if truthy a then a else b.

(** [ToString] on primitives, as a template literal applies it. *)
Definition primToString (p : prim) : string :=
  match p with
  | PUndefined => "undefined"
  | PNull => "null"
  | PBool true => "true"
  | PBool false => "false"
  | PNum n => DecimalString.NilZero.string_of_int (Z.to_int n)
  | PNaN => "NaN"
  | PStr s => s
  end.

(** [Array.prototype.join]: [undefined] and [null] elements print as the
    empty string. *)
Definition elemToString (p : prim) : string :=
  match p with
  | PUndefined | PNull => ""
  | _ => primToString p
  end.

Definition arrayJoin (sep : string) (xs : list prim) : string :=
  Str.join sep (map elemToString xs).

(** [xs.includes(x)] on an array ([SameValueZero], under which [NaN] is
    found). *)
Definition arrayIncludes (x : prim) (xs : list prim) : bool :=
  existsb (fun y => bool_decide (y = x)) xs.

(** ** The Container record

    The fields of [new Container()], in the order of the constructor.
    List-valued fields hold a reference to an array of the store; the
    flags are booleans; the remaining fields hold [null] or a value. *)

Record Container : Type := mkContainer {
  (* Basic container properties *)
  image : string;
  containerName : value;
  exec : value;
  (* Capabilities *)
  addCapability : aref;
  dropCapability : aref;
  (* Devices and mounts *)
  addDevice : aref;
  mount : aref;
  volume : aref;
  (* Network configuration *)
  network : aref;
  networkAlias : aref;
  publishPort : aref;
  exposeHostPort : aref;
  ip : value;
  ip6 : value;
  (* DNS configuration *)
  dns : aref;
  dnsOption : aref;
  dnsSearch : aref;
  (* Environment *)
  environment : aref;
  environmentFile : aref;
  environmentHost : bool;
  (* Security *)
  noNewPrivileges : bool;
  securityLabelDisable : bool;
  securityLabelFileType : value;
  securityLabelLevel : value;
  securityLabelNested : bool;
  securityLabelType : value;
  seccompProfile : value;
  mask : aref;
  unmask : value;
  (* User and group *)
  user : value;
  group : value;
  groupAdd : aref;
  userNS : value;
  uidMap : aref;
  gidMap : aref;
  subUidMap : value;
  subGidMap : value;
  (* Runtime options *)
  readOnly : bool;
  readOnlyTmpfs : bool;
  runInit : bool;
  workingDir : value;
  hostName : value;
  timezone : value;
  shmSize : value;
  tmpfs : aref;
  (* Health checks *)
  healthCmd : value;
  healthInterval : value;
  healthOnFailure : value;
  healthRetries : value;
  healthStartPeriod : value;
  healthStartupCmd : value;
  healthStartupInterval : value;
  healthStartupRetries : value;
  healthStartupSuccess : value;
  healthStartupTimeout : value;
  healthTimeout : value;
  (* Systemd integration *)
  notify : value;
  stopSignal : value;
  stopTimeout : value;
  (* Pod integration *)
  pod : value;
  (* Logging *)
  logDriver : value;
  logOpt : aref;
  (* Labels and annotations *)
  label : aref;
  annotation : aref;
  (* Resource limits *)
  pidsLimit : value;
  ulimit : aref;
  sysctl : aref;
  (* Auto update *)
  autoUpdate : value;
  (* Pull policy *)
  pull : value;
  (* Secrets *)
  secret : aref;
  (* Rootfs *)
  rootfs : value;
  (* Entrypoint *)
  entrypoint : value;
  (* Additional Podman arguments *)
  podmanArgs : value
}.

(** The array fields of a container, in the order in which [clone] copies
    them. *)
Definition arrayFields : list (Container -> aref) :=
  [ addCapability; dropCapability; addDevice; mount; volume; network;
    networkAlias; publishPort; exposeHostPort; dns; dnsOption; dnsSearch;
    environment; environmentFile; mask; groupAdd; uidMap; gidMap; tmpfs;
    label; logOpt; annotation; ulimit; sysctl; secret ].

(** ** The store *)

(** Arrays and containers are objects with identity: the store maps a
    reference to the current contents of the object.  A new object takes
    the next free index. *)
Record store : Type := mkStore {
  arrays : list (list prim);
  containers : list Container
}.

(** The elements of the array at [a].  References made by the operations
    below are always allocated; an unallocated one reads as empty. *)
Definition arr (σ : store) (a : aref) : list prim :=
  default [] (arrays σ !! a).

(** [ToString] on any value: an array prints as [join(",")], a container
    as [[object Object]]. *)
Definition toStr (σ : store) (v : value) : string :=
  match v with
  | VPrim p => primToString p
  | VArr a => arrayJoin "," (arr σ a)
  | VObj _ => "[object Object]"
  end.

(** ** Computations: state and exceptions *)

(** One constructor per [throw new Error(...)] of the source, and the
    [TypeError] of the language. *)
Inductive error : Type :=
| ImageMustBeNonEmptyString
| ContainerNameMustBeNonEmptyString
| ContainerNameFormat
| ExecMustBeString
| PortMustBeNonEmptyString
| PortFormat
| PortOutOfRange (portNum : Z)
| EnvironmentMustBeNonEmptyString
| EnvironmentFormat
| VolumeMustBeNonEmptyString
| VolumeFormat
| LabelMustBeNonEmptyString
| LabelFormat
| InvalidVolumeFormat (volumeString : string)
| TypeError.

Inductive completion (A : Type) : Type :=
| Normal (a : A)
| Throw (e : error).
Arguments Normal {A} a.
Arguments Throw {A} e.

(** A method body: it runs in a store and completes normally or throws,
    leaving the store as it was at that point. *)
Definition M (A : Type) : Type := store -> completion A * store.

Definition ret {A} (a : A) : M A := fun σ => (Normal a, σ).
Definition throw {A} (e : error) : M A := fun σ => (Throw e, σ).
Definition bind {A B} (m : M A) (k : A -> M B) : M B :=
  fun σ => match m σ with
           | (Normal a, σ') => k a σ'
           | (Throw e, σ') => (Throw e, σ')
           end.

Declare Scope js_scope.
Delimit Scope js_scope with js.
Notation "x <- m ;; k" := (bind m (fun x => k))
  (at level 100, m at next level, right associativity) : js_scope.
Notation "m ;; k" := (bind m (fun _ => k))
  (at level 100, right associativity) : js_scope.
Local Open Scope js_scope.

(** [if (cond) throw new Error(...)] *)
Definition throwIf (cond : bool) (e : error) : M unit :=
  if cond then throw e else ret tt.

(** [new Array] holding [xs]. *)
Definition newArray (xs : list prim) : M aref :=
  fun σ => (Normal (length (arrays σ)),
            mkStore (arrays σ ++ [xs]) (containers σ)).

(** Access through a reference that holds no object of the expected
    class is JavaScript's [TypeError]. *)
Definition getArray (a : aref) : M (list prim) :=
  fun σ => match arrays σ !! a with
           | Some xs => (Normal xs, σ)
           | None => (Throw TypeError, σ)
           end.

Definition setArray (a : aref) (xs : list prim) : M unit :=
  fun σ => (Normal tt, mkStore (<[a:=xs]> (arrays σ)) (containers σ)).

(** [a.push(x)] *)
Definition push (a : aref) (x : prim) : M unit :=
  xs <- getArray a ;; setArray a (xs ++ [x]).

(** [a[i] = x] for an index inside the array. *)
Definition setIndex (a : aref) (i : nat) (x : prim) : M unit :=
  xs <- getArray a ;; setArray a (<[i:=x]> xs).

(** [[...a]]: a new array with the elements of [a]. *)
Definition spread (a : aref) : M aref :=
  xs <- getArray a ;; newArray xs.

(** Allocation of a container object. *)
Definition newObject (c : Container) : M cref :=
  fun σ => (Normal (length (containers σ)),
            mkStore (arrays σ) (containers σ ++ [c])).

(** The fields of the container at [this]. *)
Definition container (σ : store) (this : cref) : option Container :=
  containers σ !! this.

Definition getThis (this : cref) : M Container :=
  fun σ => match container σ this with
           | Some c => (Normal c, σ)
           | None => (Throw TypeError, σ)
           end.

(** [this.field = ...], given as the update of the record. *)
Definition update (this : cref) (f : Container -> Container) : M unit :=
  c <- getThis this ;;
  fun σ => (Normal tt, mkStore (arrays σ) (<[this:=f c]> (containers σ))).

(* ===================================================================== *)
(** * The Container class ([src/js/container.js]) *)
(* ===================================================================== *)

(** Assignments [this.image = x], [this.containerName = x],
    [this.exec = x], [this.pod = x] and [this.unmask = x] on the record. *)

Definition set_image (x : string) (c : Container) : Container :=
  mkContainer
    x (containerName c) (exec c) (addCapability c) (dropCapability c)
    (addDevice c) (mount c) (volume c) (network c) (networkAlias c)
    (publishPort c) (exposeHostPort c) (ip c) (ip6 c) (dns c) (dnsOption c)
    (dnsSearch c) (environment c) (environmentFile c) (environmentHost c)
    (noNewPrivileges c) (securityLabelDisable c) (securityLabelFileType c)
    (securityLabelLevel c) (securityLabelNested c) (securityLabelType c)
    (seccompProfile c) (mask c) (unmask c) (user c) (group c) (groupAdd c)
    (userNS c) (uidMap c) (gidMap c) (subUidMap c) (subGidMap c)
    (readOnly c) (readOnlyTmpfs c) (runInit c) (workingDir c) (hostName c)
    (timezone c) (shmSize c) (tmpfs c) (healthCmd c) (healthInterval c)
    (healthOnFailure c) (healthRetries c) (healthStartPeriod c)
    (healthStartupCmd c) (healthStartupInterval c) (healthStartupRetries c)
    (healthStartupSuccess c) (healthStartupTimeout c) (healthTimeout c)
    (notify c) (stopSignal c) (stopTimeout c) (pod c) (logDriver c)
    (logOpt c) (label c) (annotation c) (pidsLimit c) (ulimit c) (sysctl c)
    (autoUpdate c) (pull c) (secret c) (rootfs c) (entrypoint c)
    (podmanArgs c).

Definition set_containerName (x : value) (c : Container) : Container :=
  mkContainer
    (image c) x (exec c) (addCapability c) (dropCapability c) (addDevice c)
    (mount c) (volume c) (network c) (networkAlias c) (publishPort c)
    (exposeHostPort c) (ip c) (ip6 c) (dns c) (dnsOption c) (dnsSearch c)
    (environment c) (environmentFile c) (environmentHost c)
    (noNewPrivileges c) (securityLabelDisable c) (securityLabelFileType c)
    (securityLabelLevel c) (securityLabelNested c) (securityLabelType c)
    (seccompProfile c) (mask c) (unmask c) (user c) (group c) (groupAdd c)
    (userNS c) (uidMap c) (gidMap c) (subUidMap c) (subGidMap c)
    (readOnly c) (readOnlyTmpfs c) (runInit c) (workingDir c) (hostName c)
    (timezone c) (shmSize c) (tmpfs c) (healthCmd c) (healthInterval c)
    (healthOnFailure c) (healthRetries c) (healthStartPeriod c)
    (healthStartupCmd c) (healthStartupInterval c) (healthStartupRetries c)
    (healthStartupSuccess c) (healthStartupTimeout c) (healthTimeout c)
    (notify c) (stopSignal c) (stopTimeout c) (pod c) (logDriver c)
    (logOpt c) (label c) (annotation c) (pidsLimit c) (ulimit c) (sysctl c)
    (autoUpdate c) (pull c) (secret c) (rootfs c) (entrypoint c)
    (podmanArgs c).

Definition set_exec (x : value) (c : Container) : Container :=
  mkContainer
    (image c) (containerName c) x (addCapability c) (dropCapability c)
    (addDevice c) (mount c) (volume c) (network c) (networkAlias c)
    (publishPort c) (exposeHostPort c) (ip c) (ip6 c) (dns c) (dnsOption c)
    (dnsSearch c) (environment c) (environmentFile c) (environmentHost c)
    (noNewPrivileges c) (securityLabelDisable c) (securityLabelFileType c)
    (securityLabelLevel c) (securityLabelNested c) (securityLabelType c)
    (seccompProfile c) (mask c) (unmask c) (user c) (group c) (groupAdd c)
    (userNS c) (uidMap c) (gidMap c) (subUidMap c) (subGidMap c)
    (readOnly c) (readOnlyTmpfs c) (runInit c) (workingDir c) (hostName c)
    (timezone c) (shmSize c) (tmpfs c) (healthCmd c) (healthInterval c)
    (healthOnFailure c) (healthRetries c) (healthStartPeriod c)
    (healthStartupCmd c) (healthStartupInterval c) (healthStartupRetries c)
    (healthStartupSuccess c) (healthStartupTimeout c) (healthTimeout c)
    (notify c) (stopSignal c) (stopTimeout c) (pod c) (logDriver c)
    (logOpt c) (label c) (annotation c) (pidsLimit c) (ulimit c) (sysctl c)
    (autoUpdate c) (pull c) (secret c) (rootfs c) (entrypoint c)
    (podmanArgs c).

Definition set_pod (x : value) (c : Container) : Container :=
  mkContainer
    (image c) (containerName c) (exec c) (addCapability c)
    (dropCapability c) (addDevice c) (mount c) (volume c) (network c)
    (networkAlias c) (publishPort c) (exposeHostPort c) (ip c) (ip6 c)
    (dns c) (dnsOption c) (dnsSearch c) (environment c) (environmentFile c)
    (environmentHost c) (noNewPrivileges c) (securityLabelDisable c)
    (securityLabelFileType c) (securityLabelLevel c)
    (securityLabelNested c) (securityLabelType c) (seccompProfile c)
    (mask c) (unmask c) (user c) (group c) (groupAdd c) (userNS c)
    (uidMap c) (gidMap c) (subUidMap c) (subGidMap c) (readOnly c)
    (readOnlyTmpfs c) (runInit c) (workingDir c) (hostName c) (timezone c)
    (shmSize c) (tmpfs c) (healthCmd c) (healthInterval c)
    (healthOnFailure c) (healthRetries c) (healthStartPeriod c)
    (healthStartupCmd c) (healthStartupInterval c) (healthStartupRetries c)
    (healthStartupSuccess c) (healthStartupTimeout c) (healthTimeout c)
    (notify c) (stopSignal c) (stopTimeout c) x (logDriver c) (logOpt c)
    (label c) (annotation c) (pidsLimit c) (ulimit c) (sysctl c)
    (autoUpdate c) (pull c) (secret c) (rootfs c) (entrypoint c)
    (podmanArgs c).

Definition set_unmask (x : value) (c : Container) : Container :=
  mkContainer
    (image c) (containerName c) (exec c) (addCapability c)
    (dropCapability c) (addDevice c) (mount c) (volume c) (network c)
    (networkAlias c) (publishPort c) (exposeHostPort c) (ip c) (ip6 c)
    (dns c) (dnsOption c) (dnsSearch c) (environment c) (environmentFile c)
    (environmentHost c) (noNewPrivileges c) (securityLabelDisable c)
    (securityLabelFileType c) (securityLabelLevel c)
    (securityLabelNested c) (securityLabelType c) (seccompProfile c)
    (mask c) x (user c) (group c) (groupAdd c) (userNS c) (uidMap c)
    (gidMap c) (subUidMap c) (subGidMap c) (readOnly c) (readOnlyTmpfs c)
    (runInit c) (workingDir c) (hostName c) (timezone c) (shmSize c)
    (tmpfs c) (healthCmd c) (healthInterval c) (healthOnFailure c)
    (healthRetries c) (healthStartPeriod c) (healthStartupCmd c)
    (healthStartupInterval c) (healthStartupRetries c)
    (healthStartupSuccess c) (healthStartupTimeout c) (healthTimeout c)
    (notify c) (stopSignal c) (stopTimeout c) (pod c) (logDriver c)
    (logOpt c) (label c) (annotation c) (pidsLimit c) (ulimit c) (sysctl c)
    (autoUpdate c) (pull c) (secret c) (rootfs c) (entrypoint c)
    (podmanArgs c).

(** [new Container()]: every list-valued field gets an array of its own. *)
Definition newContainer : M cref :=
  addCapability' <- newArray [] ;;
  dropCapability' <- newArray [] ;;
  addDevice' <- newArray [] ;;
  mount' <- newArray [] ;;
  volume' <- newArray [] ;;
  network' <- newArray [] ;;
  networkAlias' <- newArray [] ;;
  publishPort' <- newArray [] ;;
  exposeHostPort' <- newArray [] ;;
  dns' <- newArray [] ;;
  dnsOption' <- newArray [] ;;
  dnsSearch' <- newArray [] ;;
  environment' <- newArray [] ;;
  environmentFile' <- newArray [] ;;
  mask' <- newArray [] ;;
  groupAdd' <- newArray [] ;;
  uidMap' <- newArray [] ;;
  gidMap' <- newArray [] ;;
  tmpfs' <- newArray [] ;;
  logOpt' <- newArray [] ;;
  label' <- newArray [] ;;
  annotation' <- newArray [] ;;
  ulimit' <- newArray [] ;;
  sysctl' <- newArray [] ;;
  secret' <- newArray [] ;;
  newObject {|
    image := "";
    containerName := null;
    exec := null;
    addCapability := addCapability';
    dropCapability := dropCapability';
    addDevice := addDevice';
    mount := mount';
    volume := volume';
    network := network';
    networkAlias := networkAlias';
    publishPort := publishPort';
    exposeHostPort := exposeHostPort';
    ip := null;
    ip6 := null;
    dns := dns';
    dnsOption := dnsOption';
    dnsSearch := dnsSearch';
    environment := environment';
    environmentFile := environmentFile';
    environmentHost := false;
    noNewPrivileges := false;
    securityLabelDisable := false;
    securityLabelFileType := null;
    securityLabelLevel := null;
    securityLabelNested := false;
    securityLabelType := null;
    seccompProfile := null;
    mask := mask';
    unmask := null;
    user := null;
    group := null;
    groupAdd := groupAdd';
    userNS := null;
    uidMap := uidMap';
    gidMap := gidMap';
    subUidMap := null;
    subGidMap := null;
    readOnly := false;
    readOnlyTmpfs := true;
    runInit := false;
    workingDir := null;
    hostName := null;
    timezone := null;
    shmSize := null;
    tmpfs := tmpfs';
    healthCmd := null;
    healthInterval := null;
    healthOnFailure := null;
    healthRetries := null;
    healthStartPeriod := null;
    healthStartupCmd := null;
    healthStartupInterval := null;
    healthStartupRetries := null;
    healthStartupSuccess := null;
    healthStartupTimeout := null;
    healthTimeout := null;
    notify := (str "conmon");
    stopSignal := null;
    stopTimeout := null;
    pod := null;
    logDriver := null;
    logOpt := logOpt';
    label := label';
    annotation := annotation';
    pidsLimit := null;
    ulimit := ulimit';
    sysctl := sysctl';
    autoUpdate := null;
    pull := null;
    secret := secret';
    rootfs := null;
    entrypoint := null;
    podmanArgs := null
  |}.

(** The text of a string argument; the source only reaches it behind a
    [typeof x !== 'string'] guard. *)
Definition stringOf (v : value) : string :=
  match v with
  | VPrim (PStr s) => s
  | _ => ""
  end.

Definition isString (v : value) : bool := String.eqb (typeof v) "string".

(** The guard shared by the mutators:
    [!x || typeof x !== 'string' || x.trim() === ''] *)
Definition notNonEmptyString (x : value) : bool :=
  negb (truthy x) || negb (isString x) || String.eqb (Str.trim (stringOf x)) "".

(** [for (const x of xs) body] *)
Fixpoint forOf {A} (xs : list A) (body : A -> M unit) : M unit :=
  match xs with
  | [] => ret tt
  | x :: xs' => body x ;; forOf xs' body
  end.

(** [/[a-zA-Z0-9]/] and [/[a-zA-Z0-9_.-]/] *)
Definition isAlnum (a : ascii) : bool :=
  Str.isLower a || Str.isUpper a || Str.isDigit a.
Definition isNameChar (a : ascii) : bool :=
  isAlnum a || Ascii.eqb a "_" || Ascii.eqb a "." || Ascii.eqb a "-".

(** [/^[a-zA-Z0-9][a-zA-Z0-9_.-]*$/] *)
Definition namePattern : Regex.regex :=
  Regex.Seq (Regex.Class isAlnum) (Regex.Star (Regex.Class isNameChar)).

(** [/\/(?:tcp|udp|sctp)/], the protocol suffix of both port patterns. *)
Definition protocolSuffix : Regex.regex :=
  Regex.Seq (Regex.Lit "/")
    (Regex.Alt (Regex.Word "tcp") (Regex.Alt (Regex.Word "udp") (Regex.Word "sctp"))).

(** [/^(\d+:)?\d+(\/(?:tcp|udp|sctp))?$/] *)
Definition portPattern : Regex.regex :=
  Regex.Seq
    (Regex.Opt (Regex.Seq (Regex.Plus (Regex.Class Str.isDigit)) (Regex.Lit ":")))
    (Regex.Seq (Regex.Plus (Regex.Class Str.isDigit)) (Regex.Opt protocolSuffix)).

(** [s.replace(/r$/, '')]: the leftmost position from which the rest of the
    string matches [r] is where the match starts; it is cut off. *)
Fixpoint replaceAtEnd (r : Regex.regex) (s : string) : string :=
  if Regex.test r s then ""
  else match s with
       | "" => ""
       | String a s' => String a (replaceAtEnd r s')
       end.

(** [portNum < 1 || portNum > 65535]; both comparisons are false on [NaN]. *)
Definition outOfRange (portNum : option Z) : bool :=
  match portNum with
  | Some n => (n <? 1) || (n >? 65535)
  | None => false
  end.

Section Methods.

Variable this : cref.

(** Set the container image with validation *)
Definition setImage (image : value) : M cref :=
  throwIf (notNonEmptyString image) ImageMustBeNonEmptyString ;;
  update this (set_image (Str.trim (stringOf image))) ;;
  ret this.

(** Set the container name with validation *)
Definition setContainerName (name : value) : M cref :=
  throwIf (notNonEmptyString name) ContainerNameMustBeNonEmptyString ;;
  let trimmedName := Str.trim (stringOf name) in
  throwIf (negb (Regex.test namePattern trimmedName)) ContainerNameFormat ;;
  update this (set_containerName (str trimmedName)) ;;
  ret this.

(** Set the exec command *)
Definition setExec (command : value) : M cref :=
  throwIf (truthy command && negb (isString command)) ExecMustBeString ;;
  update this (set_exec command) ;;
  ret this.

(** Add a published port with validation *)
Definition addPublishPort (port : value) : M cref :=
  throwIf (notNonEmptyString port) PortMustBeNonEmptyString ;;
  let trimmedPort := Str.trim (stringOf port) in
  throwIf (negb (Regex.test portPattern trimmedPort)) PortFormat ;;
  let portForValidation := replaceAtEnd protocolSuffix trimmedPort in
  let ports := Str.split ":" portForValidation in
  forOf ports (fun p =>
    let portNum := Str.parseInt10 p in
    throwIf (outOfRange portNum) (PortOutOfRange (default 0 portNum))) ;;
  c <- getThis this ;;
  push (publishPort c) (PStr trimmedPort) ;;
  ret this.

(** Add an environment variable with validation *)
Definition addEnvironment (env : value) : M cref :=
  throwIf (notNonEmptyString env) EnvironmentMustBeNonEmptyString ;;
  let trimmedEnv := Str.trim (stringOf env) in
  throwIf (negb (Str.includes "=" trimmedEnv)) EnvironmentFormat ;;
  c <- getThis this ;;
  push (environment c) (PStr trimmedEnv) ;;
  ret this.

(** Add a volume mount with validation *)
Definition addVolume (volume_ : value) : M cref :=
  throwIf (notNonEmptyString volume_) VolumeMustBeNonEmptyString ;;
  let trimmedVolume := Str.trim (stringOf volume_) in
  throwIf (negb (Str.includes ":" trimmedVolume) &&
           negb (Str.startsWith "/" trimmedVolume)) VolumeFormat ;;
  c <- getThis this ;;
  push (volume c) (PStr trimmedVolume) ;;
  ret this.

(** Add a label with validation *)
Definition addLabel (label_ : value) : M cref :=
  throwIf (notNonEmptyString label_) LabelMustBeNonEmptyString ;;
  let trimmedLabel := Str.trim (stringOf label_) in
  throwIf (negb (Str.includes "=" trimmedLabel)) LabelFormat ;;
  c <- getThis this ;;
  push (label c) (PStr trimmedLabel) ;;
  ret this.

(** Set the pod reference *)
Definition setPod (pod_ : value) : M cref :=
  update this (set_pod pod_) ;;
  ret this.

(** Create a deep copy of the container.  The fields the source copies by
    plain assignment keep their value, references included; each of the
    twenty-five list fields gets a new array with the same elements. *)
Definition clone : M cref :=
  cloned <- newContainer ;;
  c <- getThis this ;;
  addCapability' <- spread (addCapability c) ;;
  dropCapability' <- spread (dropCapability c) ;;
  addDevice' <- spread (addDevice c) ;;
  mount' <- spread (mount c) ;;
  volume' <- spread (volume c) ;;
  network' <- spread (network c) ;;
  networkAlias' <- spread (networkAlias c) ;;
  publishPort' <- spread (publishPort c) ;;
  exposeHostPort' <- spread (exposeHostPort c) ;;
  dns' <- spread (dns c) ;;
  dnsOption' <- spread (dnsOption c) ;;
  dnsSearch' <- spread (dnsSearch c) ;;
  environment' <- spread (environment c) ;;
  environmentFile' <- spread (environmentFile c) ;;
  mask' <- spread (mask c) ;;
  groupAdd' <- spread (groupAdd c) ;;
  uidMap' <- spread (uidMap c) ;;
  gidMap' <- spread (gidMap c) ;;
  tmpfs' <- spread (tmpfs c) ;;
  label' <- spread (label c) ;;
  logOpt' <- spread (logOpt c) ;;
  annotation' <- spread (annotation c) ;;
  ulimit' <- spread (ulimit c) ;;
  sysctl' <- spread (sysctl c) ;;
  secret' <- spread (secret c) ;;
  update cloned (fun _ => mkContainer
    (image c) (containerName c) (exec c) addCapability' dropCapability'
    addDevice' mount' volume' network' networkAlias' publishPort'
    exposeHostPort' (ip c) (ip6 c) dns' dnsOption' dnsSearch' environment'
    environmentFile' (environmentHost c) (noNewPrivileges c)
    (securityLabelDisable c) (securityLabelFileType c)
    (securityLabelLevel c) (securityLabelNested c) (securityLabelType c)
    (seccompProfile c) mask' (unmask c) (user c) (group c) groupAdd'
    (userNS c) uidMap' gidMap' (subUidMap c) (subGidMap c) (readOnly c)
    (readOnlyTmpfs c) (runInit c) (workingDir c) (hostName c) (timezone c)
    (shmSize c) tmpfs' (healthCmd c) (healthInterval c) (healthOnFailure c)
    (healthRetries c) (healthStartPeriod c) (healthStartupCmd c)
    (healthStartupInterval c) (healthStartupRetries c)
    (healthStartupSuccess c) (healthStartupTimeout c) (healthTimeout c)
    (notify c) (stopSignal c) (stopTimeout c) (pod c) (logDriver c) logOpt'
    label' annotation' (pidsLimit c) ulimit' sysctl' (autoUpdate c)
    (pull c) secret' (rootfs c) (entrypoint c) (podmanArgs c)) ;;
  ret cloned.

End Methods.

(* ===================================================================== *)
(** * The value classes ([Volume], [PortMapping], [Environment]) *)
(* ===================================================================== *)

(** [parts[i]] on the result of a [split]; the source reads only indices
    that the preceding test has shown to exist. *)
Definition part (i : nat) (parts : list string) : string := nth i parts "".

Module Volume.

Record t : Type := new {
  source : string;
  destination : string;
  options : list string
}.

Definition toString (v : t) : string :=
  let result := source v +:+ ":" +:+ destination v in
  if (0 <? length (options v))%nat
  then result +:+ ":" +:+ Str.join "," (options v)
  else result.

Definition parse (volumeString : string) : completion t :=
  let parts := Str.split ":" volumeString in
  if (length parts <? 2)%nat then Throw (InvalidVolumeFormat volumeString)
  else
    let source := part 0 parts in
    let destination := part 1 parts in
    let options :=
      if (2 <? length parts)%nat then Str.split "," (part 2 parts) else [] in
    Normal (new source destination options).

End Volume.

Module PortMapping.

Record t : Type := new {
  hostPort : string;
  containerPort : string;
  protocol : string
}.

Definition toString (p : t) : string :=
  if String.eqb (hostPort p) (containerPort p) then
    if String.eqb (protocol p) "tcp" then hostPort p
    else hostPort p +:+ "/" +:+ protocol p
  else
    if String.eqb (protocol p) "tcp"
    then hostPort p +:+ ":" +:+ containerPort p
    else hostPort p +:+ ":" +:+ containerPort p +:+ "/" +:+ protocol p.

Definition parse (portString : string) : t :=
  let '(portPart, protocol) :=
    if Str.includes "/" portString then
      let parts := Str.split "/" portString in
      (part 0 parts, part 1 parts)
    else (portString, "tcp") in
  if Str.includes ":" portPart then
    let parts := Str.split ":" portPart in
    new (part 0 parts) (part 1 parts) protocol
  else new portPart portPart protocol.

End PortMapping.

Module Environment.

Record t : Type := new {
  key : string;
  value : string
}.

Definition toString (e : t) : string := key e +:+ "=" +:+ value e.

Definition parse (envString : string) : t :=
  let equalIndex := Str.indexOf "=" envString in
  if equalIndex =? -1 then new envString ""
  else
    let key := Str.substring envString 0 equalIndex in
    let value := Str.substringFrom envString (equalIndex + 1) in
    new key value.

End Environment.

(* ===================================================================== *)
(** * QuadletGenerator *)
(* ===================================================================== *)

(** The side tables handed to [generateFile].  A field left out of the
    object literal is [undefined]; a list field is [None] when it is
    [undefined] (or [null]). *)
Module Unit.
Record t : Type := new {
  description : value;
  Description : value;
  wants : option (list prim);
  requires : option (list prim);
  after : option (list prim);
  before : option (list prim)
}.
End Unit.

Module Service.
Record t : Type := new {
  restart : value;
  Restart : value;
  restartSec : value;
  RestartSec : value;
  timeoutStartSec : value;
  TimeoutStartSec : value
}.
End Service.

Module Install.
Record t : Type := new {
  wantedBy : option (list prim);
  requiredBy : option (list prim)
}.
End Install.

Module Globals.
Record t : Type := new {
  podmanArgs : value
}.
End Globals.

(** The [options] argument of [generateFile]; [None] stands for a key
    that is absent or [null].  The [name] option is computed by the source
    and never used. *)
Record Options : Type := mkOptions {
  unit_ : option Unit.t;
  service : option Service.t;
  install : option Install.t;
  globals : option Globals.t
}.

(** The characters the source writes with an escape. *)
Definition LF : string := String "010" "".
Definition backslash : string := String "092" "".
Definition dquote : string := String "034" "".

(** [a === b] *)
Definition strictEq (a b : value) : bool :=
  match a, b with
  | VPrim PNaN, _ | _, VPrim PNaN => false
  | _, _ => bool_decide (a = b)
  end.

(** [Array.isArray(v)], and the array a value refers to. *)
Definition isArray (v : value) : bool :=
  match v with
  | VArr _ => true
  | _ => false
  end.

Definition arrayOf (v : value) : aref :=
  match v with
  | VArr a => a
  | _ => 0%nat
  end.

(** [xs && xs.length > 0] on an optional array. *)
Definition nonEmpty (xs : option (list prim)) : bool :=
  match xs with
  | Some l => (0 <? length l)%nat
  | None => false
  end.

Module QuadletGenerator.

(** Escape values that might contain spaces or special characters:
    backslashes first, then quotes. *)
Definition escapeValue (value : prim) : prim :=
  if isString value && Str.includes " " (stringOf value) then
    PStr (dquote +:+
          Str.replaceAll "034" (backslash +:+ dquote)
            (Str.replaceAll "092" (backslash +:+ backslash) (stringOf value)) +:+
          dquote)
  else value.

(** The generators build their result in a variable [output] by
    [output += piece].  They are written once over the type [Out] of that
    variable: with strings and concatenation they give the text the source
    returns; with lists they give the pieces in the order in which they
    were appended. *)
Section Output.

Context {Out : Type}.
Variable append : Out -> string -> Out.

Definition stmt : Type := Out -> Out.

(** [output += s] *)
Definition emit (s : string) : stmt := fun output => append output s.

(** [if (b) { body }] *)
Definition when (b : bool) (body : stmt) : stmt :=
  fun output => if b then body output else output.

(** [xs.forEach(x => { body })] *)
Definition forEach {A} (xs : list A) (body : A -> stmt) : stmt :=
  fun output => fold_left (fun o x => body x o) xs output.

(** The empty statement. *)
Definition skip : stmt := fun output => output.

(** Statements in sequence. *)
Definition block (stmts : list stmt) : stmt :=
  fun output => fold_left (fun o st => st o) stmts output.

(** [output += `Key=${v}\n`] *)
Definition emitKV (key v : string) : stmt := emit (key +:+ "=" +:+ v +:+ LF).

(** [if (v) output += `Key=${v}\n`] *)
Definition emitIfSet (σ : store) (key : string) (v : value) : stmt :=
  when (truthy v) (emitKV key (toStr σ v)).

(** [xs.forEach(x => output += `Key=${x}\n`)] *)
Definition emitEach (key : string) (xs : list prim) : stmt :=
  forEach xs (fun x => emitKV key (primToString x)).

(** Generate the [Container] section *)
Definition generateContainerSection_ (σ : store) (c : Container) : stmt :=
  block [
    emit ("[Container]" +:+ LF);
    (* Required image field *)
    emitKV "Image" (image c);
    (* Container name *)
    emitIfSet σ "ContainerName" (containerName c);
    (* Exec command *)
    emitIfSet σ "Exec" (exec c);
    (* Published ports *)
    emitEach "PublishPort" (arr σ (publishPort c));
    (* Volumes *)
    emitEach "Volume" (arr σ (volume c));
    (* Environment variables *)
    forEach (arr σ (environment c)) (fun env =>
      emitKV "Environment" (primToString (escapeValue env)));
    (* Environment files *)
    emitEach "EnvironmentFile" (arr σ (environmentFile c));
    (* Environment host *)
    when (environmentHost c) (emit ("EnvironmentHost=true" +:+ LF));
    (* Labels *)
    forEach (arr σ (label c)) (fun label =>
      emitKV "Label" (primToString (escapeValue label)));
    (* Networks *)
    emitEach "Network" (arr σ (network c));
    (* Network aliases *)
    emitEach "NetworkAlias" (arr σ (networkAlias c));
    (* Capabilities *)
    when (0 <? length (arr σ (addCapability c)))%nat
      (emitKV "AddCapability" (arrayJoin " " (arr σ (addCapability c))));
    when (0 <? length (arr σ (dropCapability c)))%nat
      (emitKV "DropCapability" (arrayJoin " " (arr σ (dropCapability c))));
    (* DNS configuration *)
    when (0 <? length (arr σ (dns c)))%nat
      (if arrayIncludes (PStr "none") (arr σ (dns c))
       then emit ("DNS=none" +:+ LF)
       else emitEach "DNS" (arr σ (dns c)));
    emitEach "DNSOption" (arr σ (dnsOption c));
    emitEach "DNSSearch" (arr σ (dnsSearch c));
    (* Security options *)
    when (noNewPrivileges c) (emit ("NoNewPrivileges=true" +:+ LF));
    when (securityLabelDisable c) (emit ("SecurityLabelDisable=true" +:+ LF));
    emitIfSet σ "SecurityLabelFileType" (securityLabelFileType c);
    emitIfSet σ "SecurityLabelLevel" (securityLabelLevel c);
    when (securityLabelNested c) (emit ("SecurityLabelNested=true" +:+ LF));
    emitIfSet σ "SecurityLabelType" (securityLabelType c);
    emitIfSet σ "SeccompProfile" (seccompProfile c);
    (* Mask/Unmask *)
    when (0 <? length (arr σ (mask c)))%nat
      (emitKV "Mask" (arrayJoin ":" (arr σ (mask c))));
    when (truthy (unmask c))
      (if isArray (unmask c)
       then emitKV "Unmask" (arrayJoin ":" (arr σ (arrayOf (unmask c))))
       else emitKV "Unmask" (toStr σ (unmask c)));
    (* User/Group *)
    emitIfSet σ "User" (user c);
    emitIfSet σ "Group" (group c);
    emitEach "GroupAdd" (arr σ (groupAdd c));
    (* User namespace *)
    emitIfSet σ "UserNS" (userNS c);
    (* UID/GID mappings *)
    emitEach "UIDMap" (arr σ (uidMap c));
    emitEach "GIDMap" (arr σ (gidMap c));
    emitIfSet σ "SubUIDMap" (subUidMap c);
    emitIfSet σ "SubGIDMap" (subGidMap c);
    (* Runtime options *)
    when (readOnly c) (emit ("ReadOnly=true" +:+ LF));
    when (negb (readOnlyTmpfs c)) (emit ("ReadOnlyTmpfs=false" +:+ LF));
    when (runInit c) (emit ("RunInit=true" +:+ LF));
    emitIfSet σ "WorkingDir" (workingDir c);
    emitIfSet σ "HostName" (hostName c);
    emitIfSet σ "Timezone" (timezone c);
    emitIfSet σ "ShmSize" (shmSize c);
    (* Tmpfs mounts *)
    emitEach "Tmpfs" (arr σ (tmpfs c));
    (* Health checks *)
    emitIfSet σ "HealthCmd" (healthCmd c);
    emitIfSet σ "HealthInterval" (healthInterval c);
    emitIfSet σ "HealthOnFailure" (healthOnFailure c);
    emitIfSet σ "HealthRetries" (healthRetries c);
    emitIfSet σ "HealthStartPeriod" (healthStartPeriod c);
    emitIfSet σ "HealthTimeout" (healthTimeout c);
    (* Startup health checks *)
    emitIfSet σ "HealthStartupCmd" (healthStartupCmd c);
    emitIfSet σ "HealthStartupInterval" (healthStartupInterval c);
    emitIfSet σ "HealthStartupRetries" (healthStartupRetries c);
    emitIfSet σ "HealthStartupSuccess" (healthStartupSuccess c);
    emitIfSet σ "HealthStartupTimeout" (healthStartupTimeout c);
    (* Systemd integration *)
    when (truthy (notify c) && negb (strictEq (notify c) (str "conmon")))
      (if strictEq (notify c) (str "container")
       then emit ("Notify=true" +:+ LF)
       else if strictEq (notify c) (str "healthy")
       then emit ("Notify=healthy" +:+ LF)
       else skip);
    emitIfSet σ "StopSignal" (stopSignal c);
    emitIfSet σ "StopTimeout" (stopTimeout c);
    (* Pod *)
    emitIfSet σ "Pod" (pod c);
    (* Logging *)
    emitIfSet σ "LogDriver" (logDriver c);
    emitEach "LogOpt" (arr σ (logOpt c));
    (* Annotations *)
    forEach (arr σ (annotation c)) (fun annotation =>
      emitKV "Annotation" (primToString (escapeValue annotation)));
    (* Resource limits *)
    emitIfSet σ "PidsLimit" (pidsLimit c);
    emitEach "Ulimit" (arr σ (ulimit c));
    emitEach "Sysctl" (arr σ (sysctl c));
    (* Auto update *)
    emitIfSet σ "AutoUpdate" (autoUpdate c);
    (* Pull policy *)
    emitIfSet σ "Pull" (pull c);
    (* Secrets *)
    emitEach "Secret" (arr σ (secret c));
    (* Rootfs *)
    emitIfSet σ "Rootfs" (rootfs c);
    (* Entrypoint *)
    emitIfSet σ "Entrypoint" (entrypoint c);
    (* IP addresses *)
    emitIfSet σ "IP" (ip c);
    emitIfSet σ "IP6" (ip6 c);
    (* Additional Podman arguments *)
    emitIfSet σ "PodmanArgs" (podmanArgs c)
  ].

(** Generate the [Unit] section *)
Definition generateUnitSection_ (σ : store) (unit : Unit.t) : stmt :=
  block [
    emit ("[Unit]" +:+ LF);
    emitIfSet σ "Description"
      (or_else (Unit.description unit) (Unit.Description unit));
    when (nonEmpty (Unit.wants unit))
      (emitKV "Wants" (arrayJoin " " (default [] (Unit.wants unit))));
    when (nonEmpty (Unit.requires unit))
      (emitKV "Requires" (arrayJoin " " (default [] (Unit.requires unit))));
    when (nonEmpty (Unit.after unit))
      (emitKV "After" (arrayJoin " " (default [] (Unit.after unit))));
    when (nonEmpty (Unit.before unit))
      (emitKV "Before" (arrayJoin " " (default [] (Unit.before unit))))
  ].

(** Generate the [Service] section *)
Definition generateServiceSection_ (σ : store) (service : Service.t) : stmt :=
  block [
    emit ("[Service]" +:+ LF);
    emitIfSet σ "Restart"
      (or_else (Service.restart service) (Service.Restart service));
    emitIfSet σ "RestartSec"
      (or_else (Service.restartSec service) (Service.RestartSec service));
    emitIfSet σ "TimeoutStartSec"
      (or_else (Service.timeoutStartSec service)
               (Service.TimeoutStartSec service))
  ].

(** Generate the [Install] section *)
Definition generateInstallSection_ (install : Install.t) : stmt :=
  block [
    emit ("[Install]" +:+ LF);
    when (nonEmpty (Install.wantedBy install))
      (emitKV "WantedBy" (arrayJoin " " (default [] (Install.wantedBy install))));
    when (nonEmpty (Install.requiredBy install))
      (emitKV "RequiredBy"
         (arrayJoin " " (default [] (Install.requiredBy install))))
  ].

End Output.

(** The methods as the source has them: [output] is a string that starts
    empty. *)
Definition generateContainerSection (σ : store) (c : Container) : string :=
  generateContainerSection_ String.append σ c "".

Definition generateUnitSection (σ : store) (unit : Unit.t) : string :=
  generateUnitSection_ String.append σ unit "".

Definition generateServiceSection (σ : store) (service : Service.t) : string :=
  generateServiceSection_ String.append σ service "".

Definition generateInstallSection (install : Install.t) : string :=
  generateInstallSection_ String.append install "".

(** Generate a complete Quadlet file from a container configuration *)
Definition generateFile (σ : store) (c : Container) (options : Options) : string :=
  block [
    (* Add [Unit] section if provided *)
    (fun output =>
      match unit_ options with
      | Some unit => output +:+ (generateUnitSection σ unit +:+ LF)
      | None => output
      end);
    (* Add [Container] section *)
    emit String.append (generateContainerSection σ c);
    (* Add global args if provided *)
    (fun output =>
      match globals options with
      | Some g =>
          when (truthy (Globals.podmanArgs g))
            (emit String.append
               (LF +:+ "[GlobalArgs]" +:+ LF +:+
                "PodmanArgs=" +:+ toStr σ (Globals.podmanArgs g) +:+ LF)) output
      | None => output
      end);
    (* Add [Service] section if provided *)
    (fun output =>
      match service options with
      | Some s => output +:+ (LF +:+ generateServiceSection σ s)
      | None => output
      end);
    (* Add [Install] section if provided *)
    (fun output =>
      match install options with
      | Some i => output +:+ (LF +:+ generateInstallSection i)
      | None => output
      end)
  ] "".

(** The pieces appended to [output] by [generateContainerSection], in
    order: [output] is the list of the pieces appended so far. *)
Definition snoc (output : list string) (s : string) : list string :=
  output ++ [s].

Definition emitted (σ : store) (c : Container) : list string :=
  generateContainerSection_ snoc σ c [].

End QuadletGenerator.

(* ===================================================================== *)
(** * The specification's view of the output *)
(* ===================================================================== *)

(** What the specification says about the text is said about lines: a
    line is one appended piece [Key=value] with its line feed.  The
    definitions below name the lines of a key, the value a line carries,
    and the lines the specification expects of each kind of field. *)

Module Spec.

Import QuadletGenerator.

(** The text made of pieces. *)
Definition text (pieces : list string) : string :=
  fold_right String.append "" pieces.

(** The line [Key=value]. *)
Definition line (key v : string) : string := key +:+ "=" +:+ v +:+ LF.

(** A piece is a line of [key] when it starts with [key=]. *)
Definition hasKey (key piece : string) : bool :=
  Str.startsWith (key +:+ "=") piece.

(** The lines of [key] among the pieces, in order. *)
Definition linesOf (key : string) (pieces : list string) : list string :=
  List.filter (hasKey key) pieces.



(** Backslashes escaped first, then double quotes, and the whole wrapped
    in double quotes. *)
Definition escapeBackslashes (s : string) : string :=
  Str.replaceAll "092" (backslash +:+ backslash) s.
Definition escapeQuotes (s : string) : string :=
  Str.replaceAll "034" (backslash +:+ dquote) s.
Definition quoted (s : string) : string :=
  dquote +:+ escapeQuotes (escapeBackslashes s) +:+ dquote.

(** The same escaping, character by character. *)
Fixpoint escapeChars (s : string) : string :=
  match s with
  | "" => ""
  | String a s' =>
      if Ascii.eqb a "092" then backslash +:+ backslash +:+ escapeChars s'
      else if Ascii.eqb a "034" then backslash +:+ dquote +:+ escapeChars s'
      else String a (escapeChars s')
  end.

Definition hasSpace (s : string) : bool := Str.any (Ascii.eqb " ") s.

(** The serialized form of an environment, label or annotation entry. *)
Definition serialized (x : prim) : string :=
  match x with
  | PStr s => if hasSpace s then quoted s else s
  | _ => primToString x
  end.

(** A row: a key and the lines expected of it. *)
Definition row : Type := string * list string.

(** A scalar field: one line when it is populated. *)
Definition scalarRow (σ : store) (key : string) (v : value) : row :=
  (key, if truthy v then [line key (toStr σ v)] else []).

(** A list field: one line per element, in the order of the list. *)
Definition eachRow (key : string) (xs : list prim) : row :=
  (key, map (fun x => line key (primToString x)) xs).

(** A list field whose entries are escaped. *)
Definition escapedRow (key : string) (xs : list prim) : row :=
  (key, map (fun x => line key (serialized x)) xs).

(** A list field written on one line, joined by [sep]. *)
Definition joinedRow (key sep : string) (xs : list prim) : row :=
  (key, match xs with
        | [] => []
        | _ => [line key (arrayJoin sep xs)]
        end).

(** A flag: [Key=true] when it is set. *)
Definition flagRow (key : string) (b : bool) : row :=
  (key, if b then [line key "true"] else []).

(** [ReadOnlyTmpfs]: its default is [true]; only [false] is written. *)
Definition readOnlyTmpfsRow (b : bool) : row :=
  ("ReadOnlyTmpfs", if b then [] else [line "ReadOnlyTmpfs" "false"]).

(** [DNS]: the entry [none] stands for the whole list. *)
Definition dnsRow (xs : list prim) : row :=
  ("DNS", if bool_decide (PStr "none" ∈ xs) then [line "DNS" "none"]
          else map (fun x => line "DNS" (primToString x)) xs).

(** [Notify]: [container] is written as [true], [healthy] as itself, and
    nothing else is written. *)
Definition notifyRow (v : value) : row :=
  ("Notify", if bool_decide (v = str "container") then [line "Notify" "true"]
             else if bool_decide (v = str "healthy") then [line "Notify" "healthy"]
             else []).

(** [Unmask]: a single value, or a list joined by colons. *)
Definition unmaskRow (σ : store) (v : value) : row :=
  ("Unmask", match v with
             | VArr a => [line "Unmask" (arrayJoin ":" (arr σ a))]
             | _ => if truthy v then [line "Unmask" (toStr σ v)] else []
             end).

(** The keys of the [Container] section with the lines expected of each,
    in the order in which they are written. *)
Definition fieldTable (σ : store) (c : Container) : list row :=
  [ ("Image", [line "Image" (image c)]);
    scalarRow σ "ContainerName" (containerName c);
    scalarRow σ "Exec" (exec c);
    eachRow "PublishPort" (arr σ (publishPort c));
    eachRow "Volume" (arr σ (volume c));
    escapedRow "Environment" (arr σ (environment c));
    eachRow "EnvironmentFile" (arr σ (environmentFile c));
    flagRow "EnvironmentHost" (environmentHost c);
    escapedRow "Label" (arr σ (label c));
    eachRow "Network" (arr σ (network c));
    eachRow "NetworkAlias" (arr σ (networkAlias c));
    joinedRow "AddCapability" " " (arr σ (addCapability c));
    joinedRow "DropCapability" " " (arr σ (dropCapability c));
    dnsRow (arr σ (dns c));
    eachRow "DNSOption" (arr σ (dnsOption c));
    eachRow "DNSSearch" (arr σ (dnsSearch c));
    flagRow "NoNewPrivileges" (noNewPrivileges c);
    flagRow "SecurityLabelDisable" (securityLabelDisable c);
    scalarRow σ "SecurityLabelFileType" (securityLabelFileType c);
    scalarRow σ "SecurityLabelLevel" (securityLabelLevel c);
    flagRow "SecurityLabelNested" (securityLabelNested c);
    scalarRow σ "SecurityLabelType" (securityLabelType c);
    scalarRow σ "SeccompProfile" (seccompProfile c);
    joinedRow "Mask" ":" (arr σ (mask c));
    unmaskRow σ (unmask c);
    scalarRow σ "User" (user c);
    scalarRow σ "Group" (group c);
    eachRow "GroupAdd" (arr σ (groupAdd c));
    scalarRow σ "UserNS" (userNS c);
    eachRow "UIDMap" (arr σ (uidMap c));
    eachRow "GIDMap" (arr σ (gidMap c));
    scalarRow σ "SubUIDMap" (subUidMap c);
    scalarRow σ "SubGIDMap" (subGidMap c);
    flagRow "ReadOnly" (readOnly c);
    readOnlyTmpfsRow (readOnlyTmpfs c);
    flagRow "RunInit" (runInit c);
    scalarRow σ "WorkingDir" (workingDir c);
    scalarRow σ "HostName" (hostName c);
    scalarRow σ "Timezone" (timezone c);
    scalarRow σ "ShmSize" (shmSize c);
    eachRow "Tmpfs" (arr σ (tmpfs c));
    scalarRow σ "HealthCmd" (healthCmd c);
    scalarRow σ "HealthInterval" (healthInterval c);
    scalarRow σ "HealthOnFailure" (healthOnFailure c);
    scalarRow σ "HealthRetries" (healthRetries c);
    scalarRow σ "HealthStartPeriod" (healthStartPeriod c);
    scalarRow σ "HealthTimeout" (healthTimeout c);
    scalarRow σ "HealthStartupCmd" (healthStartupCmd c);
    scalarRow σ "HealthStartupInterval" (healthStartupInterval c);
    scalarRow σ "HealthStartupRetries" (healthStartupRetries c);
    scalarRow σ "HealthStartupSuccess" (healthStartupSuccess c);
    scalarRow σ "HealthStartupTimeout" (healthStartupTimeout c);
    notifyRow (notify c);
    scalarRow σ "StopSignal" (stopSignal c);
    scalarRow σ "StopTimeout" (stopTimeout c);
    scalarRow σ "Pod" (pod c);
    scalarRow σ "LogDriver" (logDriver c);
    eachRow "LogOpt" (arr σ (logOpt c));
    escapedRow "Annotation" (arr σ (annotation c));
    scalarRow σ "PidsLimit" (pidsLimit c);
    eachRow "Ulimit" (arr σ (ulimit c));
    eachRow "Sysctl" (arr σ (sysctl c));
    scalarRow σ "AutoUpdate" (autoUpdate c);
    scalarRow σ "Pull" (pull c);
    eachRow "Secret" (arr σ (secret c));
    scalarRow σ "Rootfs" (rootfs c);
    scalarRow σ "Entrypoint" (entrypoint c);
    scalarRow σ "IP" (ip c);
    scalarRow σ "IP6" (ip6 c);
    scalarRow σ "PodmanArgs" (podmanArgs c) ].

(** The text expected of the section: its header, then the rows. *)
Definition sectionLines (σ : store) (c : Container) : list string :=
  ("[Container]" +:+ LF) :: flat_map snd (fieldTable σ c).



(** ** Mutators *)

(** The validating mutators. *)
Inductive mutator : Type :=
| SetImage | SetContainerName | SetExec
| AddPublishPort | AddEnvironment | AddVolume | AddLabel.

Definition call (m : mutator) : cref -> value -> M cref :=
  match m with
  | SetImage => setImage
  | SetContainerName => setContainerName
  | SetExec => setExec
  | AddPublishPort => addPublishPort
  | AddEnvironment => addEnvironment
  | AddVolume => addVolume
  | AddLabel => addLabel
  end.

(** The store after [this] has got the fields [c'] and nothing else has
    changed, and the store after [x] has been appended to the array at
    [a] and nothing else has changed. *)
Definition assigned (this : cref) (c' : Container) (σ : store) : store :=
  mkStore (arrays σ) (<[this:=c']> (containers σ)).

Definition pushed (a : aref) (x : prim) (σ : store) : store :=
  mkStore (<[a:=arr σ a ++ [x]]> (arrays σ)) (containers σ).

(** What a successful call of a mutator does: one field is set, or one
    element (the trimmed argument) is appended to one list. *)
Definition effect (m : mutator) (v : value) (this : cref) (c : Container)
    (σ : store) : store :=
  let trimmed := Str.trim (stringOf v) in
  match m with
  | SetImage => assigned this (set_image trimmed c) σ
  | SetContainerName => assigned this (set_containerName (str trimmed) c) σ
  | SetExec => assigned this (set_exec v c) σ
  | AddPublishPort => pushed (publishPort c) (PStr trimmed) σ
  | AddEnvironment => pushed (environment c) (PStr trimmed) σ
  | AddVolume => pushed (volume c) (PStr trimmed) σ
  | AddLabel => pushed (label c) (PStr trimmed) σ
  end.

(** The list a mutator appends to, if it appends. *)
Definition target (m : mutator) (c : Container) : option aref :=
  match m with
  | AddPublishPort => Some (publishPort c)
  | AddEnvironment => Some (environment c)
  | AddVolume => Some (volume c)
  | AddLabel => Some (label c)
  | _ => None
  end.

(** ** Names and ports *)

(** A name starts with an alphanumeric character, followed only by
    alphanumerics, underscores, periods and hyphens. *)
Definition validName (t : string) : Prop :=
  exists a rest, t = String a rest /\
    isAlnum a = true /\ Str.all isNameChar rest = true.

(** A nonempty run of decimal digits, and its value. *)
Definition digits (d : string) : Prop := d <> "" /\ Str.all Str.isDigit d = true.

Fixpoint decimalFrom (acc : Z) (d : string) : Z :=
  match d with
  | "" => acc
  | String a d' => decimalFrom (10 * acc + Str.digitValue a) d'
  end.
Definition decimal (d : string) : Z := decimalFrom 0 d.

(** The optional protocol suffix of a port. *)
Definition protocolSuffixes : list string := [""; "/tcp"; "/udp"; "/sctp"].

(** The shape [(\d+:)?\d+(/(tcp|udp|sctp))?] of a port, with its numeric
    components. *)
Inductive portShape : string -> list string -> Prop :=
| port_container cp suffix :
    digits cp -> In suffix protocolSuffixes ->
    portShape (cp +:+ suffix) [cp]
| port_host_container hp cp suffix :
    digits hp -> digits cp -> In suffix protocolSuffixes ->
    portShape (hp +:+ ":" +:+ cp +:+ suffix) [hp; cp].

(** A numeric component in [1, 65535]. *)
Definition inRange (d : string) : Prop := 1 <= decimal d <= 65535.

(** ** Containers built through the mutators *)

(** The fields of a new container whose arrays are the twenty-five
    consecutive references from [n] on, in the order of the constructor. *)
Definition freshContainer (n : aref) : Container :=
  {|
    image := ""; containerName := null; exec := null; addCapability := n;
    dropCapability := (n + 1)%nat; addDevice := (n + 2)%nat;
    mount := (n + 3)%nat; volume := (n + 4)%nat; network := (n + 5)%nat;
    networkAlias := (n + 6)%nat; publishPort := (n + 7)%nat;
    exposeHostPort := (n + 8)%nat; ip := null; ip6 := null;
    dns := (n + 9)%nat; dnsOption := (n + 10)%nat;
    dnsSearch := (n + 11)%nat; environment := (n + 12)%nat;
    environmentFile := (n + 13)%nat; environmentHost := false;
    noNewPrivileges := false; securityLabelDisable := false;
    securityLabelFileType := null; securityLabelLevel := null;
    securityLabelNested := false; securityLabelType := null;
    seccompProfile := null; mask := (n + 14)%nat; unmask := null;
    user := null; group := null; groupAdd := (n + 15)%nat; userNS := null;
    uidMap := (n + 16)%nat; gidMap := (n + 17)%nat; subUidMap := null;
    subGidMap := null; readOnly := false; readOnlyTmpfs := true;
    runInit := false; workingDir := null; hostName := null;
    timezone := null; shmSize := null; tmpfs := (n + 18)%nat;
    healthCmd := null; healthInterval := null; healthOnFailure := null;
    healthRetries := null; healthStartPeriod := null;
    healthStartupCmd := null; healthStartupInterval := null;
    healthStartupRetries := null; healthStartupSuccess := null;
    healthStartupTimeout := null; healthTimeout := null;
    notify := str "conmon"; stopSignal := null; stopTimeout := null;
    pod := null; logDriver := null; logOpt := (n + 19)%nat;
    label := (n + 20)%nat; annotation := (n + 21)%nat; pidsLimit := null;
    ulimit := (n + 22)%nat; sysctl := (n + 23)%nat; autoUpdate := null;
    pull := null; secret := (n + 24)%nat; rootfs := null;
    entrypoint := null; podmanArgs := null
  |}.











End Spec.

(* ===================================================================== *)
(** * Example programs *)
(* ===================================================================== *)

Module Examples.

Local Open Scope js_scope.

Definition emptyStore : store := mkStore [] [].

(** A new container whose dns list is [["none", "1.1.1.1"]]. *)
Definition dnsExample : M cref :=
  this <- newContainer ;;
  c <- getThis this ;;
  push (dns c) (PStr "none") ;;
  push (dns c) (PStr "1.1.1.1") ;;
  ret this.




(** A container whose [unmask] field holds a list of paths, and its
    clone. *)
Definition unmaskExample : M (cref * cref) :=
  this <- newContainer ;;
  setImage this (str "alpine") ;;
  paths <- newArray [PStr "/proc/kcore"] ;;
  update this (set_unmask (VArr paths)) ;;
  cloned <- clone this ;;
  ret (this, cloned).

(** [cloned.unmask.push(path)] *)
Definition pushUnmask (cloned : cref) (path : string) : M unit :=
  c' <- getThis cloned ;;
  push (arrayOf (unmask c')) (PStr path).

End Examples.


(* ===================================================================== *)
(** * Notions used in the proofs *)
(* ===================================================================== *)

Module Notions.

Import QuadletGenerator Spec.

(** A statement that only appends the pieces [ls]. *)
Definition appends (st : list string -> list string) (ls : list string) : Prop :=
  forall output, st output = output ++ ls.

(** The statement on strings and the statement on pieces do the same. *)
Definition sim (f : string -> string) (g : list string -> list string) : Prop :=
  forall output, f (text output) = text (g output).

(** Keys hold no equals sign, so the key of a line is read off without
    ambiguity. *)
Definition plainKey (key : string) : Prop := Str.any (Ascii.eqb "=") key = false.

(** A row is well formed when its key is plain and its lines are lines of
    that key. *)
Definition rowOK (r : row) : Prop :=
  plainKey (fst r) /\ Forall (fun l => exists v, l = line (fst r) v) (snd r).


(** What [this.list.push(x)] does at the end of an [add] method. *)
Definition pushOn (this : cref) (get : Container -> aref) (x : prim)
    (σ : store) : completion cref * store :=
  match container σ this with
  | Some c =>
      match arrays σ !! get c with
      | Some _ => (Normal this, pushed (get c) x σ)
      | None => (Throw TypeError, σ)
      end
  | None => (Throw TypeError, σ)
  end.

(** What [this.field = x] does at the end of a [set] method. *)
Definition assignOn (this : cref) (f : Container -> Container) (σ : store)
    : completion cref * store :=
  match container σ this with
  | Some c => (Normal this, assigned this (f c) σ)
  | None => (Throw TypeError, σ)
  end.

(** The numeric components of a trimmed port, as the method reads them,
    and the first one that is out of range. *)
Definition components (t : string) : list string :=
  Str.split ":" (replaceAtEnd protocolSuffix t).

Definition badPort (p : string) : bool := outOfRange (Str.parseInt10 p).


(** The fields of a clone of [c] whose arrays are the twenty-five
    consecutive references from [n] on, in the order in which [clone]
    makes them; the other fields are those of [c]. *)
Definition clonedContainer (n : aref) (c : Container) : Container :=
  {|
    image := image c; containerName := containerName c; exec := exec c;
    addCapability := (n + 0)%nat; dropCapability := (n + 1)%nat;
    addDevice := (n + 2)%nat; mount := (n + 3)%nat; volume := (n + 4)%nat;
    network := (n + 5)%nat; networkAlias := (n + 6)%nat;
    publishPort := (n + 7)%nat; exposeHostPort := (n + 8)%nat; ip := ip c;
    ip6 := ip6 c; dns := (n + 9)%nat; dnsOption := (n + 10)%nat;
    dnsSearch := (n + 11)%nat; environment := (n + 12)%nat;
    environmentFile := (n + 13)%nat; environmentHost := environmentHost c;
    noNewPrivileges := noNewPrivileges c;
    securityLabelDisable := securityLabelDisable c;
    securityLabelFileType := securityLabelFileType c;
    securityLabelLevel := securityLabelLevel c;
    securityLabelNested := securityLabelNested c;
    securityLabelType := securityLabelType c;
    seccompProfile := seccompProfile c; mask := (n + 14)%nat;
    unmask := unmask c; user := user c; group := group c;
    groupAdd := (n + 15)%nat; userNS := userNS c; uidMap := (n + 16)%nat;
    gidMap := (n + 17)%nat; subUidMap := subUidMap c;
    subGidMap := subGidMap c; readOnly := readOnly c;
    readOnlyTmpfs := readOnlyTmpfs c; runInit := runInit c;
    workingDir := workingDir c; hostName := hostName c;
    timezone := timezone c; shmSize := shmSize c; tmpfs := (n + 18)%nat;
    healthCmd := healthCmd c; healthInterval := healthInterval c;
    healthOnFailure := healthOnFailure c; healthRetries := healthRetries c;
    healthStartPeriod := healthStartPeriod c;
    healthStartupCmd := healthStartupCmd c;
    healthStartupInterval := healthStartupInterval c;
    healthStartupRetries := healthStartupRetries c;
    healthStartupSuccess := healthStartupSuccess c;
    healthStartupTimeout := healthStartupTimeout c;
    healthTimeout := healthTimeout c; notify := notify c;
    stopSignal := stopSignal c; stopTimeout := stopTimeout c; pod := pod c;
    logDriver := logDriver c; logOpt := (n + 20)%nat;
    label := (n + 19)%nat; annotation := (n + 21)%nat;
    pidsLimit := pidsLimit c; ulimit := (n + 22)%nat;
    sysctl := (n + 23)%nat; autoUpdate := autoUpdate c; pull := pull c;
    secret := (n + 24)%nat; rootfs := rootfs c; entrypoint := entrypoint c;
    podmanArgs := podmanArgs c
  |}.

(** The fields that hold a value, and the flags. *)
Definition values (c : Container) : list value :=
  [ containerName c; exec c; ip c; ip6 c; securityLabelFileType c;
  securityLabelLevel c; securityLabelType c; seccompProfile c; unmask c;
  user c; group c; userNS c; subUidMap c; subGidMap c; workingDir c;
  hostName c; timezone c; shmSize c; healthCmd c; healthInterval c;
  healthOnFailure c; healthRetries c; healthStartPeriod c;
  healthStartupCmd c; healthStartupInterval c; healthStartupRetries c;
  healthStartupSuccess c; healthStartupTimeout c; healthTimeout c;
  notify c; stopSignal c; stopTimeout c; pod c; logDriver c; pidsLimit c;
  autoUpdate c; pull c; rootfs c; entrypoint c; podmanArgs c ].

Definition flags (c : Container) : list bool :=
  [ environmentHost c; noNewPrivileges c; securityLabelDisable c;
  securityLabelNested c; readOnly c; readOnlyTmpfs c; runInit c ].

(** A value that refers to no array beyond the first [n] of the store. *)
Definition allocated (n : nat) (v : value) : Prop :=
  match v with
  | VArr a => (a < n)%nat
  | _ => True
  end.

(** Every reference held by the fields of [c] is among the first [n]
    arrays. *)
Definition wellFormed (n : nat) (c : Container) : Prop :=
  Forall (fun f => (f c < n)%nat) arrayFields /\ Forall (allocated n) (values c).

End Notions.


(* ===================================================================== *)
(** * More of the value classes ([Label], [Device], [ContainerUtils]) *)
(* ===================================================================== *)

(** A parameter with a default value: an argument that is [undefined]
    takes the default. *)
Definition orDefault (x default_ : prim) : prim :=
  if bool_decide (x = PUndefined) then default_ else x.

Module Label.

Record t : Type := new {
  key : string;
  value : string
}.

Definition toString (l : t) : string := key l +:+ "=" +:+ value l.

Definition parse (labelString : string) : t :=
  let equalIndex := Str.indexOf "=" labelString in
  if equalIndex =? -1 then new labelString ""
  else
    let key := Str.substring labelString 0 equalIndex in
    let value := Str.substringFrom labelString (equalIndex + 1) in
    new key value.

End Label.

Module Device.

(** The fields hold what the constructor was given: strings, or [null]
    for a part that is left out. *)
Record t : Type := mk {
  hostDevice : prim;
  containerDevice : prim;
  permissions : prim
}.

(** [constructor(hostDevice, containerDevice = null, permissions = null)]:
    a container device that is falsy is replaced by the host device. *)
Definition new (hostDevice containerDevice permissions : prim) : t :=
  let containerDevice := orDefault containerDevice PNull in
  let permissions := orDefault permissions PNull in
  mk hostDevice
     (if primTruthy containerDevice then containerDevice else hostDevice)
     permissions.

Definition toString (d : t) : string :=
  let result :=
    primToString (hostDevice d) +:+ ":" +:+ primToString (containerDevice d) in
  if primTruthy (permissions d)
  then result +:+ ":" +:+ primToString (permissions d)
  else result.

Definition parse (deviceString : string) : t :=
  let parts := Str.split ":" deviceString in
  let hostDevice := part 0 parts in
  let containerDevice :=
    if (1 <? length parts)%nat then part 1 parts else hostDevice in
  let permissions :=
    if (2 <? length parts)%nat then PStr (part 2 parts) else PNull in
  new (PStr hostDevice) (PStr containerDevice) permissions.

End Device.

Module ContainerUtils.

(** Extract container name from image name *)
Definition imageToName (image : string) : string :=
  let imageParts := Str.split "/" image in
  let imageName := part (length imageParts - 1) imageParts in
  (* Remove tag if present *)
  let nameWithoutTag := part 0 (Str.split ":" imageName) in
  nameWithoutTag.

(** [xs.forEach((x, index) => { body })] on a state, from [index] on. *)
Fixpoint forEachFrom {A St} (index : nat) (xs : list A)
    (body : A -> nat -> St -> St) (s : St) : St :=
  match xs with
  | [] => s
  | x :: xs' => forEachFrom (S index) xs' body (body x index s)
  end.

(** The messages pushed onto [errors]. *)
Definition imageIsRequired : string := "Image is required".

Definition invalidPortMapping (index : nat) (port : prim) : string :=
  "Invalid port mapping at index " +:+ primToString (PNum (Z.of_nat index)) +:+
  ": " +:+ primToString port.

Definition invalidVolumeMapping (index : nat) (volume : prim) : string :=
  "Invalid volume mapping at index " +:+ primToString (PNum (Z.of_nat index)) +:+
  ": " +:+ primToString volume.

(** [PortMapping.parse(port)] on an element of any type: on a string it
    returns, on anything else the call [portString.includes] is a
    [TypeError]. *)
Definition parsePort (port : prim) : completion PortMapping.t :=
  match port with
  | PStr s => Normal (PortMapping.parse s)
  | _ => Throw TypeError
  end.

(** Validate container configuration: the list of the problems found. *)
Definition validateContainer (σ : store) (c : Container) : list string :=
  let errors := [] in
  let errors :=
    if negb (truthy (str (image c))) then errors ++ [imageIsRequired]
    else errors in
  (* Validate port mappings *)
  let errors :=
    forEachFrom 0%nat (arr σ (publishPort c)) (fun port index errors =>
      match parsePort port with
      | Normal _ => errors
      | Throw _ => errors ++ [invalidPortMapping index port]
      end) errors in
  (* Validate volume mappings *)
  let errors :=
    forEachFrom 0%nat (arr σ (volume c)) (fun volume index errors =>
      if isString volume then
        match Volume.parse (stringOf volume) with
        | Normal _ => errors
        | Throw _ => errors ++ [invalidVolumeMapping index volume]
        end
      else errors) errors in
  errors.

End ContainerUtils.

(* ===================================================================== *)
(** * More of the Container class ([getDefaultName], [validate]) *)
(* ===================================================================== *)

(** What [validate] throws is an [Error] with a message, which its own
    [catch] inspects; a call of a method that a value does not have is a
    [TypeError] of the engine. *)
Inductive exn : Type :=
| ErrorMessage (message : string)
| EngineTypeError.

Inductive outcome (A : Type) : Type :=
| Returned (a : A)
| Thrown (e : exn).
Arguments Returned {A} a.
Arguments Thrown {A} e.

(** [for (const x of xs) body], where the body may throw. *)
Fixpoint forOf_ {A} (xs : list A) (body : A -> outcome unit) : outcome unit :=
  match xs with
  | [] => Returned tt
  | x :: xs' =>
      match body x with
      | Returned _ => forOf_ xs' body
      | Thrown e => Thrown e
      end
  end.

(** [try { body } catch (e) { handler }] *)
Definition tryCatch {A} (body : outcome A) (handler : exn -> outcome A)
    : outcome A :=
  match body with
  | Returned a => Returned a
  | Thrown e => handler e
  end.

(** [e.message.startsWith(prefix)].  The message of the engine for a call
    of [split] on a value that has no such method does not start with the
    words of this program. *)
Definition messageStartsWith (prefix : string) (e : exn) : bool :=
  match e with
  | ErrorMessage message => Str.startsWith prefix message
  | EngineTypeError => false
  end.

(** [isNaN(portNum)] *)
Definition isNaN (portNum : option Z) : bool :=
  match portNum with
  | Some _ => false
  | None => true
  end.

(** [port.split(':')] on an element of any type. *)
Definition splitPort (port : prim) : outcome (list string) :=
  match port with
  | PStr s => Returned (Str.split ":" s)
  | _ => Thrown EngineTypeError
  end.

(** Generate the default container name from the image *)
Definition getDefaultName (c : Container) : value :=
  if truthy (containerName c) then containerName c
  else
    (* Extract name from image *)
    let imageParts := Str.split "/" (image c) in
    let imageName := part (length imageParts - 1) imageParts in
    (* Remove tag if present *)
    let nameWithoutTag := part 0 (Str.split ":" imageName) in
    str nameWithoutTag.

(** Validate the container configuration *)
Definition validate (σ : store) (c : Container) : outcome unit :=
  if negb (truthy (str (image c)))
  then Thrown (ErrorMessage "Image is required")
  else
    (* Validate ports *)
    forOf_ (arr σ (publishPort c)) (fun port =>
      tryCatch
        (match splitPort port with
         | Returned ports =>
             forOf_ ports (fun p =>
               let portNum := Str.parseInt10 p in
               if isNaN portNum || outOfRange portNum
               then Thrown (ErrorMessage ("Invalid port: " +:+ primToString port))
               else Returned tt)
         | Thrown e => Thrown e
         end)
        (fun e =>
           if messageStartsWith "Invalid port:" e then Thrown e
           else Thrown (ErrorMessage
                          ("Invalid port format: " +:+ primToString port)))).

(* ===================================================================== *)
(** * The callers: [ComposeParser] and [PodletJS] ([src/index.html]) *)
(* ===================================================================== *)

(** [container.podmanArgs = x] on the record. *)
Definition set_podmanArgs (x : value) (c : Container) : Container :=
  mkContainer
    (image c) (containerName c) (exec c) (addCapability c)
    (dropCapability c) (addDevice c) (mount c) (volume c) (network c)
    (networkAlias c) (publishPort c) (exposeHostPort c) (ip c) (ip6 c)
    (dns c) (dnsOption c) (dnsSearch c) (environment c) (environmentFile c)
    (environmentHost c) (noNewPrivileges c) (securityLabelDisable c)
    (securityLabelFileType c) (securityLabelLevel c)
    (securityLabelNested c) (securityLabelType c) (seccompProfile c)
    (mask c) (unmask c) (user c) (group c) (groupAdd c) (userNS c)
    (uidMap c) (gidMap c) (subUidMap c) (subGidMap c) (readOnly c)
    (readOnlyTmpfs c) (runInit c) (workingDir c) (hostName c) (timezone c)
    (shmSize c) (tmpfs c) (healthCmd c) (healthInterval c)
    (healthOnFailure c) (healthRetries c) (healthStartPeriod c)
    (healthStartupCmd c) (healthStartupInterval c) (healthStartupRetries c)
    (healthStartupSuccess c) (healthStartupTimeout c) (healthTimeout c)
    (notify c) (stopSignal c) (stopTimeout c) (pod c) (logDriver c)
    (logOpt c) (label c) (annotation c) (pidsLimit c) (ulimit c) (sysctl c)
    (autoUpdate c) (pull c) (secret c) (rootfs c) (entrypoint c) x.

Module ComposeParser.

Local Open Scope js_scope.

(** The character class of [_escapeArg]: white space, the double quote,
    the single quote, the backquote, the dollar sign, the backslash, and
    the characters [|&;()<>]. *)
Definition isShellSpecial (a : ascii) : bool :=
  Str.isWhiteSpace a ||
  existsb (Ascii.eqb a)
    ["034"; "'"; "`"; "$"; "092"; "|"; "&"; ";"; "("; ")"; "<"; ">"]%char.

(** The [replace] of [_escapeArg], whose pattern is global: a backslash
    is put before every double quote and every backslash. *)
Fixpoint escapeMatches (s : string) : string :=
  match s with
  | "" => ""
  | String a s' =>
      if Ascii.eqb a "034" || Ascii.eqb a "092"
      then backslash +:+ String a (escapeMatches s')
      else String a (escapeMatches s')
  end.

(** Escape argument for shell safety *)
Definition _escapeArg (arg : prim) : string :=
  let arg := if negb (isString arg) then primToString arg else stringOf arg in
  if Str.any isShellSpecial arg
  then dquote +:+ escapeMatches arg +:+ dquote
  else arg.

(** Add arguments to podmanArgs field.  After [container.podmanArgs || '']
    the variable [args] holds the value of the field or the empty
    string; the concatenations make a string of it. *)
Definition _addToPodmanArgs (container : cref) (flag : string) (value : prim)
    : M unit :=
  let value := orDefault value PNull in
  c <- getThis container ;;
  fun σ =>
    let args := or_else (podmanArgs c) (str "") in
    let args := if truthy args then toStr σ args +:+ " " else toStr σ args in
    let args := args +:+ flag in
    let args :=
      if negb (strictEq value PNull) then args +:+ (" " +:+ _escapeArg value)
      else args in
    update container (set_podmanArgs (str args)) σ.

(** [Array.isArray(x) ? x : [x]] *)
Definition asArray {A} (x : A + list A) : list A :=
  match x with
  | inl a => [a]
  | inr xs => xs
  end.

(** An entry of [ports]: a scalar (the short form is a string or a
    number), or the long form, an object of which [published], [target]
    and [protocol] are read; a key that is missing reads as
    [undefined]. *)
Inductive portEntry : Type :=
| PortScalar (port : prim)
| PortObject (published target protocol : prim).

(** Parse ports configuration *)
Definition _parsePorts (ports : portEntry + list portEntry) (container : cref)
    : M unit :=
  let portList := asArray ports in
  forOf portList (fun port =>
    match port with
    | PortScalar p =>
        if String.eqb (typeof p) "string" || String.eqb (typeof p) "number"
        then addPublishPort container (str (primToString p)) ;; ret tt
        else if String.eqb (typeof p) "object"
        then throw TypeError (* [null.published] *)
        else ret tt
    | PortObject published target protocol =>
        (* Long form: { target: 80, published: 8080, protocol: tcp } *)
        let portSpec := "" in
        let portSpec :=
          if primTruthy published
          then portSpec +:+ (primToString published +:+ ":")
          else portSpec in
        let portSpec := portSpec +:+ primToString target in
        let portSpec :=
          if primTruthy protocol && negb (strictEq protocol (str "tcp"))
          then portSpec +:+ ("/" +:+ primToString protocol)
          else portSpec in
        addPublishPort container (str portSpec) ;; ret tt
    end).

(** An entry of [volumes]: a scalar (the short form is a string), or the
    long form, an object of which [type], [source], [target] and
    [read_only] are read, and [tmpfs.size] when [tmpfs] is there
    ([tmpfs] is [None] when [volume.tmpfs] is falsy). *)
Inductive volumeEntry : Type :=
| VolumeScalar (volume : prim)
| VolumeObject (type_ source target read_only : prim) (tmpfs_ : option prim).

(** Parse volumes configuration *)
Definition _parseVolumes (volumes : volumeEntry + list volumeEntry)
    (container : cref) : M unit :=
  let volumeList := asArray volumes in
  forOf volumeList (fun volume =>
    match volume with
    | VolumeScalar v =>
        if String.eqb (typeof v) "string"
        then addVolume container v ;; ret tt
        else if String.eqb (typeof v) "object"
        then throw TypeError (* [null.type] *)
        else ret tt
    | VolumeObject type_ source target read_only tmpfs_ =>
        (* Long form: { type: bind, source: ./app, target: /app } *)
        if strictEq type_ (str "tmpfs") then
          (* Handle tmpfs separately *)
          let tmpfsSpec :=
            match tmpfs_ with
            | Some size =>
                if primTruthy size
                then PStr (primToString target +:+ (":size=" +:+ primToString size))
                else target
            | None => target
            end in
          c <- getThis container ;;
          push (tmpfs c) tmpfsSpec
        else
          let volumeSpec := "" in
          let volumeSpec :=
            if primTruthy source
            then volumeSpec +:+ (primToString source +:+ ":")
            else volumeSpec in
          let volumeSpec := volumeSpec +:+ primToString target in
          let volumeSpec :=
            if primTruthy read_only then volumeSpec +:+ ":ro" else volumeSpec in
          addVolume container (str volumeSpec) ;; ret tt
    end).

(** The [environment] and [labels] keys: an array of entries, an object
    (given by its [Object.entries], keys and values), or a scalar. *)
Inductive mapping : Type :=
| MapArray (xs : list prim)
| MapObject (entries : list (string * prim))
| MapScalar (p : prim).

(** Parse environment variables *)
Definition _parseEnvironment (environment : mapping) (container : cref)
    : M unit :=
  match environment with
  | MapArray xs =>
      (* Array format: ["NODE_ENV=production", "PORT=3000"] *)
      forOf xs (fun env => addEnvironment container env ;; ret tt)
  | MapObject entries =>
      (* Object format: { NODE_ENV: "production", PORT: 3000 } *)
      forOf entries (fun '(key, value) =>
        addEnvironment container (str (key +:+ "=" +:+ primToString value)) ;;
        ret tt)
  | MapScalar p =>
      if String.eqb (typeof p) "object"
      then throw TypeError (* [Object.entries(null)] *)
      else ret tt
  end.

(** Parse labels *)
Definition _parseLabels (labels : mapping) (container : cref) : M unit :=
  match labels with
  | MapArray xs =>
      (* Array format: ["app=web", "version=1.0"] *)
      forOf xs (fun label => addLabel container label ;; ret tt)
  | MapObject entries =>
      (* Object format: { app: "web", version: "1.0" } *)
      forOf entries (fun '(key, value) =>
        addLabel container (str (key +:+ "=" +:+ primToString value)) ;;
        ret tt)
  | MapScalar p =>
      if String.eqb (typeof p) "object"
      then throw TypeError (* [Object.entries(null)] *)
      else ret tt
  end.

End ComposeParser.

Module PodletJS.

(** Convert a Container object to Quadlet file content: the container's
    own [validate], then [QuadletGenerator.generateFile]. *)
Definition containerToQuadlet (σ : store) (c : Container) (options : Options)
    : outcome string :=
  match validate σ c with
  | Returned _ => Returned (QuadletGenerator.generateFile σ c options)
  | Thrown e => Thrown e
  end.

End PodletJS.

(* ===================================================================== *)
(** * More example programs *)
(* ===================================================================== *)

Module MoreExamples.

Local Open Scope js_scope.

(** The store after [new Container()] and [setImage('nginx')], and the
    fields of that container. *)
Definition nginxStore : store :=
  snd (setImage 0%nat (str "nginx") (snd (newContainer Examples.emptyStore))).

Definition nginx : Container := set_image "nginx" (Spec.freshContainer 0%nat).



End MoreExamples.

(* ===================================================================== *)
(** * More notions used in the statements and proofs *)
(* ===================================================================== *)

Module MoreNotions.

(** A string that holds no character [c]. *)
Definition without (c : ascii) (s : string) : Prop :=
  Str.any (fun a => Ascii.eqb a c) s = false.

(** The problems that [ContainerUtils.validateContainer] reports: for the
    ports, one for each entry that is not a string; for the volumes, one
    for each string without a colon; each with the index of the entry. *)
Definition portProblems (ports : list prim) : list string :=
  concat (imap (fun index port =>
                  match port with
                  | PStr _ => []
                  | _ => [ContainerUtils.invalidPortMapping index port]
                  end) ports).

Definition volumeProblems (volumes : list prim) : list string :=
  concat (imap (fun index volume =>
                  match volume with
                  | PStr v =>
                      if Str.includes ":" v then []
                      else [ContainerUtils.invalidVolumeMapping index volume]
                  | _ => []
                  end) volumes).

(** The protocol suffix of a port as [PortMapping.toString] writes it
    back: [/tcp] is left out. *)
Definition elided (suffix : string) : string :=
  if String.eqb suffix "/tcp" then "" else suffix.

(** The written form of a device: host device, container device and,
    when there are some, permissions. *)
Definition writtenDevice (h c : string) (p : option string) : string :=
  h +:+ String ":" (c +:+ match p with
                          | Some p' => String ":" p'
                          | None => ""
                          end).

(** A published port as [validate] takes it: a string of which every
    colon-separated part reads, with [parseInt], as a number from 1 to
    65535. *)
Definition readsAsPort (p : string) : bool :=
  match Str.parseInt10 p with
  | Some n => (1 <=? n) && (n <=? 65535)
  | None => false
  end.

Definition acceptable (port : prim) : bool :=
  match port with
  | PStr s => forallb readsAsPort (Str.split ":" s)
  | _ => false
  end.

(** The list fields that [generateContainerSection] reads, and the three
    that it does not read. *)
Definition writtenLists : list (Container -> aref) :=
  [ addCapability; dropCapability; volume; network; networkAlias;
    publishPort; dns; dnsOption; dnsSearch; environment; environmentFile;
    mask; groupAdd; uidMap; gidMap; tmpfs; label; logOpt; annotation;
    ulimit; sysctl; secret ].

Definition unwrittenLists : list (Container -> aref) :=
  [ addDevice; mount; exposeHostPort ].

(** What one call of [_addToPodmanArgs] adds: the flag and, when there
    is a value, a blank and the escaped value. *)
Definition argText (arg : string * prim) : string :=
  match snd arg with
  | PNull | PUndefined => fst arg
  | value => fst arg +:+ " " +:+ ComposeParser._escapeArg value
  end.

(** A caller that adds the arguments one after the other. *)
Definition addAll (container : cref) (args : list (string * prim)) : M unit :=
  forOf args (fun arg => ComposeParser._addToPodmanArgs container (fst arg) (snd arg)).

(** The store after the elements [xs] have been pushed onto the array at
    [a], one after the other, and nothing else has changed. *)
Definition pushedAll (a : aref) (xs : list prim) (σ : store) : store :=
  fold_left (fun σ x => Spec.pushed a x σ) xs σ.

(** The string that [_parsePorts] hands to [addPublishPort] for an entry;
    [None] for an entry that is passed over or that is [null]. *)
Definition portSpec (e : ComposeParser.portEntry) : option string :=
  match e with
  | ComposeParser.PortScalar p =>
      if String.eqb (typeof p) "string" || String.eqb (typeof p) "number"
      then Some (primToString p) else None
  | ComposeParser.PortObject published target protocol =>
      Some ((if primTruthy published then primToString published +:+ ":" else "") +:+
            primToString target +:+
            (if primTruthy protocol && negb (strictEq protocol (str "tcp"))
             then "/" +:+ primToString protocol else ""))
  end.

(** What [_parseVolumes] does with an entry: the string that it hands to
    [addVolume], or the element that it pushes onto [tmpfs]; both are
    [None] for an entry that is passed over or that is [null]. *)
Definition volumeSpec (e : ComposeParser.volumeEntry) : option string :=
  match e with
  | ComposeParser.VolumeScalar (PStr s) => Some s
  | ComposeParser.VolumeScalar _ => None
  | ComposeParser.VolumeObject type_ source target read_only _ =>
      if strictEq type_ (str "tmpfs") then None
      else Some ((if primTruthy source then primToString source +:+ ":" else "") +:+
                 primToString target +:+
                 (if primTruthy read_only then ":ro" else ""))
  end.

Definition tmpfsSpec (e : ComposeParser.volumeEntry) : option prim :=
  match e with
  | ComposeParser.VolumeScalar _ => None
  | ComposeParser.VolumeObject type_ source target read_only tmpfs_ =>
      if strictEq type_ (str "tmpfs")
      then Some (match tmpfs_ with
                 | Some size =>
                     if primTruthy size
                     then PStr (primToString target +:+ ":size=" +:+
                                primToString size)
                     else target
                 | None => target
                 end)
      else None
  end.

(** What is stored for a string that a mutator accepted, and for an entry
    [key: value] of an object. *)
Definition stored (s : string) : prim := PStr (Str.trim s).

Definition entryText (entry : string * prim) : string :=
  fst entry +:+ "=" +:+ primToString (snd entry).

(** What a mutator finds wrong with a value: the error that it throws,
    and [None] for a value that it takes. *)
Definition refusal (m : Spec.mutator) (v : value) : option error :=
  let t := Str.trim (stringOf v) in
  match m with
  | Spec.SetImage =>
      if notNonEmptyString v then Some ImageMustBeNonEmptyString else None
  | Spec.SetContainerName =>
      if notNonEmptyString v then Some ContainerNameMustBeNonEmptyString
      else if Regex.test namePattern t then None
      else Some ContainerNameFormat
  | Spec.SetExec =>
      if truthy v && negb (isString v) then Some ExecMustBeString else None
  | Spec.AddPublishPort =>
      if notNonEmptyString v then Some PortMustBeNonEmptyString
      else if Regex.test portPattern t then
        match List.find Notions.badPort (Notions.components t) with
        | Some p => Some (PortOutOfRange (default 0 (Str.parseInt10 p)))
        | None => None
        end
      else Some PortFormat
  | Spec.AddEnvironment =>
      if notNonEmptyString v then Some EnvironmentMustBeNonEmptyString
      else if Str.includes "=" t then None
      else Some EnvironmentFormat
  | Spec.AddVolume =>
      if notNonEmptyString v then Some VolumeMustBeNonEmptyString
      else if Str.includes ":" t || Str.startsWith "/" t then None
      else Some VolumeFormat
  | Spec.AddLabel =>
      if notNonEmptyString v then Some LabelMustBeNonEmptyString
      else if Str.includes "=" t then None
      else Some LabelFormat
  end.

(** What stops [_parsePorts] and [_parseVolumes] at an entry: the
    refusal of the mutator for the string that is handed to it, and the
    [TypeError] of reading a key of [null]. *)
Definition portRefusal (e : ComposeParser.portEntry) : option error :=
  match portSpec e with
  | Some spec => refusal Spec.AddPublishPort (str spec)
  | None =>
      match e with
      | ComposeParser.PortScalar PNull => Some TypeError
      | _ => None
      end
  end.

Definition volumeRefusal (e : ComposeParser.volumeEntry) : option error :=
  match volumeSpec e with
  | Some spec => refusal Spec.AddVolume (str spec)
  | None =>
      match e with
      | ComposeParser.VolumeScalar PNull => Some TypeError
      | _ => None
      end
  end.

(** [firstRefused refused xs before x e]: the element [x] is the first
    one of [xs] that is refused, with the error [e], and [before] are the
    elements in front of it. *)
Definition firstRefused {A} (refused : A -> option error) (xs before : list A)
    (x : A) (e : error) : Prop :=
  (exists after, xs = before ++ x :: after) /\
  Forall (fun y => refused y = None) before /\
  refused x = Some e.

(** The entries of a list of volumes that go to [tmpfs]. *)
Definition tmpfsOnly (e : ComposeParser.volumeEntry) : option prim :=
  match volumeSpec e with
  | Some _ => None
  | None => tmpfsSpec e
  end.

(** [volumesPushed c entries σ σ']: the store [σ'] is [σ] after the
    entries have been handled by [_parseVolumes], one after the other:
    their strings, trimmed, are at the end of [volume], their tmpfs
    mounts at the end of [tmpfs], and nothing else has changed. *)
Definition volumesPushed (c : Container) (entries : list ComposeParser.volumeEntry)
    (σ σ' : store) : Prop :=
  arr σ' (volume c) = arr σ (volume c) ++ map stored (omap volumeSpec entries) /\
  arr σ' (tmpfs c) = arr σ (tmpfs c) ++ omap tmpfsOnly entries /\
  containers σ' = containers σ /\
  forall a, a <> volume c -> a <> tmpfs c -> arr σ' a = arr σ a.

End MoreNotions.

(* ===================================================================== *)
(** * Facts about strings *)
(* ===================================================================== *)

Module StrFacts.
Import Str.

Lemma app_cons (a : ascii) (s t : string) : String a s +:+ t = String a (s +:+ t).
Proof. reflexivity. Qed.

Lemma app_empty_l (s : string) : "" +:+ s = s.
Proof. reflexivity. Qed.

Lemma app_empty_r (s : string) : s +:+ "" = s.
Proof. induction s as [|a s IH]; [done|]. by rewrite app_cons, IH. Qed.

Lemma app_assoc (s t u : string) : (s +:+ t) +:+ u = s +:+ (t +:+ u).
Proof. induction s as [|a s IH]; [done|]. by rewrite !app_cons, IH. Qed.

Lemma app_eq_empty (s t : string) : s +:+ t = "" -> s = "" /\ t = "".
Proof. destruct s; [done|]. rewrite app_cons. discriminate. Qed.


Lemma any_app p s t : any p (s +:+ t) = any p s || any p t.
Proof.
  induction s as [|a s IH]; [done|].
  rewrite app_cons. simpl. by rewrite IH, orb_assoc.
Qed.

Lemma any_all_neg p s : any p s = negb (all (fun a => negb (p a)) s).
Proof.
  induction s as [|a s IH]; [done|].
  simpl. rewrite IH. by destruct (p a).
Qed.

End StrFacts.

(* ===================================================================== *)
(** * Correctness of matching by derivatives *)
(* ===================================================================== *)

Module RegexFacts.
Import Regex.

Lemma nullable_lang r : nullable r = true <-> lang r "".
Proof.
  split.
  - induction r as [| |p|r1 IH1 r2 IH2|r1 IH1 r2 IH2|r IH]; simpl; intros H;
      try discriminate; eauto with regex.
    + apply andb_true_iff in H as [H1 H2].
      change "" with ("" +:+ ""). eauto with regex.
    + apply orb_true_iff in H as [H|H]; eauto with regex.
  - intros H. remember "" as s eqn:Hs.
    induction H as [|p a Hp|r1 r2 s1 s2 H1 IH1 H2 IH2|r1 r2 s H IH
                   |r1 r2 s H IH| |r s1 s2 H1 IH1 H2 IH2]; simpl; auto.
    + discriminate.
    + apply StrFacts.app_eq_empty in Hs as [-> ->].
      by rewrite IH1, IH2.
    + by rewrite IH.
    + rewrite IH by done. apply orb_true_r.
Qed.

Lemma lang_star_cons r a s :
  lang (Star r) (String a s) ->
  exists s1 s2, s = s1 +:+ s2 /\ lang r (String a s1) /\ lang (Star r) s2.
Proof.
  intros H. remember (Star r) as r' eqn:Hr. remember (String a s) as w eqn:Hw.
  induction H as [|p b Hp|r1 r2 s1 s2 H1 IH1 H2 IH2|r1 r2 w H IH
                 |r1 r2 w H IH|r0|r0 s1 s2 H1 IH1 H2 IH2];
    try discriminate.
  injection Hr as ->.
  destruct s1 as [|b s1].
  - rewrite StrFacts.app_empty_l in Hw. auto.
  - rewrite StrFacts.app_cons in Hw. injection Hw as -> <-.
    exists s1, s2. auto.
Qed.

Lemma deriv_lang a r s : lang (deriv a r) s <-> lang r (String a s).
Proof.
  revert s.
  induction r as [| |p|r1 IH1 r2 IH2|r1 IH1 r2 IH2|r IH]; intros s; simpl.
  - split; inversion 1.
  - split; inversion 1.
  - destruct (p a) eqn:Hp; split; inversion 1; subst.
    + by constructor.
    + constructor.
    + congruence.
  - assert (Hseq : lang (Seq (deriv a r1) r2) s ->
                   lang (Seq r1 r2) (String a s)).
    { inversion 1; subst. rewrite <- StrFacts.app_cons.
      constructor; [by apply IH1|done]. }
    assert (Hinv : lang (Seq r1 r2) (String a s) ->
                   lang (Seq (deriv a r1) r2) s \/
                   (lang r1 "" /\ lang r2 (String a s))).
    { inversion 1 as [| |? ? s1 s2 H1 H2 [Hr1 Hr2] Hs| | | |]; subst.
      destruct s1 as [|b s1].
      - rewrite StrFacts.app_empty_l in Hs. subst. auto.
      - rewrite StrFacts.app_cons in Hs. injection Hs as -> <-.
        left. constructor; [by apply IH1|done]. }
    destruct (nullable r1) eqn:Hn.
    + split.
      * inversion 1; subst; [auto|].
        change (String a s) with ("" +:+ String a s).
        constructor; [by apply nullable_lang|by apply IH2].
      * intros H. destruct (Hinv H) as [?|[_ ?]].
        -- by apply lang_alt_l.
        -- apply lang_alt_r. by apply IH2.
    + split; [done|].
      intros H. destruct (Hinv H) as [?|[Hnil _]]; [done|].
      apply nullable_lang in Hnil. congruence.
  - split.
    + inversion 1; subst; [apply lang_alt_l; by apply IH1
                          |apply lang_alt_r; by apply IH2].
    + inversion 1; subst; [apply lang_alt_l; by apply IH1
                          |apply lang_alt_r; by apply IH2].
  - split.
    + inversion 1; subst. rewrite <- StrFacts.app_cons.
      constructor; [by apply IH|done].
    + intros H. apply lang_star_cons in H as (s1 & s2 & -> & H1 & H2).
      constructor; [by apply IH|done].
Qed.

Lemma test_lang r s : test r s = true <-> lang r s.
Proof.
  revert r. induction s as [|a s IH]; intros r; simpl.
  - apply nullable_lang.
  - rewrite IH. apply deriv_lang.
Qed.

Lemma lang_star_class p s : lang (Star (Class p)) s <-> Str.all p s = true.
Proof.
  split.
  - intros H. remember (Star (Class p)) as r eqn:Hr.
    induction H as [|q b Hq|r1 r2 s1 s2 H1 IH1 H2 IH2|r1 r2 w H IH
                   |r1 r2 w H IH|r0|r0 s1 s2 H1 IH1 H2 IH2];
      try discriminate; [done|].
    injection Hr as ->. inversion H1; subst.
    rewrite StrFacts.app_cons, StrFacts.app_empty_l. simpl.
    rewrite IH2 by done. by rewrite andb_true_r.
  - induction s as [|a s IH]; simpl; intros H; [constructor|].
    apply andb_true_iff in H as [Ha Hs].
    change (String a s) with (String a "" +:+ s).
    constructor; [by constructor|auto].
Qed.

Lemma lang_plus_class p s :
  lang (Plus (Class p)) s <-> s <> "" /\ Str.all p s = true.
Proof.
  unfold Plus. split.
  - inversion 1 as [| |? ? s1 s2 H1 H2| | | |]; subst.
    inversion H1; subst. apply lang_star_class in H2.
    rewrite StrFacts.app_cons. simpl. split; [done|].
    rewrite StrFacts.app_empty_l. by apply andb_true_iff.
  - intros [Hne H]. destruct s as [|a s]; [done|].
    simpl in H. apply andb_true_iff in H as [Ha Hs].
    change (String a s) with (String a "" +:+ s).
    constructor; [by constructor|by apply lang_star_class].
Qed.

Lemma lang_lit c s : lang (Lit c) s <-> s = String c "".
Proof.
  unfold Lit. split.
  - inversion 1 as [|? a Ha| | | | |]; subst.
    by apply Ascii.eqb_eq in Ha as ->.
  - intros ->. constructor. apply Ascii.eqb_refl.
Qed.

Lemma lang_word w s : lang (Word w) s <-> s = w.
Proof.
  revert s. induction w as [|a w IH]; intros s; simpl.
  - split; [by inversion 1|intros ->; constructor].
  - split.
    + inversion 1 as [| |? ? s1 s2 H1 H2| | | |]; subst.
      apply lang_lit in H1 as ->. apply IH in H2 as ->. done.
    + intros ->. change (String a w) with (String a "" +:+ w).
      constructor; [by apply lang_lit|by apply IH].
Qed.

Lemma lang_opt r s : lang (Opt r) s <-> lang r s \/ s = "".
Proof.
  unfold Opt. split.
  - inversion 1 as [| | |? ? ? H1|? ? ? H1| |]; subst; [by left|].
    inversion H1. by right.
  - intros [H| ->]; [by apply lang_alt_l|apply lang_alt_r; constructor].
Qed.

Lemma lang_seq_inv r1 r2 s :
  lang (Seq r1 r2) s <-> exists s1 s2, s = s1 +:+ s2 /\ lang r1 s1 /\ lang r2 s2.
Proof.
  split.
  - inversion 1; subst. eauto.
  - intros (s1 & s2 & -> & H1 & H2). by constructor.
Qed.

Lemma lang_alt_inv r1 r2 s : lang (Alt r1 r2) s <-> lang r1 s \/ lang r2 s.
Proof.
  split.
  - inversion 1; subst; auto.
  - intros [H|H]; [by apply lang_alt_l|by apply lang_alt_r].
Qed.

End RegexFacts.

(* ===================================================================== *)
(** * The generators emit the expected lines *)
(* ===================================================================== *)

Module OutputFacts.

Import QuadletGenerator Spec.
Import Notions.

Lemma appends_emit s : appends (emit snoc s) [s].
Proof. by intros output. Qed.

Lemma appends_skip : appends skip [].
Proof. intros output. unfold skip. by rewrite app_nil_r. Qed.

Lemma appends_when b st ls :
  appends st ls -> appends (when b st) (if b then ls else []).
Proof.
  intros H output. unfold when. destruct b; [apply H|by rewrite app_nil_r].
Qed.

Lemma appends_if (b : bool) st1 st2 ls1 ls2 :
  appends st1 ls1 -> appends st2 ls2 ->
  appends (if b then st1 else st2) (if b then ls1 else ls2).
Proof. by destruct b. Qed.

Lemma appends_forEach {A} (xs : list A) (body : A -> stmt) (f : A -> string) :
  (forall x, appends (body x) [f x]) -> appends (forEach xs body) (map f xs).
Proof.
  intros H. unfold forEach.
  induction xs as [|x xs IH]; intros output; simpl.
  - by rewrite app_nil_r.
  - rewrite H, IH, <- app_assoc. done.
Qed.

Lemma appends_block stmts lss :
  Forall2 appends stmts lss -> appends (block stmts) (concat lss).
Proof.
  unfold block. induction 1 as [|st ls stmts lss Hst _ IH]; intros output; simpl.
  - by rewrite app_nil_r.
  - rewrite Hst, IH, <- app_assoc. done.
Qed.

Lemma appends_emitKV key v : appends (emitKV snoc key v) [line key v].
Proof. apply appends_emit. Qed.

Lemma appends_emitIfSet σ key v :
  appends (emitIfSet snoc σ key v) (snd (scalarRow σ key v)).
Proof. apply appends_when, appends_emitKV. Qed.

Lemma appends_emitEach key xs :
  appends (emitEach snoc key xs) (snd (eachRow key xs)).
Proof. apply appends_forEach. intros x. apply appends_emitKV. Qed.

Lemma hasSpace_includes s : Str.includes " " s = hasSpace s.
Proof.
  unfold hasSpace. induction s as [|a s IH]; [done|].
  simpl. rewrite IH. by rewrite andb_true_r.
Qed.

Lemma escapeValue_serialized x : primToString (escapeValue x) = serialized x.
Proof.
  destruct x as [| |b|n| |s]; try done.
  unfold escapeValue. simpl. rewrite hasSpace_includes.
  by destruct (hasSpace s).
Qed.

Lemma appends_escaped key xs :
  appends
    (forEach xs (fun x => emitKV snoc key (primToString (escapeValue x))))
    (snd (escapedRow key xs)).
Proof.
  apply appends_forEach. intros x. rewrite escapeValue_serialized.
  apply appends_emitKV.
Qed.

Lemma appends_joined key sep xs :
  appends (when (0 <? length xs)%nat (emitKV snoc key (arrayJoin sep xs)))
          (snd (joinedRow key sep xs)).
Proof.
  intros output. unfold when. destruct xs; simpl; [by rewrite app_nil_r|done].
Qed.

Lemma appends_flag (b : bool) s :
  appends (when b (emit snoc s)) (if b then [s] else []).
Proof. apply appends_when, appends_emit. Qed.

Lemma arrayIncludes_elem_of x xs :
  arrayIncludes x xs = bool_decide (x ∈ xs).
Proof.
  unfold arrayIncludes. induction xs as [|y xs IH]; simpl.
  - done.
  - rewrite IH. destruct (decide (y = x)) as [->|Hne].
    + rewrite bool_decide_eq_true_2 by done. simpl. symmetry.
      apply bool_decide_eq_true. apply elem_of_cons. by left.
    + rewrite (bool_decide_eq_false_2 (y = x)) by done. simpl.
      apply bool_decide_ext. rewrite elem_of_cons. intuition congruence.
Qed.

Lemma appends_dns xs :
  appends
    (when (0 <? length xs)%nat
       (if arrayIncludes (PStr "none") xs then emit snoc ("DNS=none" +:+ LF)
        else emitEach snoc "DNS" xs))
    (snd (dnsRow xs)).
Proof.
  intros output. unfold when, dnsRow. simpl.
  rewrite <- arrayIncludes_elem_of.
  destruct xs as [|x xs]; [by rewrite app_nil_r|].
  cbn [length Nat.ltb Nat.leb].
  destruct (arrayIncludes _ _); [done|apply appends_emitEach].
Qed.

Lemma strictEq_str v s : strictEq v (str s) = bool_decide (v = str s).
Proof.
  by destruct v as [[| |b|n| |t]|a|c].
Qed.

Lemma appends_notify v :
  appends
    (when (truthy v && negb (strictEq v (str "conmon")))
       (if strictEq v (str "container") then emit snoc ("Notify=true" +:+ LF)
        else if strictEq v (str "healthy") then emit snoc ("Notify=healthy" +:+ LF)
        else skip))
    (snd (notifyRow v)).
Proof.
  intros output. unfold when, notifyRow. rewrite !strictEq_str. simpl.
  destruct (decide (v = str "container")) as [->|H1].
  { done. }
  rewrite (bool_decide_eq_false_2 _ H1).
  destruct (decide (v = str "healthy")) as [->|H2].
  { done. }
  rewrite (bool_decide_eq_false_2 _ H2).
  unfold skip. rewrite app_nil_r. by destruct (_ && _).
Qed.

Lemma appends_unmask σ v :
  appends
    (when (truthy v)
       (if isArray v then emitKV snoc "Unmask" (arrayJoin ":" (arr σ (arrayOf v)))
        else emitKV snoc "Unmask" (toStr σ v)))
    (snd (unmaskRow σ v)).
Proof.
  intros output. unfold when, unmaskRow.
  destruct v as [p|a|c]; simpl; try done.
  destruct (primTruthy p); [done|by rewrite app_nil_r].
Qed.

Lemma appends_readOnlyTmpfs (b : bool) :
  appends (when (negb b) (emit snoc ("ReadOnlyTmpfs=false" +:+ LF)))
          (snd (readOnlyTmpfsRow b)).
Proof. intros output. unfold when. destruct b; [by rewrite app_nil_r|done]. Qed.

(** One statement of the section against its row; the more specific shapes
    are tried first. *)
Ltac appends_row :=
  first [ apply appends_joined | apply appends_dns | apply appends_notify
        | apply appends_readOnlyTmpfs
        | apply appends_unmask | apply appends_emitIfSet
        | apply appends_emitEach | apply appends_escaped
        | apply appends_flag | apply appends_emitKV | apply appends_emit ].

(** The pieces appended by [generateContainerSection] are the header and
    the rows of the table, in order. *)
Lemma emitted_sectionLines σ c : emitted σ c = sectionLines σ c.
Proof.
  unfold emitted, generateContainerSection_.
  erewrite appends_block.
  2:{ repeat (constructor; [appends_row|]). constructor. }
  reflexivity.
Qed.

(** ** The text is the concatenation of the pieces *)

Lemma text_app ls1 ls2 : text (ls1 ++ ls2) = text ls1 +:+ text ls2.
Proof.
  induction ls1 as [|l ls1 IH]; [done|].
  simpl. by rewrite IH, StrFacts.app_assoc.
Qed.

Lemma text_snoc ls s : text (snoc ls s) = text ls +:+ s.
Proof. unfold snoc. rewrite text_app. simpl. by rewrite StrFacts.app_empty_r. Qed.

Lemma sim_emit s : sim (emit String.append s) (emit snoc s).
Proof. intros output. unfold emit. by rewrite text_snoc. Qed.

Lemma sim_skip : sim skip skip.
Proof. by intros output. Qed.

Lemma sim_when b f g : sim f g -> sim (when b f) (when b g).
Proof. intros H output. unfold when. by destruct b. Qed.

Lemma sim_if (b : bool) f1 f2 g1 g2 :
  sim f1 g1 -> sim f2 g2 -> sim (if b then f1 else f2) (if b then g1 else g2).
Proof. by destruct b. Qed.

Lemma sim_forEach {A} (xs : list A) f g :
  (forall x, sim (f x) (g x)) -> sim (forEach xs f) (forEach xs g).
Proof.
  intros H. unfold forEach.
  induction xs as [|x xs IH]; intros output; simpl; [done|].
  rewrite H. apply IH.
Qed.

Lemma sim_block fs gs : Forall2 sim fs gs -> sim (block fs) (block gs).
Proof.
  unfold block. induction 1 as [|f g fs gs Hfg _ IH]; intros output; simpl.
  - done.
  - rewrite Hfg. apply IH.
Qed.

Ltac sim_row :=
  unfold emitIfSet, emitEach, emitKV;
  repeat first [ apply sim_emit | apply sim_skip | apply sim_when
               | apply sim_if | apply sim_forEach; intros ? ].

Ltac sim_rows := repeat (constructor; [sim_row|]); constructor.

Lemma generateContainerSection_text σ c :
  generateContainerSection σ c = text (emitted σ c).
Proof.
  unfold generateContainerSection, emitted, generateContainerSection_.
  change "" with (text []). apply sim_block. sim_rows.
Qed.




End OutputFacts.

(* ===================================================================== *)
(** * The lines of a key *)
(* ===================================================================== *)

Module LineFacts.

Import QuadletGenerator Spec.
Import Notions.

#[local] Arguments Ascii.eqb : simpl never.

Lemma hasKey_line key key' v :
  plainKey key -> plainKey key' ->
  hasKey key (line key' v) = String.eqb key key'.
Proof.
  unfold plainKey, hasKey, line. revert key'.
  induction key as [|a key IH]; intros [|b key'] Hk Hk'; simpl in *.
  - done.
  - apply orb_false_iff in Hk' as [Hb _]. by rewrite Hb.
  - apply orb_false_iff in Hk as [Ha _].
    rewrite Ascii.eqb_sym in Ha. by rewrite Ha.
  - apply orb_false_iff in Hk as [_ Hk].
    apply orb_false_iff in Hk' as [_ Hk'].
    rewrite (IH key' Hk Hk'). by destruct (Ascii.eqb a b).
Qed.

Lemma hasKey_no_equals key s :
  Str.any (Ascii.eqb "=") s = false -> hasKey key s = false.
Proof.
  unfold hasKey. revert s.
  induction key as [|a key IH]; intros [|b s] Hs; simpl in *; try done.
  - apply orb_false_iff in Hs as [Hb _]. by rewrite Hb.
  - apply orb_false_iff in Hs as [_ Hs].
    rewrite (IH s Hs). apply andb_false_r.
Qed.


Lemma drop_app s t : Str.drop (String.length s) (s +:+ t) = t.
Proof. induction s as [|a s IH]; [by destruct t|done]. Qed.


Lemma linesOf_app key ls1 ls2 :
  linesOf key (ls1 ++ ls2) = linesOf key ls1 ++ linesOf key ls2.
Proof. apply List.filter_app. Qed.

Lemma linesOf_row key r :
  plainKey key -> rowOK r ->
  linesOf key (snd r) = if String.eqb key (fst r) then snd r else [].
Proof.
  intros Hk [Hr Hls]. destruct r as [k ls]. simpl in *.
  induction Hls as [|l ls [v ->] _ IH]; simpl.
  - by destruct (String.eqb key k).
  - rewrite (hasKey_line key k v Hk Hr), IH.
    by destruct (String.eqb key k).
Qed.

(** In a table of well-formed rows with distinct keys, the lines of a key
    are the lines of its row. *)
Lemma linesOf_table (table : list row) i key ls :
  Forall rowOK table -> NoDup (map fst table) ->
  table !! i = Some (key, ls) ->
  linesOf key (flat_map snd table) = ls.
Proof.
  intros Hok. revert i. induction Hok as [|r table Hr Hok IH];
    intros i Hnd Hi; [done|].
  simpl in *. apply NoDup_cons in Hnd as [Hnotin Hnd].
  rewrite linesOf_app.
  destruct i as [|i]; simpl in Hi.
  - injection Hi as ->. rewrite linesOf_row; [|apply Hr|done]. simpl.
    rewrite String.eqb_refl.
    assert (Hrest : linesOf key (flat_map snd table) = []).
    { clear IH Hnd. destruct Hr as [Hk _]. simpl in Hk.
      induction Hok as [|r' table Hr' Hok IH]; [done|].
      simpl in *. rewrite linesOf_app, linesOf_row by done.
      apply not_elem_of_cons in Hnotin as [Hne Hnotin].
      destruct (String.eqb_spec key (fst r')) as [->|_]; [done|].
      by apply IH. }
    rewrite Hrest. apply app_nil_r.
  - assert (Hkey : plainKey key).
    { apply (Forall_lookup_1 _ _ _ _ Hok) in Hi. apply Hi. }
    rewrite linesOf_row by done.
    destruct (String.eqb_spec key (fst r)) as [->|_].
    + exfalso. apply Hnotin. apply list_elem_of_In, in_map_iff.
      exists (fst r, ls). split; [done|].
      apply list_elem_of_In, list_elem_of_lookup. eauto.
    + simpl. by apply (IH i).
Qed.

Lemma rowOK_scalar σ key v : plainKey key -> rowOK (scalarRow σ key v).
Proof. split; [done|]. simpl. destruct (truthy v); repeat constructor. eauto. Qed.

Lemma rowOK_map {A} key (f : A -> string) xs :
  plainKey key -> rowOK (key, map (fun x => line key (f x)) xs).
Proof.
  split; [done|]. simpl. induction xs; constructor; eauto.
Qed.

Lemma rowOK_joined key sep xs : plainKey key -> rowOK (joinedRow key sep xs).
Proof. split; [done|]. simpl. destruct xs; repeat constructor. eauto. Qed.

Lemma rowOK_flag key b : plainKey key -> rowOK (flagRow key b).
Proof. split; [done|]. simpl. destruct b; repeat constructor. eauto. Qed.

Lemma rowOK_readOnlyTmpfs b : rowOK (readOnlyTmpfsRow b).
Proof. split; [done|]. simpl. destruct b; repeat constructor. eauto. Qed.

Lemma rowOK_dns xs : rowOK (dnsRow xs).
Proof.
  unfold dnsRow. destruct (bool_decide _).
  - split; [done|]. repeat constructor. eauto.
  - by apply (rowOK_map "DNS" primToString).
Qed.

Lemma rowOK_notify v : rowOK (notifyRow v).
Proof.
  split; [done|]. simpl. repeat destruct (bool_decide _); repeat constructor; eauto.
Qed.

Lemma rowOK_unmask σ v : rowOK (unmaskRow σ v).
Proof.
  split; [done|]. simpl.
  destruct v as [p|a|c]; [destruct (truthy p)|..]; repeat constructor; eauto.
Qed.

Lemma fieldTable_ok σ c : Forall rowOK (fieldTable σ c).
Proof.
  unfold fieldTable.
  repeat (constructor;
    [first [ by apply rowOK_scalar
           | by apply (rowOK_map _ primToString)
           | by apply (rowOK_map _ serialized)
           | by apply rowOK_joined
           | by apply rowOK_flag
           | apply rowOK_readOnlyTmpfs | apply rowOK_dns | apply rowOK_notify
           | apply rowOK_unmask
           | by (split; [done|]; repeat constructor; eauto) ]|]).
  constructor.
Qed.

Lemma fieldTable_keys σ c : NoDup (map fst (fieldTable σ c)).
Proof. apply (bool_decide_unpack _). by vm_compute. Qed.

(** The lines of a key of the table, among the pieces of the section. *)
Lemma linesOf_emitted σ c i key ls :
  fieldTable σ c !! i = Some (key, ls) ->
  linesOf key (emitted σ c) = ls.
Proof.
  intros Hi. rewrite OutputFacts.emitted_sectionLines. unfold sectionLines.
  cbn [linesOf List.filter].
  rewrite hasKey_no_equals by done.
  by apply (linesOf_table _ i), Hi; [apply fieldTable_ok|apply fieldTable_keys].
Qed.

Lemma linesOf_emitted_In σ c key ls :
  In (key, ls) (fieldTable σ c) -> linesOf key (emitted σ c) = ls.
Proof.
  intros Hin. apply list_elem_of_In, list_elem_of_lookup in Hin as [i Hi].
  by apply (linesOf_emitted σ c i).
Qed.

(** Finds the row of a key in the table. *)
Ltac find_row :=
  apply linesOf_emitted_In; unfold fieldTable;
  repeat first [ left; reflexivity | right ].

(** ** Escaping, character by character *)

Lemma replaceAll_app c by_ s t :
  Str.replaceAll c by_ (s +:+ t) =
  Str.replaceAll c by_ s +:+ Str.replaceAll c by_ t.
Proof.
  induction s as [|a s IH]; [done|].
  rewrite StrFacts.app_cons. simpl. rewrite IH.
  destruct (Ascii.eqb a c); [by rewrite StrFacts.app_assoc|done].
Qed.

Lemma escape_two_passes s : escapeQuotes (escapeBackslashes s) = escapeChars s.
Proof.
  unfold escapeQuotes, escapeBackslashes.
  induction s as [|a s IH]; [done|]. simpl.
  destruct (Ascii.eqb_spec a "092") as [->|Hbs].
  - rewrite replaceAll_app, IH. done.
  - simpl. rewrite IH. by destruct (Ascii.eqb a "034").
Qed.

Lemma hasSpace_true s :
  hasSpace s = true <-> exists s1 s2, s = s1 +:+ " " +:+ s2.
Proof.
  unfold hasSpace. split.
  - induction s as [|a s IH]; [done|]. simpl.
    destruct (Ascii.eqb_spec " " a) as [<-|_]; simpl.
    + intros _. by exists "", s.
    + intros H. destruct (IH H) as (s1 & s2 & ->). by exists (String a s1), s2.
  - intros (s1 & s2 & ->). rewrite StrFacts.any_app. simpl.
    apply orb_true_r.
Qed.

End LineFacts.

(* ===================================================================== *)
(** * The serializer: escaping, lines, flags, DNS, sections *)
(* ===================================================================== *)

Module Serializer.

Import QuadletGenerator Spec.
Import Notions.

(** C5 (value escaping).  An environment, label or annotation entry that
    contains a space is written as the whole entry between double quotes,
    with backslashes escaped first and double quotes after that, which
    amounts to escaping each backslash and each double quote once; an
    entry without a space is written unchanged, whatever else it
    contains.  The lines of the three keys carry exactly these values, one
    per entry and in order. *)
Theorem value_escaping (σ : store) (c : Container) :
  (forall s,
     escapeValue (PStr s) =
       PStr (if hasSpace s
             then dquote +:+ escapeQuotes (escapeBackslashes s) +:+ dquote
             else s)) /\
  (forall s, escapeQuotes (escapeBackslashes s) = escapeChars s) /\
  generateContainerSection σ c = text (emitted σ c) /\
  linesOf "Environment" (emitted σ c) =
    map (fun x => "Environment=" +:+ primToString (escapeValue x) +:+ LF)
        (arr σ (environment c)) /\
  linesOf "Label" (emitted σ c) =
    map (fun x => "Label=" +:+ primToString (escapeValue x) +:+ LF)
        (arr σ (label c)) /\
  linesOf "Annotation" (emitted σ c) =
    map (fun x => "Annotation=" +:+ primToString (escapeValue x) +:+ LF)
        (arr σ (annotation c)).
Proof.
  split; [|split; [|split; [|split; [|split]]]].
  - intros s. unfold escapeValue. simpl.
    rewrite OutputFacts.hasSpace_includes. by destruct (hasSpace s).
  - apply LineFacts.escape_two_passes.
  - apply OutputFacts.generateContainerSection_text.
  - erewrite map_ext; [LineFacts.find_row|].
    intros x. by rewrite OutputFacts.escapeValue_serialized.
  - erewrite map_ext; [LineFacts.find_row|].
    intros x. by rewrite OutputFacts.escapeValue_serialized.
  - erewrite map_ext; [LineFacts.find_row|].
    intros x. by rewrite OutputFacts.escapeValue_serialized.
Qed.

(** C7 (boolean emission policy).  Each of the six flags has its
    [Key=true] line exactly when it is true and has no other line, so no
    [Key=false] is ever written for it; [ReadOnlyTmpfs] has the line
    [ReadOnlyTmpfs=false] exactly when it is false and no line when it is
    true. *)
Theorem boolean_emission (σ : store) (c : Container) :
  generateContainerSection σ c = text (emitted σ c) /\
  linesOf "NoNewPrivileges" (emitted σ c) =
    (if noNewPrivileges c then ["NoNewPrivileges=true" +:+ LF] else []) /\
  linesOf "SecurityLabelDisable" (emitted σ c) =
    (if securityLabelDisable c then ["SecurityLabelDisable=true" +:+ LF] else []) /\
  linesOf "SecurityLabelNested" (emitted σ c) =
    (if securityLabelNested c then ["SecurityLabelNested=true" +:+ LF] else []) /\
  linesOf "EnvironmentHost" (emitted σ c) =
    (if environmentHost c then ["EnvironmentHost=true" +:+ LF] else []) /\
  linesOf "ReadOnly" (emitted σ c) =
    (if readOnly c then ["ReadOnly=true" +:+ LF] else []) /\
  linesOf "RunInit" (emitted σ c) =
    (if runInit c then ["RunInit=true" +:+ LF] else []) /\
  linesOf "ReadOnlyTmpfs" (emitted σ c) =
    (if readOnlyTmpfs c then [] else ["ReadOnlyTmpfs=false" +:+ LF]).
Proof.
  split; [apply OutputFacts.generateContainerSection_text|].
  repeat split; LineFacts.find_row.
Qed.

(** C9 (DNS [none]).  When the dns list holds the entry [none], the only
    DNS line is [DNS=none]; otherwise there is one [DNS=] line per entry,
    in order. *)
Theorem dns_none_collapse (σ : store) (c : Container) :
  generateContainerSection σ c = text (emitted σ c) /\
  linesOf "DNS" (emitted σ c) =
    if bool_decide (PStr "none" ∈ arr σ (dns c)) then ["DNS=none" +:+ LF]
    else map (fun x => "DNS=" +:+ primToString x +:+ LF) (arr σ (dns c)).
Proof.
  split; [apply OutputFacts.generateContainerSection_text|].
  LineFacts.find_row.
Qed.

(** C6, as the source has it (list-field emission).  For every key of the
    [Container] section, the lines of that key are the ones of its row in
    [Spec.fieldTable]: [Image] always has its line; a populated scalar
    field has exactly one; a list field has one line per element in the
    order of the list, with the entries of [Environment], [Label] and
    [Annotation] escaped; [AddCapability] and [DropCapability] have one
    line joined by spaces and [Mask] one joined by colons; an empty list
    has none.  The rows that differ are [DNS] (a single [DNS=none] when
    the list holds [none]), [Notify] ([true] for [container], [healthy]
    for [healthy], nothing otherwise), [ReadOnlyTmpfs] (only [false] is
    written) and [Unmask] (a list is joined by colons). *)
Theorem container_section_lines (σ : store) (c : Container) :
  generateContainerSection σ c = text (emitted σ c) /\
  Forall (fun r => linesOf (fst r) (emitted σ c) = snd r) (fieldTable σ c).
Proof.
  split; [apply OutputFacts.generateContainerSection_text|].
  apply List.Forall_forall. intros [key ls] Hin.
  by apply LineFacts.linesOf_emitted_In.
Qed.

(** C6, as stated, fails: a container with the dns list [none; 1.1.1.1]
    has the single line [DNS=none] for its two entries, and its populated
    [notify] and [readOnlyTmpfs] fields have no line at all. *)
Lemma container_section_lines_counterexample :
  exists σ c,
    Examples.dnsExample Examples.emptyStore = (Normal 0%nat, σ) /\
    container σ 0%nat = Some c /\
    arr σ (dns c) = [PStr "none"; PStr "1.1.1.1"] /\
    linesOf "DNS" (emitted σ c) = ["DNS=none" +:+ LF] /\
    notify c = str "conmon" /\
    linesOf "Notify" (emitted σ c) = [] /\
    readOnlyTmpfs c = true /\
    linesOf "ReadOnlyTmpfs" (emitted σ c) = [].
Proof.
  eexists. eexists.
  split; [by vm_compute|].
  split; [by vm_compute|].
  repeat split; by vm_compute.
Qed.

(** ** Sections of a file *)




(** *** Line feeds at the end of a text *)

Lemma length_app s t :
  String.length (s +:+ t) = (String.length s + String.length t)%nat.
Proof.
  induction s as [|a s IH]; [done|].
  rewrite StrFacts.app_cons. cbn [String.length]. by rewrite IH.
Qed.






(** *** The sections are header and lines *)
















End Serializer.

(* ===================================================================== *)
(** * The mutators, one by one *)
(* ===================================================================== *)

Module MutatorFacts.

Import Spec.
Import Notions.
Local Open Scope js_scope.

(** A loop of checks stops at the first one that throws. *)
Lemma forOf_throwIf {A} (xs : list A) (bad : A -> bool) (err : A -> error) σ :
  forOf xs (fun x => throwIf (bad x) (err x)) σ =
  match List.find bad xs with
  | Some x => (Throw (err x), σ)
  | None => (Normal tt, σ)
  end.
Proof.
  induction xs as [|x xs IH]; [done|].
  simpl. unfold bind, throwIf at 1. destruct (bad x); [done|].
  unfold ret. apply IH.
Qed.

Lemma push_this this get x σ :
  (c <- getThis this ;; push (get c) x ;; ret this) σ = pushOn this get x σ.
Proof.
  unfold bind, getThis, push, getArray, setArray, ret, pushOn, pushed, arr, bind.
  destruct (container σ this) as [c|]; [|done].
  by destruct (arrays σ !! get c) as [xs|] eqn:Hxs.
Qed.

Lemma update_this this f σ :
  (update this f ;; ret this) σ = assignOn this f σ.
Proof.
  unfold bind, update, getThis, ret, assignOn, assigned, bind.
  by destruct (container σ this).
Qed.

Lemma setImage_spec this v σ :
  setImage this v σ =
  if notNonEmptyString v then (Throw ImageMustBeNonEmptyString, σ)
  else assignOn this (set_image (Str.trim (stringOf v))) σ.
Proof.
  unfold setImage. unfold bind at 1, throwIf.
  destruct (notNonEmptyString v); [done|]. apply update_this.
Qed.

Lemma setContainerName_spec this v σ :
  setContainerName this v σ =
  if notNonEmptyString v then (Throw ContainerNameMustBeNonEmptyString, σ)
  else if Regex.test namePattern (Str.trim (stringOf v))
  then assignOn this (set_containerName (str (Str.trim (stringOf v)))) σ
  else (Throw ContainerNameFormat, σ).
Proof.
  unfold setContainerName. unfold bind at 1, throwIf at 1.
  destruct (notNonEmptyString v); [done|].
  unfold ret at 1. cbv zeta. unfold bind at 1, throwIf.
  destruct (Regex.test _ _); [|done]. apply update_this.
Qed.

Lemma setExec_spec this v σ :
  setExec this v σ =
  if truthy v && negb (isString v) then (Throw ExecMustBeString, σ)
  else assignOn this (set_exec v) σ.
Proof.
  unfold setExec. unfold bind at 1, throwIf.
  destruct (_ && _); [done|]. apply update_this.
Qed.

Lemma addPublishPort_spec this v σ :
  addPublishPort this v σ =
  let t := Str.trim (stringOf v) in
  if notNonEmptyString v then (Throw PortMustBeNonEmptyString, σ)
  else if Regex.test portPattern t then
    match List.find badPort (components t) with
    | Some p => (Throw (PortOutOfRange (default 0 (Str.parseInt10 p))), σ)
    | None => pushOn this publishPort (PStr t) σ
    end
  else (Throw PortFormat, σ).
Proof.
  unfold addPublishPort. cbv zeta. unfold bind at 1, throwIf at 1.
  destruct (notNonEmptyString v); [done|].
  unfold ret at 1. unfold bind at 1, throwIf at 1.
  destruct (Regex.test _ _); [|done].
  cbn [negb]. unfold ret at 1. unfold bind at 1.
  rewrite (forOf_throwIf _ (fun p => outOfRange (Str.parseInt10 p))
             (fun p => PortOutOfRange (default 0 (Str.parseInt10 p)))).
  change (fun p => outOfRange (Str.parseInt10 p)) with badPort.
  fold (components (Str.trim (stringOf v))).
  destruct (List.find _ _); [done|]. apply push_this.
Qed.

Lemma addEnvironment_spec this v σ :
  addEnvironment this v σ =
  let t := Str.trim (stringOf v) in
  if notNonEmptyString v then (Throw EnvironmentMustBeNonEmptyString, σ)
  else if Str.includes "=" t then pushOn this environment (PStr t) σ
  else (Throw EnvironmentFormat, σ).
Proof.
  unfold addEnvironment. cbv zeta. unfold bind at 1, throwIf at 1.
  destruct (notNonEmptyString v); [done|].
  unfold ret at 1. unfold bind at 1, throwIf at 1.
  destruct (Str.includes _ _); [|done]. apply push_this.
Qed.

Lemma addVolume_spec this v σ :
  addVolume this v σ =
  let t := Str.trim (stringOf v) in
  if notNonEmptyString v then (Throw VolumeMustBeNonEmptyString, σ)
  else if Str.includes ":" t || Str.startsWith "/" t
  then pushOn this volume (PStr t) σ
  else (Throw VolumeFormat, σ).
Proof.
  unfold addVolume. cbv zeta. unfold bind at 1, throwIf at 1.
  destruct (notNonEmptyString v); [done|].
  unfold ret at 1. unfold bind at 1, throwIf at 1.
  destruct (Str.includes _ _); [apply push_this|].
  destruct (Str.startsWith _ _); [apply push_this|done].
Qed.

Lemma addLabel_spec this v σ :
  addLabel this v σ =
  let t := Str.trim (stringOf v) in
  if notNonEmptyString v then (Throw LabelMustBeNonEmptyString, σ)
  else if Str.includes "=" t then pushOn this label (PStr t) σ
  else (Throw LabelFormat, σ).
Proof.
  unfold addLabel. cbv zeta. unfold bind at 1, throwIf at 1.
  destruct (notNonEmptyString v); [done|].
  unfold ret at 1. unfold bind at 1, throwIf at 1.
  destruct (Str.includes _ _); [|done]. apply push_this.
Qed.

(** Whatever a mutator does, it either throws and leaves the store as it
    was, or returns [this] after its one effect. *)
Lemma pushOn_cases this get x σ :
  (exists e, pushOn this get x σ = (Throw e, σ)) \/
  (exists c, container σ this = Some c /\ is_Some (arrays σ !! get c) /\
             pushOn this get x σ = (Normal this, pushed (get c) x σ)).
Proof.
  unfold pushOn. destruct (container σ this) as [c|]; [|by left; eauto].
  destruct (arrays σ !! get c) as [xs|] eqn:Hxs; [|by left; eauto].
  right. exists c. rewrite Hxs. eauto.
Qed.

Lemma assignOn_cases this f σ :
  (exists e, assignOn this f σ = (Throw e, σ)) \/
  (exists c, container σ this = Some c /\
             assignOn this f σ = (Normal this, assigned this (f c) σ)).
Proof.
  unfold assignOn. destruct (container σ this) as [c|]; [|by left; eauto].
  right. eauto.
Qed.

Lemma call_cases m this v σ :
  (exists e, call m this v σ = (Throw e, σ)) \/
  (exists c, container σ this = Some c /\
             match target m c with
             | Some a => is_Some (arrays σ !! a)
             | None => True
             end /\
             call m this v σ = (Normal this, effect m v this c σ)).
Proof.
  destruct m; simpl.
  - rewrite setImage_spec. destruct (notNonEmptyString v); [by left; eauto|].
    destruct (assignOn_cases this (set_image (Str.trim (stringOf v))) σ)
      as [?|(c & ? & ?)]; [by left|right; eauto].
  - rewrite setContainerName_spec.
    destruct (notNonEmptyString v); [by left; eauto|].
    destruct (Regex.test _ _); [|by left; eauto].
    destruct (assignOn_cases this
                (set_containerName (str (Str.trim (stringOf v)))) σ)
      as [?|(c & ? & ?)]; [by left|right; eauto].
  - rewrite setExec_spec. destruct (_ && _); [by left; eauto|].
    destruct (assignOn_cases this (set_exec v) σ)
      as [?|(c & ? & ?)]; [by left|right; eauto].
  - rewrite addPublishPort_spec. cbv zeta.
    destruct (notNonEmptyString v); [by left; eauto|].
    destruct (Regex.test _ _); [|by left; eauto].
    destruct (List.find _ _); [by left; eauto|].
    destruct (pushOn_cases this publishPort (PStr (Str.trim (stringOf v))) σ)
      as [?|(c & ? & ? & ?)]; [by left|right; eauto].
  - rewrite addEnvironment_spec. cbv zeta.
    destruct (notNonEmptyString v); [by left; eauto|].
    destruct (Str.includes _ _); [|by left; eauto].
    destruct (pushOn_cases this environment (PStr (Str.trim (stringOf v))) σ)
      as [?|(c & ? & ? & ?)]; [by left|right; eauto].
  - rewrite addVolume_spec. cbv zeta.
    destruct (notNonEmptyString v); [by left; eauto|].
    destruct (_ || _); [|by left; eauto].
    destruct (pushOn_cases this volume (PStr (Str.trim (stringOf v))) σ)
      as [?|(c & ? & ? & ?)]; [by left|right; eauto].
  - rewrite addLabel_spec. cbv zeta.
    destruct (notNonEmptyString v); [by left; eauto|].
    destruct (Str.includes _ _); [|by left; eauto].
    destruct (pushOn_cases this label (PStr (Str.trim (stringOf v))) σ)
      as [?|(c & ? & ? & ?)]; [by left|right; eauto].
Qed.

End MutatorFacts.

(* ===================================================================== *)
(** * The patterns of names and ports *)
(* ===================================================================== *)

Module PatternFacts.

Import Spec.

#[local] Arguments Ascii.eqb : simpl never.

(** ** Trimming *)

Lemma trimStart_no_ws s : Str.any Str.isWhiteSpace s = false -> Str.trimStart s = s.
Proof.
  destruct s as [|a s]; [done|]. simpl. intros H.
  apply orb_false_iff in H as [-> _]. done.
Qed.

Lemma trimEnd_no_ws s : Str.any Str.isWhiteSpace s = false -> Str.trimEnd s = s.
Proof.
  induction s as [|a s IH]; [done|]. simpl. intros H.
  apply orb_false_iff in H as [Ha Hs]. rewrite (IH Hs), Ha.
  by destruct s.
Qed.

Lemma trim_no_ws s : Str.any Str.isWhiteSpace s = false -> Str.trim s = s.
Proof.
  intros H. unfold Str.trim. rewrite (trimStart_no_ws s H). by apply trimEnd_no_ws.
Qed.

Lemma trim_empty_of_empty : Str.trim "" = "".
Proof. reflexivity. Qed.

Lemma notNonEmptyString_str s :
  notNonEmptyString (str s) = String.eqb (Str.trim s) "".
Proof.
  unfold notNonEmptyString. simpl.
  destruct s as [|a s]; [done|]. simpl. done.
Qed.

(** ** Character classes *)

Lemma isNameChar_not_ws a : isNameChar a = true -> Str.isWhiteSpace a = false.
Proof. destruct a as [[] [] [] [] [] [] [] []]; by vm_compute. Qed.

Lemma isAlnum_isNameChar a : isAlnum a = true -> isNameChar a = true.
Proof. unfold isNameChar. by intros ->. Qed.

Lemma isDigit_not_ws a : Str.isDigit a = true -> Str.isWhiteSpace a = false.
Proof. destruct a as [[] [] [] [] [] [] [] []]; by vm_compute. Qed.

Lemma isDigit_not_colon a : Str.isDigit a = true -> Ascii.eqb a ":" = false.
Proof. destruct a as [[] [] [] [] [] [] [] []]; by vm_compute. Qed.

Lemma isDigit_not_slash a : Str.isDigit a = true -> Ascii.eqb "/" a = false.
Proof. destruct a as [[] [] [] [] [] [] [] []]; by vm_compute. Qed.

Lemma isDigit_not_sign a :
  Str.isDigit a = true -> Ascii.eqb a "-" = false /\ Ascii.eqb a "+" = false.
Proof. destruct a as [[] [] [] [] [] [] [] []]; by vm_compute. Qed.

Lemma all_impl (p q : ascii -> bool) s :
  (forall a, p a = true -> q a = true) ->
  Str.all p s = true -> Str.all q s = true.
Proof.
  intros H. induction s as [|a s IH]; [done|]. simpl.
  intros [Ha Hs]%andb_true_iff. by rewrite (H a Ha), IH.
Qed.

Lemma all_none (p q : ascii -> bool) s :
  (forall a, p a = true -> q a = false) ->
  Str.all p s = true -> Str.any q s = false.
Proof.
  intros H. induction s as [|a s IH]; [done|]. simpl.
  intros [Ha Hs]%andb_true_iff. by rewrite (H a Ha), IH.
Qed.

(** ** Names *)

Lemma namePattern_validName t :
  Regex.test namePattern t = true <-> validName t.
Proof.
  rewrite RegexFacts.test_lang. unfold namePattern, validName.
  rewrite RegexFacts.lang_seq_inv. split.
  - intros (s1 & s2 & -> & H1 & H2).
    inversion H1 as [|p a Ha| | | | |]; subst.
    apply RegexFacts.lang_star_class in H2. exists a, s2. done.
  - intros (a & rest & -> & Ha & Hrest).
    exists (String a ""), rest. split; [done|].
    split; [by constructor|by apply RegexFacts.lang_star_class].
Qed.

Lemma validName_no_ws t : validName t -> Str.any Str.isWhiteSpace t = false.
Proof.
  intros (a & rest & -> & Ha & Hrest). simpl.
  rewrite (isNameChar_not_ws a (isAlnum_isNameChar a Ha)). simpl.
  apply (all_none isNameChar); [apply isNameChar_not_ws|done].
Qed.

(** ** Ports *)

Lemma digits_lang d : Regex.lang (Regex.Plus (Regex.Class Str.isDigit)) d <-> digits d.
Proof. apply RegexFacts.lang_plus_class. Qed.

Lemma protocolSuffix_lang w :
  Regex.lang protocolSuffix w <-> w = "/tcp" \/ w = "/udp" \/ w = "/sctp".
Proof.
  unfold protocolSuffix.
  rewrite RegexFacts.lang_seq_inv. split.
  - intros (s1 & s2 & -> & H1 & H2).
    apply RegexFacts.lang_lit in H1 as ->.
    apply RegexFacts.lang_alt_inv in H2 as [H2|H2].
    { apply RegexFacts.lang_word in H2 as ->. by left. }
    apply RegexFacts.lang_alt_inv in H2 as [H2|H2];
      apply RegexFacts.lang_word in H2 as ->; auto.
  - intros H. exists "/". destruct H as [-> | [-> | ->]].
    + exists "tcp". split; [done|]. split; [by apply RegexFacts.lang_lit|].
      apply Regex.lang_alt_l. by apply RegexFacts.lang_word.
    + exists "udp". split; [done|]. split; [by apply RegexFacts.lang_lit|].
      apply Regex.lang_alt_r, Regex.lang_alt_l. by apply RegexFacts.lang_word.
    + exists "sctp". split; [done|]. split; [by apply RegexFacts.lang_lit|].
      apply Regex.lang_alt_r, Regex.lang_alt_r. by apply RegexFacts.lang_word.
Qed.

Lemma suffix_lang suffix :
  In suffix protocolSuffixes <->
  Regex.lang (Regex.Opt protocolSuffix) suffix.
Proof.
  rewrite RegexFacts.lang_opt, protocolSuffix_lang.
  unfold protocolSuffixes. simpl. intuition congruence.
Qed.

Lemma protocolSuffix_starts a w :
  Ascii.eqb "/" a = false -> Regex.test protocolSuffix (String a w) = false.
Proof.
  intros Ha. destruct (Regex.test _ _) eqn:Ht; [|done].
  apply RegexFacts.test_lang, protocolSuffix_lang in Ht.
  destruct Ht as [Ht|[Ht|Ht]]; injection Ht as -> _; by vm_compute in Ha.
Qed.

Lemma replaceAtEnd_cons r a s :
  replaceAtEnd r (String a s) =
  if Regex.test r (String a s) then "" else String a (replaceAtEnd r s).
Proof. reflexivity. Qed.

(** Cutting the protocol suffix off a port leaves what stands before it. *)
Lemma replaceAtEnd_body body suffix :
  Str.any (Ascii.eqb "/") body = false -> In suffix protocolSuffixes ->
  replaceAtEnd protocolSuffix (body +:+ suffix) = body.
Proof.
  intros Hbody Hsuffix. induction body as [|a body IH].
  - simpl in Hsuffix. destruct Hsuffix as [<-|[<-|[<-|[<-|[]]]]]; by vm_compute.
  - simpl in Hbody. apply orb_false_iff in Hbody as [Ha Hbody].
    rewrite StrFacts.app_cons, replaceAtEnd_cons.
    rewrite (protocolSuffix_starts _ _ Ha). by rewrite IH.
Qed.

Lemma split_plain sep d :
  Str.any (fun a => Ascii.eqb a sep) d = false -> Str.split sep d = [d].
Proof.
  induction d as [|a d IH]; [done|]. simpl.
  intros [Ha Hd]%orb_false_iff. by rewrite Ha, (IH Hd).
Qed.

Lemma split_app sep h rest :
  Str.any (fun a => Ascii.eqb a sep) h = false ->
  Str.split sep (h +:+ String sep rest) = h :: Str.split sep rest.
Proof.
  induction h as [|a h IH].
  - intros _. rewrite StrFacts.app_empty_l. simpl. by rewrite Ascii.eqb_refl.
  - simpl. intros [Ha Hh]%orb_false_iff. by rewrite Ha, (IH Hh).
Qed.

Lemma digits_no_colon d :
  Str.all Str.isDigit d = true -> Str.any (fun a => Ascii.eqb a ":") d = false.
Proof. apply all_none, isDigit_not_colon. Qed.

Lemma digits_no_slash d :
  Str.all Str.isDigit d = true -> Str.any (Ascii.eqb "/") d = false.
Proof. apply all_none, isDigit_not_slash. Qed.

Lemma digits_no_ws d :
  Str.all Str.isDigit d = true -> Str.any Str.isWhiteSpace d = false.
Proof. apply all_none, isDigit_not_ws. Qed.

(** What the method reads off a port of the given shape. *)
Lemma portShape_components t comps :
  portShape t comps -> Notions.components t = comps /\ Forall digits comps.
Proof.
  unfold Notions.components.
  destruct 1 as [cp suffix [Hne Hcp] Hsuffix
                |hp cp suffix [Hnh Hhp] [Hne Hcp] Hsuffix].
  - rewrite replaceAtEnd_body by auto using digits_no_slash.
    rewrite split_plain by auto using digits_no_colon.
    split; [done|]. by repeat constructor.
  - replace (hp +:+ ":" +:+ cp +:+ suffix)
      with ((hp +:+ String ":" cp) +:+ suffix)
      by (by rewrite !StrFacts.app_assoc).
    rewrite replaceAtEnd_body; [| |done].
    + rewrite split_app, split_plain by auto using digits_no_colon.
      split; [done|]. by repeat constructor.
    + rewrite StrFacts.any_app. simpl.
      by rewrite (digits_no_slash hp), (digits_no_slash cp) by done.
Qed.

Lemma portShape_no_ws t comps :
  portShape t comps -> Str.any Str.isWhiteSpace t = false.
Proof.
  assert (Hsuf : forall suffix, In suffix protocolSuffixes ->
            Str.any Str.isWhiteSpace suffix = false).
  { intros suffix H. simpl in H.
    destruct H as [<-|[<-|[<-|[<-|[]]]]]; by vm_compute. }
  destruct 1 as [cp suffix [_ Hcp] Hsuffix
                |hp cp suffix [_ Hhp] [_ Hcp] Hsuffix].
  - rewrite StrFacts.any_app, digits_no_ws, Hsuf by done. done.
  - rewrite !StrFacts.any_app, (digits_no_ws hp), (digits_no_ws cp),
      (Hsuf suffix) by done.
    by vm_compute.
Qed.

(** The pattern of the method and the shape of the specification. *)
Lemma portPattern_shape t :
  Regex.test portPattern t = true <-> exists comps, portShape t comps.
Proof.
  rewrite RegexFacts.test_lang. unfold portPattern.
  rewrite RegexFacts.lang_seq_inv. split.
  - intros (s1 & s2 & -> & H1 & H2).
    apply RegexFacts.lang_seq_inv in H2 as (cp & suffix & -> & Hcp & Hsuffix).
    apply digits_lang in Hcp. apply suffix_lang in Hsuffix.
    apply RegexFacts.lang_opt in H1 as [H1| ->].
    + apply RegexFacts.lang_seq_inv in H1 as (hp & colon & -> & Hhp & Hcolon).
      apply digits_lang in Hhp. apply RegexFacts.lang_lit in Hcolon as ->.
      exists [hp; cp]. rewrite !StrFacts.app_assoc.
      by apply port_host_container.
    + exists [cp]. rewrite StrFacts.app_empty_l. by apply port_container.
  - intros [comps H].
    destruct H as [cp suffix Hcp Hsuffix|hp cp suffix Hhp Hcp Hsuffix].
    + exists "", (cp +:+ suffix). split; [done|].
      split; [apply RegexFacts.lang_opt; by right|].
      apply RegexFacts.lang_seq_inv. exists cp, suffix.
      split; [done|]. split; [by apply digits_lang|by apply suffix_lang].
    + exists (hp +:+ ":"), (cp +:+ suffix).
      split; [by rewrite !StrFacts.app_assoc|].
      split.
      * apply RegexFacts.lang_opt. left. apply RegexFacts.lang_seq_inv.
        exists hp, ":". split; [done|].
        split; [by apply digits_lang|by apply RegexFacts.lang_lit].
      * apply RegexFacts.lang_seq_inv. exists cp, suffix.
        split; [done|]. split; [by apply digits_lang|by apply suffix_lang].
Qed.

(** ** Reading a number *)

Lemma digitsPrefix_digits d acc :
  Str.all Str.isDigit d = true ->
  Str.digitsPrefix acc d =
  match d with
  | "" => acc
  | _ => Some (decimalFrom (default 0 acc) d)
  end.
Proof.
  revert acc. induction d as [|a d IH]; intros acc; [done|]. simpl.
  intros [Ha Hd]%andb_true_iff. rewrite Ha, (IH _ Hd). by destruct d.
Qed.

Lemma parseInt10_digits d : digits d -> Str.parseInt10 d = Some (decimal d).
Proof.
  intros [Hne Hd]. unfold Str.parseInt10.
  rewrite trimStart_no_ws by by apply digits_no_ws.
  destruct d as [|a d]; [done|].
  pose proof Hd as Hd'. simpl in Hd'. apply andb_true_iff in Hd' as [Ha _].
  destruct (isDigit_not_sign a Ha) as [-> ->].
  by rewrite digitsPrefix_digits.
Qed.

Lemma badPort_digits d : digits d -> Notions.badPort d = false <-> inRange d.
Proof.
  intros Hd. unfold Notions.badPort, inRange.
  rewrite (parseInt10_digits d Hd). simpl.
  rewrite orb_false_iff, Z.ltb_ge, Z.gtb_ltb, Z.ltb_ge. lia.
Qed.

Lemma find_badPort comps :
  Forall digits comps ->
  (List.find Notions.badPort comps = None <-> Forall inRange comps).
Proof.
  induction 1 as [|d comps Hd _ IH]; simpl.
  - split; [constructor|done].
  - destruct (Notions.badPort d) eqn:Hbad.
    + split; [done|]. intros Hall. apply Forall_cons in Hall as [Hin _].
      apply (badPort_digits d Hd) in Hin. congruence.
    + rewrite IH. apply (badPort_digits d Hd) in Hbad.
      split; [by constructor|]. by intros [_ ?]%Forall_cons.
Qed.

End PatternFacts.

(* ===================================================================== *)
(** * Validation and atomicity of the mutators *)
(* ===================================================================== *)

Module Validation.

Import Spec.

Lemma pushOn_allocated this get x σ c xs :
  container σ this = Some c -> arrays σ !! get c = Some xs ->
  Notions.pushOn this get x σ = (Normal this, pushed (get c) x σ).
Proof. intros Hc Hxs. unfold Notions.pushOn. by rewrite Hc, Hxs. Qed.

Lemma assignOn_allocated this f σ c :
  container σ this = Some c ->
  Notions.assignOn this f σ = (Normal this, assigned this (f c) σ).
Proof. intros Hc. unfold Notions.assignOn. by rewrite Hc. Qed.

Lemma setContainerName_accepts σ this c s :
  container σ this = Some c ->
  validName (Str.trim s) ->
  setContainerName this (str s) σ =
    (Normal this, assigned this (set_containerName (str (Str.trim s)) c) σ).
Proof.
  intros Hc Hvalid. rewrite MutatorFacts.setContainerName_spec.
  rewrite PatternFacts.notNonEmptyString_str. simpl stringOf.
  destruct Hvalid as (a & rest & Ht & Ha & Hrest).
  assert (Htest : Regex.test namePattern (Str.trim s) = true).
  { apply PatternFacts.namePattern_validName. exists a, rest. by rewrite Ht. }
  rewrite Htest, Ht. simpl. rewrite <- Ht. by apply assignOn_allocated.
Qed.

Lemma setContainerName_rejects σ this s :
  ~ validName (Str.trim s) ->
  exists e, setContainerName this (str s) σ = (Throw e, σ).
Proof.
  intros Hinvalid. rewrite MutatorFacts.setContainerName_spec.
  destruct (notNonEmptyString _); [by eauto|]. simpl stringOf.
  destruct (Regex.test _ _) eqn:Htest; [|by eauto].
  by apply PatternFacts.namePattern_validName in Htest.
Qed.

(** C8, as the source has it (name validation).  [setContainerName]
    accepts a string exactly when its trimmed form matches
    [^[A-Za-z0-9][A-Za-z0-9_.-]*$], that is, starts with an alphanumeric
    character and goes on with alphanumerics, underscores, periods and
    hyphens only; it then stores the trimmed form as the container name and
    returns the container, and otherwise throws and changes nothing.  A
    string that matches the pattern is its own trimmed form.  [my_app-1]
    is accepted, [-bad] and [bad name] are rejected. *)
Theorem name_validation (σ : store) (this : cref) (c : Container) (s : string) :
  container σ this = Some c ->
  (Regex.test namePattern (Str.trim s) = true <-> validName (Str.trim s)) /\
  (Regex.test namePattern s = true -> Str.trim s = s) /\
  (validName (Str.trim s) ->
     setContainerName this (str s) σ =
       (Normal this,
        assigned this (set_containerName (str (Str.trim s)) c) σ)) /\
  (~ validName (Str.trim s) ->
     exists e, setContainerName this (str s) σ = (Throw e, σ)) /\
  setContainerName this (str "my_app-1") σ =
    (Normal this, assigned this (set_containerName (str "my_app-1") c) σ) /\
  (exists e, setContainerName this (str "-bad") σ = (Throw e, σ)) /\
  (exists e, setContainerName this (str "bad name") σ = (Throw e, σ)).
Proof.
  intros Hc. repeat split.
  - by apply PatternFacts.namePattern_validName.
  - by apply PatternFacts.namePattern_validName.
  - intros Hs. apply PatternFacts.trim_no_ws, PatternFacts.validName_no_ws.
    by apply PatternFacts.namePattern_validName.
  - by apply setContainerName_accepts.
  - by apply setContainerName_rejects.
  - apply (setContainerName_accepts σ this c "my_app-1" Hc).
    exists "m"%char, "y_app-1". by vm_compute.
  - apply setContainerName_rejects.
    intros Hv%PatternFacts.namePattern_validName. by vm_compute in Hv.
  - apply setContainerName_rejects.
    intros Hv%PatternFacts.namePattern_validName. by vm_compute in Hv.
Qed.

(** A new container accepts the name [web] given with blanks around it. *)
Lemma name_validation_witness :
  exists c,
    container (snd (newContainer Examples.emptyStore)) 0%nat = Some c /\
    setContainerName 0%nat (str " web ") (snd (newContainer Examples.emptyStore)) =
      (Normal 0%nat,
       assigned 0%nat (set_containerName (str "web") c)
         (snd (newContainer Examples.emptyStore))).
Proof.
  destruct (container (snd (newContainer Examples.emptyStore)) 0%nat)
    as [c|] eqn:Hc; [|by vm_compute in Hc].
  exists c. split; [done|].
  destruct (name_validation _ 0%nat c " web " Hc) as (_ & _ & Hok & _).
  apply Hok. exists "w"%char, "eb". vm_compute. repeat split.
Defined.

(** C8, as stated, fails: [ web] does not match the pattern and is
    accepted all the same, stored as [web]. *)
Lemma name_validation_counterexample :
  Regex.test namePattern " web" = false /\
  exists c σ',
    setContainerName 0%nat (str " web") (snd (newContainer Examples.emptyStore)) =
      (Normal 0%nat, σ') /\
    container σ' 0%nat = Some c /\
    containerName c = str "web".
Proof.
  split; [by vm_compute|].
  eexists. eexists. split; [by vm_compute|].
  split; by vm_compute.
Qed.

Lemma addPublishPort_accepts σ this c xs s comps :
  container σ this = Some c -> arrays σ !! publishPort c = Some xs ->
  portShape (Str.trim s) comps -> Forall inRange comps ->
  addPublishPort this (str s) σ =
    (Normal this, pushed (publishPort c) (PStr (Str.trim s)) σ).
Proof.
  intros Hc Hxs Hshape Hrange.
  rewrite MutatorFacts.addPublishPort_spec. cbv zeta. simpl stringOf.
  rewrite PatternFacts.notNonEmptyString_str.
  assert (Htest : Regex.test portPattern (Str.trim s) = true).
  { apply PatternFacts.portPattern_shape. eauto. }
  assert (Str.trim s <> "") as Hne.
  { intros Heq. rewrite Heq in Htest. by vm_compute in Htest. }
  destruct (String.eqb_spec (Str.trim s) "") as [?|_]; [done|].
  rewrite Htest.
  destruct (PatternFacts.portShape_components _ _ Hshape) as [-> Hdigits].
  apply (PatternFacts.find_badPort comps Hdigits) in Hrange. rewrite Hrange.
  by apply (pushOn_allocated this publishPort _ σ c xs).
Qed.

Lemma addPublishPort_out_of_range σ this s comps :
  portShape (Str.trim s) comps -> ~ Forall inRange comps ->
  exists e, addPublishPort this (str s) σ = (Throw e, σ).
Proof.
  intros Hshape Hrange.
  rewrite MutatorFacts.addPublishPort_spec. cbv zeta. simpl stringOf.
  destruct (notNonEmptyString _); [by eauto|].
  destruct (Regex.test _ _); [|by eauto].
  destruct (PatternFacts.portShape_components _ _ Hshape) as [-> Hdigits].
  destruct (List.find _ _) eqn:Hfind; [by eauto|].
  by apply (PatternFacts.find_badPort comps Hdigits) in Hfind.
Qed.

Lemma addPublishPort_no_match σ this s :
  Regex.test portPattern (Str.trim s) = false ->
  exists e, addPublishPort this (str s) σ = (Throw e, σ).
Proof.
  intros Htest.
  rewrite MutatorFacts.addPublishPort_spec. cbv zeta. simpl stringOf.
  destruct (notNonEmptyString _); [by eauto|].
  rewrite Htest. eauto.
Qed.

(** The decision on the components is one of the two. *)
Lemma inRange_dec comps : {Forall inRange comps} + {~ Forall inRange comps}.
Proof.
  apply Forall_dec. intros d. unfold inRange.
  destruct (Z_le_dec 1 (decimal d)); [|right; lia].
  destruct (Z_le_dec (decimal d) 65535); [left|right]; lia.
Defined.

(** C2, as the source has it (port validation).  A string whose trimmed
    form has the shape [(\d+:)?\d+(/(tcp|udp|sctp))?] is accepted, with
    the trimmed form appended to the published ports and the container
    returned, exactly when each of its one or two numeric components, read
    with the protocol suffix cut off, is between 1 and 65535; otherwise,
    and whenever the trimmed form does not have that shape, the call
    throws and changes nothing.  A string of that shape is its own trimmed
    form.  [0:80] is rejected, [8080:80] and [80/udp] are accepted. *)
Theorem port_validation
    (σ : store) (this : cref) (c : Container) (xs : list prim) (s : string) :
  container σ this = Some c ->
  arrays σ !! publishPort c = Some xs ->
  (Regex.test portPattern (Str.trim s) = true <->
     exists comps, portShape (Str.trim s) comps) /\
  (Regex.test portPattern s = true -> Str.trim s = s) /\
  (forall comps, portShape (Str.trim s) comps ->
     (Forall inRange comps /\
      addPublishPort this (str s) σ =
        (Normal this, pushed (publishPort c) (PStr (Str.trim s)) σ)) \/
     (~ Forall inRange comps /\
      exists e, addPublishPort this (str s) σ = (Throw e, σ))) /\
  (Regex.test portPattern (Str.trim s) = false ->
     exists e, addPublishPort this (str s) σ = (Throw e, σ)) /\
  (exists e, addPublishPort this (str "0:80") σ = (Throw e, σ)) /\
  addPublishPort this (str "8080:80") σ =
    (Normal this, pushed (publishPort c) (PStr "8080:80") σ) /\
  addPublishPort this (str "80/udp") σ =
    (Normal this, pushed (publishPort c) (PStr "80/udp") σ).
Proof.
  intros Hc Hxs.
  split; [apply PatternFacts.portPattern_shape|].
  split.
  { intros [comps Hshape]%PatternFacts.portPattern_shape.
    by apply PatternFacts.trim_no_ws, (PatternFacts.portShape_no_ws s comps). }
  split.
  { intros comps Hshape. destruct (inRange_dec comps) as [Hrange|Hrange].
    - left. split; [done|]. by apply (addPublishPort_accepts σ this c xs s comps).
    - right. split; [done|]. by apply (addPublishPort_out_of_range σ this s comps). }
  split; [apply addPublishPort_no_match|].
  split.
  { apply (addPublishPort_out_of_range σ this "0:80" ["0"; "80"]).
    - apply (port_host_container "0" "80" ""); [done|done|by left].
    - intros [Hzero _]%Forall_cons. unfold inRange in Hzero.
      change (decimal "0") with 0 in Hzero. lia. }
  split.
  - apply (addPublishPort_accepts σ this c xs "8080:80" ["8080"; "80"] Hc Hxs).
    + apply (port_host_container "8080" "80" ""); [done|done|by left].
    + repeat constructor; by vm_compute.
  - apply (addPublishPort_accepts σ this c xs "80/udp" ["80"] Hc Hxs).
    + apply (port_container "80" "/udp"); [done|]. simpl. auto.
    + repeat constructor; by vm_compute.
Qed.

(** A new container accepts the port [8080:80/tcp] given with blanks
    around it. *)
Lemma port_validation_witness :
  exists c,
    container (snd (newContainer Examples.emptyStore)) 0%nat = Some c /\
    addPublishPort 0%nat (str " 8080:80/tcp ")
        (snd (newContainer Examples.emptyStore)) =
      (Normal 0%nat,
       pushed (publishPort c) (PStr "8080:80/tcp")
         (snd (newContainer Examples.emptyStore))).
Proof.
  eexists. split; [vm_compute; reflexivity|].
  lazymatch goal with
  | |- addPublishPort _ _ ?σ = (_, pushed (publishPort ?c) _ _) =>
      assert (Hc : container σ 0%nat = Some c) by (vm_compute; reflexivity);
      assert (Hxs : arrays σ !! publishPort c = Some [])
        by (vm_compute; reflexivity);
      destruct (port_validation σ 0%nat c [] " 8080:80/tcp " Hc Hxs)
        as (_ & _ & H & _)
  end.
  destruct (H ["8080"; "80"]) as [[_ Hok]|[Hbad _]].
  - apply (port_host_container "8080" "80" "/tcp");
      [split; [discriminate|reflexivity]
      |split; [discriminate|reflexivity]
      |right; left; reflexivity].
  - exact Hok.
  - exfalso. apply Hbad.
    repeat constructor; vm_compute; discriminate.
Defined.

(** C2, as stated, fails: [ 80] does not have the shape (it starts with a
    blank) and is accepted all the same, stored as [80]. *)
Lemma port_validation_counterexample :
  Regex.test portPattern " 80" = false /\
  exists c σ',
    addPublishPort 0%nat (str " 80") (snd (newContainer Examples.emptyStore)) =
      (Normal 0%nat, σ') /\
    container σ' 0%nat = Some c /\
    arr σ' (publishPort c) = [PStr "80"].
Proof.
  split; [by vm_compute|].
  eexists. eexists. split; [by vm_compute|].
  split; by vm_compute.
Qed.

(** ** Atomicity *)

Lemma assigned_others this c' σ other :
  other <> this ->
  container (assigned this c' σ) other = container σ other.
Proof. intros Hne. unfold container, assigned. simpl. by apply list_lookup_insert_ne. Qed.

Lemma assigned_this this c c' σ :
  container σ this = Some c -> container (assigned this c' σ) this = Some c'.
Proof.
  intros Hc. unfold container, assigned in *. simpl.
  apply list_lookup_insert_eq. by eapply lookup_lt_Some.
Qed.

Lemma pushed_others a x σ a' : a' <> a -> arr (pushed a x σ) a' = arr σ a'.
Proof. intros Hne. unfold arr, pushed. simpl. by rewrite list_lookup_insert_ne. Qed.

Lemma pushed_this a x σ :
  is_Some (arrays σ !! a) -> arr (pushed a x σ) a = arr σ a ++ [x].
Proof.
  intros [xs Hxs]. unfold arr at 1, pushed. simpl.
  rewrite list_lookup_insert_eq; [done|]. by eapply lookup_lt_Some.
Qed.

(** C10 (mutator atomicity).  A call of a validating mutator that throws
    leaves the store, and so every field of the container, as it was.  A
    call that returns, returns the container itself, and the store differs
    in one place: [setImage], [setContainerName] and [setExec] have set
    their one field of this container ([effect]), no array and no other
    container has changed; [addPublishPort], [addEnvironment], [addVolume]
    and [addLabel] have appended the trimmed argument to their one list,
    no other array and no field of any container has changed. *)
Theorem mutator_atomicity (m : mutator) (this : cref) (v : value) (σ : store) :
  match call m this v σ with
  | (Throw _, σ') => σ' = σ
  | (Normal r, σ') =>
      r = this /\
      exists c,
        container σ this = Some c /\
        σ' = effect m v this c σ /\
        match target m c with
        | None =>
            arrays σ' = arrays σ /\
            (exists c', container σ' this = Some c') /\
            (forall other, other <> this ->
               container σ' other = container σ other)
        | Some a =>
            containers σ' = containers σ /\
            arr σ' a = arr σ a ++ [PStr (Str.trim (stringOf v))] /\
            (forall a', a' <> a -> arr σ' a' = arr σ a')
        end
  end.
Proof.
  destruct (MutatorFacts.call_cases m this v σ)
    as [[e ->]|(c & Hc & Ha & ->)]; [done|].
  split; [done|]. exists c. split; [done|]. split; [done|].
  destruct m; simpl in *;
    try (split; [done|]; split;
           [eexists; by eapply assigned_this
           |intros other Hne; by apply assigned_others]);
    (split; [done|]; split;
       [by apply pushed_this|intros a' Hne; by apply pushed_others]).
Qed.

End Validation.

(* ===================================================================== *)
(** * Containers built through the mutators *)
(* ===================================================================== *)

Module BuiltFacts.

Import QuadletGenerator Spec.
Import Notions.

(** One allocation of an empty array, after [k] of them. *)
Lemma newArray_step {A} (f : aref -> M A) (l : list (list prim)) cs (k : nat) :
  bind (newArray []) f (mkStore (l ++ replicate k []) cs) =
  f (length l + k)%nat (mkStore (l ++ replicate (S k) []) cs).
Proof.
  unfold bind, newArray. simpl.
  rewrite length_app, length_replicate, <- app_assoc.
  by rewrite <- replicate_cons_app.
Qed.

(** [new Container()] takes the next twenty-five array references and the
    next container reference. *)
Lemma newContainer_spec σ0 :
  newContainer σ0 =
    (Normal (length (containers σ0)),
     mkStore (arrays σ0 ++ replicate 25 [])
             (containers σ0 ++ [freshContainer (length (arrays σ0))])).
Proof.
  destruct σ0 as [l cs]. simpl.
  rewrite <- (app_nil_r l) at 1. change (@nil (list prim)) with (@replicate (list prim) 0 []).
  unfold newContainer.
  do 25 (etrans; [apply newArray_step|]; cbv beta).
  unfold newObject, freshContainer. simpl.
  by rewrite Nat.add_0_r.
Qed.



Lemma lookup_pushed a x σ a' :
  arrays (pushed a x σ) !! a' =
  if decide (a = a') then (fun xs => xs ++ [x]) <$> arrays σ !! a
  else arrays σ !! a'.
Proof.
  unfold pushed, arr. simpl. destruct (decide (a = a')) as [<-|Hne].
  - destruct (arrays σ !! a) as [xs|] eqn:Hxs; simpl.
    + apply list_lookup_insert_eq. by eapply lookup_lt_Some.
    + rewrite list_insert_ge; [done|]. by apply lookup_ge_None.
  - by apply list_lookup_insert_ne.
Qed.





(** ** Re-parsing *)

Lemma includes_char c s :
  Str.includes (String c "") s = Str.any (fun a => Ascii.eqb a c) s.
Proof.
  induction s as [|a s IH]; [done|]. simpl.
  rewrite IH, andb_true_r. by rewrite (Ascii.eqb_sym c a).
Qed.

Lemma split_length_two sep s :
  Str.any (fun a => Ascii.eqb a sep) s = true ->
  (2 <= length (Str.split sep s))%nat.
Proof.
  assert (Hpos : forall s, (1 <= length (Str.split sep s))%nat).
  { clear s. induction s as [|a s IH]; simpl; [lia|].
    destruct (Ascii.eqb a sep); simpl; [lia|].
    destruct (Str.split sep s); simpl in *; lia. }
  induction s as [|a s IH]; [done|]. simpl.
  destruct (Ascii.eqb a sep); simpl.
  - intros _. specialize (Hpos s). lia.
  - intros Hs. specialize (IH Hs).
    destruct (Str.split sep s); simpl in *; lia.
Qed.

(** [Volume.parse] takes an entry with a colon and refuses one without. *)
Lemma Volume_parse_cases v :
  if Str.includes ":" v then exists r, Volume.parse v = Normal r
  else Volume.parse v = Throw (InvalidVolumeFormat v).
Proof.
  unfold Volume.parse. rewrite includes_char.
  destruct (Str.any _ v) eqn:Hany.
  - apply split_length_two in Hany.
    destruct (Nat.ltb_spec (length (Str.split ":" v)) 2); [lia|]. eauto.
  - by rewrite PatternFacts.split_plain.
Qed.

End BuiltFacts.

Module RoundTrip.

Import QuadletGenerator Spec.




End RoundTrip.

(* ===================================================================== *)
(** * Cloning *)
(* ===================================================================== *)

Module CloneFacts.

Import QuadletGenerator Spec.
Import Notions.

(** One copy [[...a]], after the allocations [l2]. *)
Lemma spread_step {A} (f : aref -> M A) (l l2 : list (list prim)) cs a :
  (a < length l)%nat ->
  bind (spread a) f (mkStore (l ++ l2) cs) =
  f (length l + length l2)%nat
    (mkStore (l ++ l2 ++ [arr (mkStore l cs) a]) cs).
Proof.
  intros Ha. apply lookup_lt_is_Some in Ha as [xs Hxs].
  unfold bind, spread, getArray, newArray, bind, arr, aref in *. simpl.
  rewrite (lookup_app_l_Some _ _ _ _ Hxs), Hxs. simpl.
  by rewrite length_app, app_assoc.
Qed.

Lemma getThis_step {A} (f : Container -> M A) σ this c :
  container σ this = Some c -> bind (getThis this) f σ = f c σ.
Proof. intros Hc. unfold bind, getThis. by rewrite Hc. Qed.

Ltac array_field :=
  lazymatch goal with
  | H : Forall _ arrayFields |- (?f ?c < _)%nat =>
      apply (proj1 (List.Forall_forall _ _) H f); unfold arrayFields;
      repeat first [ left; reflexivity | right ]
  end.

(** What [clone] does: it takes the next fifty array references, the
    first twenty-five for the arrays of [new Container()], which are
    dropped, the others for the copies, and the next container
    reference. *)
Lemma clone_spec σ this c :
  container σ this = Some c ->
  Forall (fun f => (f c < length (arrays σ))%nat) arrayFields ->
  clone this σ =
    (Normal (length (containers σ)),
     mkStore (arrays σ ++ replicate 25 [] ++
                map (fun f => arr σ (f c)) arrayFields)
             (containers σ ++
                [clonedContainer (length (arrays σ) + 25)%nat c])).
Proof.
  intros Hc Hfields. unfold clone.
  unfold bind at 1. rewrite BuiltFacts.newContainer_spec.
  destruct σ as [l cs]. simpl in *.
  rewrite (getThis_step _ _ this c)
    by (unfold container; simpl; by apply lookup_app_l_Some).
  do 25 (etrans; [apply spread_step; array_field|]; cbv beta).
  unfold bind, update, getThis, bind, container, ret. simpl.
  rewrite list_lookup_middle by done. simpl.
  f_equal. unfold arr. simpl. f_equal.
  rewrite <- (Nat.add_0_r (length cs)), insert_app_r. simpl.
  unfold clonedContainer. rewrite <- !Nat.add_assoc. simpl.
  done.
Qed.

(** ** What the section reads *)

Lemma toStr_ext σ σ' v :
  (forall a, v = VArr a -> arr σ' a = arr σ a) -> toStr σ' v = toStr σ v.
Proof. intros H. destruct v as [p|a|o]; try done. simpl. by rewrite (H a). Qed.

Lemma scalarRow_ext σ σ' key v :
  (forall a, v = VArr a -> arr σ' a = arr σ a) ->
  scalarRow σ' key v = scalarRow σ key v.
Proof. intros H. unfold scalarRow. by rewrite (toStr_ext σ σ' v H). Qed.

Lemma unmaskRow_ext σ σ' v :
  (forall a, v = VArr a -> arr σ' a = arr σ a) ->
  unmaskRow σ' v = unmaskRow σ v.
Proof.
  intros H. unfold unmaskRow. destruct v as [p|a|o]; try done.
  by rewrite (H a).
Qed.

(** The rows of the table depend on the store only through the arrays of
    the list fields and the arrays that the other fields refer to. *)
Lemma fieldTable_ext σ σ' c c' :
  image c' = image c -> values c' = values c -> flags c' = flags c ->
  Forall (fun f => arr σ' (f c') = arr σ (f c)) arrayFields ->
  Forall (fun v => forall a, v = VArr a -> arr σ' a = arr σ a) (values c) ->
  fieldTable σ' c' = fieldTable σ c.
Proof.
  intros Himage Hvalues Hflags Harrays Hrefs.
  unfold values in Hvalues. unfold flags in Hflags.
  unfold arrayFields in Harrays. unfold values in Hrefs.
  simplify_eq.
  repeat match goal with
         | H : Forall _ (_ :: _) |- _ => apply Forall_cons in H as [? H]
         end.
  unfold fieldTable.
  repeat match goal with
         | H : ?x = ?y |- _ => rewrite H; clear H
         end.
  repeat match goal with
         | H : forall a, ?v = VArr a -> _ |- _ =>
             rewrite ?(scalarRow_ext σ σ' _ v H), ?(unmaskRow_ext σ σ' v H);
             clear H
         end.
  reflexivity.
Qed.

Lemma section_ext σ σ' c c' :
  image c' = image c -> values c' = values c -> flags c' = flags c ->
  Forall (fun f => arr σ' (f c') = arr σ (f c)) arrayFields ->
  Forall (fun v => forall a, v = VArr a -> arr σ' a = arr σ a) (values c) ->
  generateContainerSection σ' c' = generateContainerSection σ c.
Proof.
  intros. rewrite !OutputFacts.generateContainerSection_text,
    !OutputFacts.emitted_sectionLines.
  unfold sectionLines. by rewrite (fieldTable_ext σ σ' c c').
Qed.

(** A store that agrees with [σ] on the first [n] arrays gives the same
    text for a container whose references are among them. *)
Lemma section_frame σ σ' n c :
  wellFormed n c ->
  (forall a, (a < n)%nat -> arr σ' a = arr σ a) ->
  generateContainerSection σ' c = generateContainerSection σ c.
Proof.
  intros [Hfields Hvalues] Hagree. apply section_ext; try done.
  - eapply List.Forall_impl; [|apply Hfields]. intros f Hf. by apply Hagree.
  - eapply List.Forall_impl; [|apply Hvalues].
    intros v Hv a ->. by apply Hagree.
Qed.

Lemma arr_app_l l l2 cs cs' a :
  (a < length l)%nat -> arr (mkStore (l ++ l2) cs') a = arr (mkStore l cs) a.
Proof. intros Ha. unfold arr. simpl. by rewrite lookup_app_l. Qed.

Lemma arr_app_r l l2 cs i :
  arr (mkStore (l ++ l2) cs) (length l + i)%nat = default [] (l2 !! i).
Proof.
  unfold arr. simpl. rewrite lookup_app_r by lia.
  by replace (length l + i - length l)%nat with i by lia.
Qed.

End CloneFacts.

Module Clone.

Import QuadletGenerator Spec.
Import Notions.

(** The part of C3 that holds for every container whose references are
    allocated: [clone] returns a new container whose list fields are new
    arrays, the original keeps its fields and its arrays, and both
    serialize to the same text. *)
Lemma clone_same_text (σ : store) (this : cref) (c : Container) :
  container σ this = Some c ->
  wellFormed (length (arrays σ)) c ->
  exists σ' c',
    clone this σ = (Normal (length (containers σ)), σ') /\
    container σ' (length (containers σ)) = Some c' /\
    container σ' this = Some c /\
    (forall a, (a < length (arrays σ))%nat -> arr σ' a = arr σ a) /\
    Forall (fun f => (length (arrays σ) <= f c' < length (arrays σ'))%nat)
           arrayFields /\
    generateContainerSection σ' c' = generateContainerSection σ c.
Proof.
  intros Hc [Hfields Hvalues].
  rewrite (CloneFacts.clone_spec σ this c Hc Hfields).
  eexists. exists (clonedContainer (length (arrays σ) + 25)%nat c).
  split; [reflexivity|].
  destruct σ as [l cs]. unfold container in *. simpl in *.
  split; [by apply list_lookup_middle|].
  split; [by apply lookup_app_l_Some|].
  split; [intros a Ha; by apply CloneFacts.arr_app_l|].
  split.
  { unfold arrayFields. rewrite length_app. simpl.
    repeat (constructor; [simpl; lia|]). constructor. }
  apply CloneFacts.section_ext; try done.
  - unfold arrayFields.
    repeat (constructor;
      [cbn [clonedContainer addCapability dropCapability addDevice mount
            volume network networkAlias publishPort exposeHostPort dns
            dnsOption dnsSearch environment environmentFile mask groupAdd
            uidMap gidMap tmpfs label logOpt annotation ulimit sysctl secret];
       rewrite <- Nat.add_assoc, CloneFacts.arr_app_r; reflexivity|]).
    constructor.
  - eapply List.Forall_impl; [|apply Hvalues].
    intros v Hv a ->. by apply CloneFacts.arr_app_l.
Qed.

(** After [clone], pushing onto a list field of the clone, or assigning to
    a field of the clone, leaves the original with its fields, its arrays
    and its text. *)
Lemma clone_lists_independent (σ σ' : store) (this : cref) (c c' : Container) :
  container σ this = Some c ->
  wellFormed (length (arrays σ)) c ->
  clone this σ = (Normal (length (containers σ)), σ') ->
  container σ' (length (containers σ)) = Some c' ->
  (forall f x, In f arrayFields ->
     exists σ'',
       push (f c') x σ' = (Normal tt, σ'') /\
       container σ'' this = Some c /\
       (forall a, (a < length (arrays σ))%nat -> arr σ'' a = arr σ a) /\
       generateContainerSection σ'' c = generateContainerSection σ c) /\
  (forall g,
     exists σ'',
       update (length (containers σ)) g σ' = (Normal tt, σ'') /\
       container σ'' this = Some c /\
       (forall a, (a < length (arrays σ))%nat -> arr σ'' a = arr σ a) /\
       generateContainerSection σ'' c = generateContainerSection σ c).
Proof.
  intros Hc Hwf Hclone Hc'.
  destruct (clone_same_text σ this c Hc Hwf)
    as (σ1 & c1 & Hclone1 & Hc1 & Hthis & Hagree & Hfresh & _).
  assert (σ1 = σ') as -> by congruence.
  assert (c1 = c') as -> by congruence.
  assert (Hne : this <> length (containers σ)).
  { intros ->. unfold container in Hc. apply lookup_lt_Some in Hc. lia. }
  split.
  - intros f x Hf.
    apply (proj1 (List.Forall_forall _ _) Hfresh) in Hf as [Hlow Hhigh].
    apply lookup_lt_is_Some in Hhigh as [xs Hxs].
    exists (pushed (f c') x σ').
    assert (Hagree' : forall a, (a < length (arrays σ))%nat ->
                        arr (pushed (f c') x σ') a = arr σ a).
    { intros a Ha. rewrite Validation.pushed_others by lia. by apply Hagree. }
    split.
    { unfold push, bind, getArray, setArray, pushed, arr, aref in *.
      by rewrite Hxs. }
    split; [done|]. split; [done|].
    by apply (CloneFacts.section_frame σ _ (length (arrays σ))).
  - intros g. exists (assigned (length (containers σ)) (g c') σ').
    split.
    { unfold update, bind, getThis. by rewrite Hc'. }
    split; [by rewrite Validation.assigned_others|].
    split; [done|].
    by apply (CloneFacts.section_frame σ _ (length (arrays σ))).
Qed.

(** C3 (cloning), where the source departs from it.  The container of
    [Examples.unmaskExample] holds a list of paths in [unmask], a field
    that [clone] copies by plain assignment although the serializer
    expects a list there: the clone and the original refer to the same
    array.  Pushing a path onto the list of the clone changes what the
    original holds and what it serializes to, while the fields of the
    original were not assigned. *)
Theorem clone_shares_unmask :
  exists σ σ' c c',
    Examples.unmaskExample Examples.emptyStore = (Normal (0%nat, 1%nat), σ) /\
    container σ 0%nat = Some c /\
    container σ 1%nat = Some c' /\
    generateContainerSection σ c' = generateContainerSection σ c /\
    unmask c' = unmask c /\
    isArray (unmask c) = true /\
    linesOf "Unmask" (emitted σ c) = ["Unmask=/proc/kcore" +:+ LF] /\
    Examples.pushUnmask 1%nat "/sys/firmware" σ = (Normal tt, σ') /\
    container σ' 0%nat = Some c /\
    arr σ' (arrayOf (unmask c)) = [PStr "/proc/kcore"; PStr "/sys/firmware"] /\
    linesOf "Unmask" (emitted σ' c) =
      ["Unmask=/proc/kcore:/sys/firmware" +:+ LF] /\
    generateContainerSection σ' c <> generateContainerSection σ c.
Proof.
  eexists. eexists. eexists. eexists.
  split; [vm_compute; reflexivity|].
  split; [vm_compute; reflexivity|].
  split; [vm_compute; reflexivity|].
  split; [vm_compute; reflexivity|].
  split; [vm_compute; reflexivity|].
  split; [vm_compute; reflexivity|].
  split; [vm_compute; reflexivity|].
  split; [vm_compute; reflexivity|].
  split; [vm_compute; reflexivity|].
  split; [vm_compute; reflexivity|].
  split; [vm_compute; reflexivity|].
  vm_compute. discriminate.
Qed.

End Clone.

(* ===================================================================== *)
(** * Splitting, joining and trimming *)
(* ===================================================================== *)

Module SplitFacts.

#[local] Arguments Ascii.eqb : simpl never.

Import MoreNotions.

Lemma split_nonempty sep s : Str.split sep s <> [].
Proof.
  destruct s as [|a s]; [done|]. simpl.
  destruct (Ascii.eqb a sep); [done|]. by destruct (Str.split sep s).
Qed.

Lemma join_cons sep x xs :
  xs <> [] -> Str.join sep (x :: xs) = x +:+ sep +:+ Str.join sep xs.
Proof. by destruct xs. Qed.

(** Joining the parts of a string gives the string back. *)
Lemma join_split sep s : Str.join (String sep "") (Str.split sep s) = s.
Proof.
  induction s as [|a s IH]; [done|]. simpl.
  destruct (Ascii.eqb_spec a sep) as [->|Hne].
  - rewrite join_cons by apply split_nonempty. by rewrite IH.
  - pose proof (split_nonempty sep s) as Hs.
    destruct (Str.split sep s) as [|x xs]; [done|].
    destruct xs as [|y ys]; simpl in *; by rewrite <- IH.
Qed.

(** The parts of a string hold no separator. *)
Lemma split_parts sep s : Forall (without sep) (Str.split sep s).
Proof.
  induction s as [|a s IH]; simpl; [by constructor|].
  destruct (Ascii.eqb a sep) eqn:Ha; [by constructor|].
  pose proof (split_nonempty sep s) as Hne.
  destruct (Str.split sep s) as [|x xs]; [done|].
  apply Forall_cons in IH as [Hx Hxs].
  constructor; [|done]. unfold without in *. simpl. by rewrite Ha, Hx.
Qed.

(** Splitting the join of parts that hold no separator gives the parts
    back. *)
Lemma split_join sep xs :
  xs <> [] -> Forall (without sep) xs ->
  Str.split sep (Str.join (String sep "") xs) = xs.
Proof.
  induction xs as [|x xs IH]; [done|]. intros _ Hall.
  apply Forall_cons in Hall as [Hx Hxs].
  destruct xs as [|y ys].
  - simpl. by apply PatternFacts.split_plain.
  - rewrite join_cons by done.
    change (String sep "" +:+ ?t) with (String sep t).
    rewrite PatternFacts.split_app by done. by rewrite IH.
Qed.

Lemma any_join p sep xs :
  Str.any p sep = false -> Forall (fun x => Str.any p x = false) xs ->
  Str.any p (Str.join sep xs) = false.
Proof.
  intros Hsep. induction 1 as [|x xs Hx Hxs IH]; [done|].
  destruct xs as [|y ys]; [done|].
  rewrite join_cons by done. by rewrite !StrFacts.any_app, Hx, Hsep, IH.
Qed.

Lemma includes_without c s :
  Str.includes (String c "") s = false <-> without c s.
Proof. unfold without. by rewrite BuiltFacts.includes_char. Qed.

Lemma without_app c s t : without c (s +:+ t) <-> without c s /\ without c t.
Proof. unfold without. by rewrite StrFacts.any_app, orb_false_iff. Qed.

(** A string that holds [c] is cut at its first [c]. *)
Lemma first_cut c s :
  Str.any (fun a => Ascii.eqb a c) s = true ->
  exists k v, s = k +:+ String c v /\ without c k.
Proof.
  induction s as [|a s IH]; [done|]. simpl.
  destruct (Ascii.eqb_spec a c) as [->|Hne]; simpl.
  - intros _. by exists "", s.
  - intros (k & v & -> & Hk)%IH. exists (String a k), v. split; [done|].
    unfold without in *. simpl. rewrite Hk. by apply Ascii.eqb_neq in Hne as ->.
Qed.

(** ** [indexOf] and [substring] *)

Lemma indexOf_without c s : without c s -> Str.indexOf c s = -1.
Proof.
  unfold without. induction s as [|a s IH]; [done|]. simpl.
  intros [-> Hs]%orb_false_iff. by rewrite (IH Hs).
Qed.

Lemma indexOf_cut c k v :
  without c k -> Str.indexOf c (k +:+ String c v) = Z.of_nat (String.length k).
Proof.
  unfold without. induction k as [|a k IH]; simpl.
  - intros _. by rewrite Ascii.eqb_refl.
  - intros [-> Hk]%orb_false_iff. rewrite (IH Hk).
    destruct (Z.ltb_spec (Z.of_nat (String.length k)) 0); lia.
Qed.

Lemma take_app k v : Str.take (String.length k) (k +:+ v) = k.
Proof. induction k as [|a k IH]; simpl; [by destruct v|by rewrite IH]. Qed.

Lemma drop_cut k c v : Str.drop (S (String.length k)) (k +:+ String c v) = v.
Proof. induction k as [|a k IH]; [done|exact IH]. Qed.

Lemma substring_cut k c v :
  Str.substring (k +:+ String c v) 0 (Z.of_nat (String.length k)) = k.
Proof.
  unfold Str.substring. rewrite Nat2Z.id. change (Z.to_nat 0) with 0%nat.
  rewrite Nat.max_0_l, Nat.min_0_l, Nat.sub_0_r. simpl Str.drop.
  destruct (k +:+ String c v) eqn:E.
  - by destruct k.
  - rewrite <- E. apply take_app.
Qed.

Lemma substringFrom_cut k c v :
  Str.substringFrom (k +:+ String c v) (Z.of_nat (String.length k) + 1) = v.
Proof.
  unfold Str.substringFrom.
  replace (Z.to_nat (Z.of_nat (String.length k) + 1)) with (S (String.length k))
    by lia.
  apply drop_cut.
Qed.

(** ** Trimming keeps what is not white space *)

Lemma any_trimStart p s :
  (forall a, p a = true -> Str.isWhiteSpace a = false) ->
  Str.any p (Str.trimStart s) = Str.any p s.
Proof.
  intros Hp. induction s as [|a s IH]; [done|]. simpl.
  destruct (Str.isWhiteSpace a) eqn:Ha; [|done].
  rewrite IH. destruct (p a) eqn:Hpa; [|done].
  apply Hp in Hpa. congruence.
Qed.

Lemma any_trimEnd p s :
  (forall a, p a = true -> Str.isWhiteSpace a = false) ->
  Str.any p (Str.trimEnd s) = Str.any p s.
Proof.
  intros Hp. induction s as [|a s IH]; [done|]. simpl.
  rewrite <- IH. destruct (Str.trimEnd s) as [|b t]; [|done].
  destruct (Str.isWhiteSpace a) eqn:Ha; simpl; [|done].
  destruct (p a) eqn:Hpa; [|done].
  apply Hp in Hpa. congruence.
Qed.

Lemma any_trim p s :
  (forall a, p a = true -> Str.isWhiteSpace a = false) ->
  Str.any p (Str.trim s) = Str.any p s.
Proof.
  intros Hp. unfold Str.trim. by rewrite any_trimEnd, any_trimStart.
Qed.

(** A string with a character that is no white space does not trim to the
    empty string. *)
Lemma trim_not_empty p s :
  (forall a, p a = true -> Str.isWhiteSpace a = false) ->
  Str.any p s = true -> Str.trim s <> "".
Proof.
  intros Hp Hs Hempty. rewrite <- (any_trim p s Hp), Hempty in Hs. done.
Qed.

Lemma eqb_not_ws c a :
  Str.isWhiteSpace c = false -> Ascii.eqb a c = true -> Str.isWhiteSpace a = false.
Proof. by intros Hc ->%Ascii.eqb_eq. Qed.

End SplitFacts.

(* ===================================================================== *)
(** * The value classes: reading back what was written *)
(* ===================================================================== *)

Module TypeFacts.

Import MoreNotions.

#[local] Arguments Ascii.eqb : simpl never.

Lemma includes_true c s :
  Str.includes (String c "") s = true <->
  Str.any (fun a => Ascii.eqb a c) s = true.
Proof. by rewrite BuiltFacts.includes_char. Qed.

Lemma any_cut c k v : Str.any (fun a => Ascii.eqb a c) (k +:+ String c v) = true.
Proof.
  rewrite StrFacts.any_app. simpl. rewrite Ascii.eqb_refl.
  by rewrite orb_true_r.
Qed.

(** The parts of a string, when there are one, two or three of them. *)
Lemma split_one sep s a :
  Str.split sep s = [a] -> s = a /\ without sep a.
Proof.
  intros H. pose proof (SplitFacts.join_split sep s) as Hs.
  pose proof (SplitFacts.split_parts sep s) as Hp.
  rewrite H in Hs, Hp. simpl in Hs. apply Forall_cons in Hp as [Ha _]. done.
Qed.

Lemma split_cons sep s a b rest :
  Str.split sep s = a :: b :: rest ->
  s = a +:+ String sep (Str.join (String sep "") (b :: rest)) /\ without sep a.
Proof.
  intros H. pose proof (SplitFacts.join_split sep s) as Hs.
  pose proof (SplitFacts.split_parts sep s) as Hp.
  rewrite H in Hs, Hp. rewrite SplitFacts.join_cons in Hs by done.
  apply Forall_cons in Hp as [Ha _]. done.
Qed.

(** Splitting [s ++ sep ++ x] gives the parts of [s] and then [x]. *)
Lemma split_snoc sep s x :
  without sep x -> Str.split sep (s +:+ String sep x) = Str.split sep s ++ [x].
Proof.
  intros Hx. induction s as [|a s IH]; simpl.
  - rewrite Ascii.eqb_refl. by rewrite PatternFacts.split_plain.
  - destruct (Ascii.eqb a sep); [by rewrite IH|].
    rewrite IH. pose proof (SplitFacts.split_nonempty sep s) as Hne.
    by destruct (Str.split sep s).
Qed.

Lemma part_last (l : list string) x : part (length (l ++ [x]) - 1) (l ++ [x]) = x.
Proof.
  unfold part. rewrite length_app. simpl.
  replace (length l + 1 - 1)%nat with (length l) by lia.
  by rewrite app_nth2, Nat.sub_diag by lia.
Qed.

(** The parts of a string hold only characters of the string. *)
Lemma split_any p sep s :
  Str.any p s = false -> Forall (fun x => Str.any p x = false) (Str.split sep s).
Proof.
  induction s as [|a s IH]; simpl; [by repeat constructor|].
  intros [Ha Hs]%orb_false_iff. specialize (IH Hs).
  destruct (Ascii.eqb a sep); [by constructor|].
  destruct (Str.split sep s) as [|x xs]; [by repeat constructor; simpl; rewrite Ha|].
  apply Forall_cons in IH as [Hx Hxs].
  constructor; [|done]. simpl. by rewrite Ha, Hx.
Qed.

Lemma part_Forall (P : string -> Prop) i l : P "" -> Forall P l -> P (part i l).
Proof.
  intros Hd Hl. unfold part. revert i.
  induction Hl as [|x l Hx _ IH]; intros [|i]; simpl; auto.
Qed.

End TypeFacts.

Module VolumeFacts.

Import MoreNotions.

#[local] Arguments Ascii.eqb : simpl never.

(** [Volume.parse] then [Volume.toString].  A string with a colon is
    taken, and written back it is its first three colon-separated parts:
    a string of two or three parts comes back as it was, and what follows
    a third colon is dropped.  A string without a colon is refused with
    [Invalid volume format]. *)
Theorem Volume_toString_parse (s : string) :
  match Volume.parse s with
  | Normal v =>
      Str.includes ":" s = true /\
      Volume.toString v = Str.join ":" (take 3 (Str.split ":" s)) /\
      ((length (Str.split ":" s) <= 3)%nat -> Volume.toString v = s)
  | Throw e => Str.includes ":" s = false /\ e = InvalidVolumeFormat s
  end.
Proof.
  unfold Volume.parse.
  pose proof (SplitFacts.split_nonempty ":" s) as Hne.
  destruct (Str.split ":" s) as [|a [|b [|c rest]]] eqn:Hparts; [done| | |].
  - apply TypeFacts.split_one in Hparts as [-> Ha]. simpl.
    split; [by apply SplitFacts.includes_without|done].
  - apply TypeFacts.split_cons in Hparts as [-> Ha]. simpl.
    split; [apply TypeFacts.includes_true, TypeFacts.any_cut|]. done.
  - pose proof (TypeFacts.split_cons _ _ _ _ _ Hparts) as [Hs Ha].
    cbn [length Nat.ltb Nat.leb part nth].
    split; [rewrite Hs; apply TypeFacts.includes_true, TypeFacts.any_cut|].
    assert (Hstr : Volume.toString
                     {| Volume.source := a; Volume.destination := b;
                        Volume.options := Str.split "," c |} =
                   Str.join ":" [a; b; c]).
    { unfold Volume.toString. cbn [Volume.source Volume.destination Volume.options].
      pose proof (SplitFacts.split_nonempty "," c) as Hopts.
      destruct (Str.split "," c) as [|o os] eqn:Ho; [done|].
      cbn [length Nat.ltb Nat.leb]. rewrite <- Ho, SplitFacts.join_split.
      simpl. by rewrite !StrFacts.app_assoc. }
    split; [exact Hstr|].
    intros Hlen. destruct rest; [|simpl in Hlen; lia].
    by rewrite Hstr, Hs.
Qed.

(** [Volume.toString] then [Volume.parse]: a volume whose source and
    destination hold no colon, and whose options hold neither a colon nor
    a comma, is read back as it was. *)
Theorem Volume_parse_toString (v : Volume.t) :
  Str.includes ":" (Volume.source v) = false ->
  Str.includes ":" (Volume.destination v) = false ->
  Forall (fun o => Str.includes ":" o = false /\ Str.includes "," o = false)
         (Volume.options v) ->
  Volume.parse (Volume.toString v) = Normal v.
Proof.
  destruct v as [src dst opts]. simpl.
  intros Hsrc%SplitFacts.includes_without Hdst%SplitFacts.includes_without Hopts.
  unfold Volume.toString. cbn [Volume.source Volume.destination Volume.options].
  destruct opts as [|o os].
  - change (0 <? length [])%nat with false. cbv iota.
    unfold Volume.parse. change (":" +:+ dst) with (String ":" dst).
    rewrite PatternFacts.split_app, PatternFacts.split_plain by done.
    done.
  - change (0 <? length (o :: os))%nat with true. cbv iota.
    unfold Volume.parse.
    assert (Hjoin : without ":" (Str.join "," (o :: os))).
    { apply SplitFacts.any_join; [done|].
      eapply List.Forall_impl; [|apply Hopts].
      intros x [Hx _]. by apply SplitFacts.includes_without. }
    rewrite StrFacts.app_assoc.
    change ((":" +:+ dst) +:+ ":" +:+ ?t) with (String ":" (dst +:+ String ":" t)).
    rewrite PatternFacts.split_app by done.
    rewrite PatternFacts.split_app by done.
    rewrite PatternFacts.split_plain by done.
    cbn [length Nat.ltb Nat.leb part nth].
    rewrite SplitFacts.split_join; [done|done|].
    eapply List.Forall_impl; [|apply Hopts].
    intros x [_ Hx]. by apply SplitFacts.includes_without.
Qed.

(** The volume [db:/var/lib/db] with the options [ro] and [z]. *)
Lemma Volume_parse_toString_witness :
  Volume.parse (Volume.toString (Volume.new "db" "/var/lib/db" ["ro"; "z"])) =
  Normal (Volume.new "db" "/var/lib/db" ["ro"; "z"]).
Proof.
  apply Volume_parse_toString; simpl; [reflexivity|reflexivity|].
  repeat constructor.
Defined.

End VolumeFacts.

Module PortMappingFacts.

Import Spec MoreNotions.

#[local] Arguments Ascii.eqb : simpl never.

(** What [PortMapping.parse] reads when the string holds no slash, and
    when it is a part without a slash, a slash and a protocol without
    one. *)
Lemma parse_plain body :
  without "/" body ->
  PortMapping.parse body =
    if Str.includes ":" body
    then PortMapping.new (part 0 (Str.split ":" body))
                         (part 1 (Str.split ":" body)) "tcp"
    else PortMapping.new body body "tcp".
Proof.
  intros Hbody. unfold PortMapping.parse.
  by rewrite (proj2 (SplitFacts.includes_without "/" body) Hbody).
Qed.

Lemma parse_protocol body proto :
  without "/" body -> without "/" proto ->
  PortMapping.parse (body +:+ String "/" proto) =
    if Str.includes ":" body
    then PortMapping.new (part 0 (Str.split ":" body))
                         (part 1 (Str.split ":" body)) proto
    else PortMapping.new body body proto.
Proof.
  intros Hbody Hproto. unfold PortMapping.parse.
  rewrite (proj2 (TypeFacts.includes_true "/" _) (TypeFacts.any_cut "/" body proto)).
  by rewrite PatternFacts.split_app, PatternFacts.split_plain by done.
Qed.

Lemma includes_pair h c : Str.includes ":" (h +:+ String ":" c) = true.
Proof. apply TypeFacts.includes_true, TypeFacts.any_cut. Qed.

Lemma split_pair h c :
  without ":" h -> without ":" c -> Str.split ":" (h +:+ String ":" c) = [h; c].
Proof.
  intros Hh Hc. by rewrite PatternFacts.split_app, PatternFacts.split_plain.
Qed.

(** [PortMapping.toString] then [PortMapping.parse]: a mapping whose
    ports hold neither a colon nor a slash, and whose protocol holds no
    slash, is read back as it was. *)
Theorem PortMapping_parse_toString (p : PortMapping.t) :
  Str.includes ":" (PortMapping.hostPort p) = false ->
  Str.includes "/" (PortMapping.hostPort p) = false ->
  Str.includes ":" (PortMapping.containerPort p) = false ->
  Str.includes "/" (PortMapping.containerPort p) = false ->
  Str.includes "/" (PortMapping.protocol p) = false ->
  PortMapping.parse (PortMapping.toString p) = p.
Proof.
  destruct p as [h c pr]. cbn [PortMapping.hostPort PortMapping.containerPort
                               PortMapping.protocol].
  intros Hh1 Hh2%SplitFacts.includes_without Hc1 Hc2%SplitFacts.includes_without
         Hpr%SplitFacts.includes_without.
  unfold PortMapping.toString.
  cbn [PortMapping.hostPort PortMapping.containerPort PortMapping.protocol].
  destruct (String.eqb_spec h c) as [<-|Hne];
    destruct (String.eqb_spec pr "tcp") as [->|Hpr'].
  - rewrite parse_plain by done. by rewrite Hh1.
  - change ("/" +:+ pr) with (String "/" pr).
    rewrite parse_protocol by done. by rewrite Hh1.
  - change (":" +:+ c) with (String ":" c).
    rewrite parse_plain by (apply SplitFacts.without_app; split; [done|];
                            unfold without; simpl; by rewrite Hc2).
    rewrite includes_pair, split_pair; [done| |];
      by apply SplitFacts.includes_without.
  - change (":" +:+ c +:+ "/" +:+ pr) with (String ":" (c +:+ String "/" pr)).
    replace (h +:+ String ":" (c +:+ String "/" pr))
      with ((h +:+ String ":" c) +:+ String "/" pr)
      by (by rewrite StrFacts.app_assoc).
    rewrite parse_protocol; [| |done].
    + rewrite includes_pair, split_pair; [done| |];
        by apply SplitFacts.includes_without.
    + apply SplitFacts.without_app; split; [done|].
      unfold without; simpl; by rewrite Hc2.
Qed.

(** The mapping of host port 8080 to container port 80 over udp. *)
Lemma PortMapping_parse_toString_witness :
  PortMapping.parse (PortMapping.toString (PortMapping.new "8080" "80" "udp")) =
  PortMapping.new "8080" "80" "udp".
Proof. apply PortMapping_parse_toString; reflexivity. Defined.

(** The protocol that [PortMapping.parse] reads off a suffix. *)
Lemma toString_body h c suffix :
  In suffix protocolSuffixes ->
  without "/" h -> without "/" c -> without ":" h -> without ":" c ->
  PortMapping.toString (PortMapping.parse (c +:+ suffix)) = c +:+ elided suffix /\
  PortMapping.toString (PortMapping.parse ((h +:+ String ":" c) +:+ suffix)) =
    (if String.eqb h c then c else h +:+ String ":" c) +:+ elided suffix.
Proof.
  intros Hsuffix Hh Hc Hh' Hc'.
  assert (Hhc : without "/" (h +:+ String ":" c)).
  { apply SplitFacts.without_app; split; [done|].
    unfold without in *. simpl. by rewrite Hc. }
  assert (Hc1 : Str.includes ":" c = false)
    by by apply SplitFacts.includes_without.
  assert (Hstr : forall pr,
            PortMapping.toString (PortMapping.new c c pr) =
            if String.eqb pr "tcp" then c else c +:+ "/" +:+ pr).
  { intros pr. unfold PortMapping.toString. simpl. by rewrite String.eqb_refl. }
  assert (Hstr2 : forall pr,
            PortMapping.toString (PortMapping.new h c pr) =
            (if String.eqb h c then c else h +:+ String ":" c) +:+
            (if String.eqb pr "tcp" then "" else "/" +:+ pr)).
  { intros pr. unfold PortMapping.toString. simpl.
    destruct (String.eqb_spec h c) as [->|_];
      destruct (String.eqb pr "tcp"); rewrite ?StrFacts.app_empty_r;
      try done; by rewrite StrFacts.app_assoc. }
  unfold protocolSuffixes in Hsuffix. simpl in Hsuffix.
  destruct Hsuffix as [<-|[<-|[<-|[<-|[]]]]].
  - change (elided "") with "".
    rewrite !StrFacts.app_empty_r, !parse_plain by done.
    rewrite Hc1, includes_pair, split_pair by done.
    unfold part. cbn [nth]. rewrite Hstr, Hstr2. simpl.
    by rewrite !StrFacts.app_empty_r.
  - change (elided "/tcp") with "". change "/tcp" with (String "/" "tcp").
    rewrite !parse_protocol by done.
    rewrite Hc1, includes_pair, split_pair by done.
    unfold part. cbn [nth]. rewrite Hstr, Hstr2. simpl.
    by rewrite !StrFacts.app_empty_r.
  - change (elided "/udp") with "/udp". change "/udp" with (String "/" "udp").
    rewrite !parse_protocol by done.
    rewrite Hc1, includes_pair, split_pair by done.
    unfold part. cbn [nth]. rewrite Hstr, Hstr2. done.
  - change (elided "/sctp") with "/sctp". change "/sctp" with (String "/" "sctp").
    rewrite !parse_protocol by done.
    rewrite Hc1, includes_pair, split_pair by done.
    unfold part. cbn [nth]. rewrite Hstr, Hstr2. done.
Qed.

(** [PortMapping.parse] then [PortMapping.toString] on a port of the
    shape that [addPublishPort] accepts: the suffix [/tcp] is left out,
    another protocol is kept, and a host port equal to the container port
    is left out as well, so that [80:80] is written back as [80]. *)
Theorem PortMapping_toString_parse (hp cp suffix : string) :
  digits hp -> digits cp -> In suffix protocolSuffixes ->
  PortMapping.toString (PortMapping.parse (cp +:+ suffix)) =
    cp +:+ elided suffix /\
  PortMapping.toString (PortMapping.parse (hp +:+ ":" +:+ cp +:+ suffix)) =
    (if String.eqb hp cp then cp else hp +:+ ":" +:+ cp) +:+ elided suffix.
Proof.
  intros [_ Hhp] [_ Hcp] Hsuffix.
  destruct (toString_body hp cp suffix Hsuffix) as [H1 H2];
    try (by apply PatternFacts.digits_no_colon).
  - apply (PatternFacts.all_none Str.isDigit); [|done].
    intros a Ha. rewrite Ascii.eqb_sym. by apply PatternFacts.isDigit_not_slash.
  - apply (PatternFacts.all_none Str.isDigit); [|done].
    intros a Ha. rewrite Ascii.eqb_sym. by apply PatternFacts.isDigit_not_slash.
  - split; [done|].
    replace (hp +:+ ":" +:+ cp +:+ suffix)
      with ((hp +:+ String ":" cp) +:+ suffix)
      by (by rewrite !StrFacts.app_assoc).
    exact H2.
Qed.

(** The ports [80:80/tcp] and [80/tcp] are both written back as [80], the
    port [8080:80/udp] as it is. *)
Lemma PortMapping_toString_parse_witness :
  (PortMapping.toString (PortMapping.parse "80/tcp") = "80" /\
   PortMapping.toString (PortMapping.parse "80:80/tcp") = "80") /\
  PortMapping.toString (PortMapping.parse "8080:80/udp") = "8080:80/udp".
Proof.
  split.
  - apply (PortMapping_toString_parse "80" "80" "/tcp");
      [split; [discriminate|reflexivity]..|right; left; reflexivity].
  - apply (PortMapping_toString_parse "8080" "80" "/udp");
      [split; [discriminate|reflexivity]..|right; right; left; reflexivity].
Defined.

End PortMappingFacts.

Module KeyValueFacts.

Import MoreNotions.

#[local] Arguments Ascii.eqb : simpl never.

(** What both [Environment.parse] and [Label.parse] compute: the string
    is cut at its first equals sign. *)
Lemma cut_at_equals k v :
  without "=" k ->
  let s := k +:+ String "=" v in
  (Str.indexOf "=" s =? -1) = false /\
  Str.substring s 0 (Str.indexOf "=" s) = k /\
  Str.substringFrom s (Str.indexOf "=" s + 1) = v.
Proof.
  intros Hk s. subst s. rewrite SplitFacts.indexOf_cut by done.
  split; [apply Z.eqb_neq; lia|].
  split; [apply SplitFacts.substring_cut|apply SplitFacts.substringFrom_cut].
Qed.

(** [Environment.parse] cuts at the first equals sign: written back, a
    string with an equals sign is itself, and a string without one gets
    an equals sign at its end; the key that is read never holds an equals
    sign; and an entry is read back from its written form as it was
    exactly when its key holds no equals sign. *)
Theorem Environment_round_trip (s : string) (e : Environment.t) :
  Environment.toString (Environment.parse s) =
    (if Str.includes "=" s then s else s +:+ "=") /\
  Str.includes "=" (Environment.key (Environment.parse s)) = false /\
  (if Str.includes "=" (Environment.key e)
   then Environment.parse (Environment.toString e) <> e
   else Environment.parse (Environment.toString e) = e).
Proof.
  assert (Hparse : forall s,
            Environment.toString (Environment.parse s) =
              (if Str.includes "=" s then s else s +:+ "=") /\
            Str.includes "=" (Environment.key (Environment.parse s)) = false).
  { clear. intros s. unfold Environment.parse, Environment.toString.
    destruct (Str.includes "=" s) eqn:Hs.
    - apply TypeFacts.includes_true, SplitFacts.first_cut in Hs
        as (k & v & -> & Hk).
      destruct (cut_at_equals k v Hk) as (-> & -> & ->). simpl.
      split; [done|]. by apply SplitFacts.includes_without.
    - pose proof Hs as Hs'. apply SplitFacts.includes_without in Hs'.
      rewrite SplitFacts.indexOf_without by done. simpl. done. }
  split; [apply Hparse|]. split; [apply Hparse|].
  destruct (Str.includes "=" (Environment.key e)) eqn:He.
  - intros Heq. destruct (Hparse (Environment.toString e)) as [_ Hkey].
    rewrite Heq in Hkey. congruence.
  - destruct e as [k v]. simpl in He. apply SplitFacts.includes_without in He.
    unfold Environment.toString, Environment.parse. simpl.
    change ("=" +:+ v) with (String "=" v).
    by destruct (cut_at_equals k v He) as (-> & -> & ->).
Qed.

(** [Label.parse] and [Label.toString] behave in the same way: the cut
    is at the first equals sign, a string without one is written back
    with an equals sign at its end, and the key that is read never holds
    an equals sign. *)
Theorem Label_round_trip (s : string) (l : Label.t) :
  Label.toString (Label.parse s) =
    (if Str.includes "=" s then s else s +:+ "=") /\
  Str.includes "=" (Label.key (Label.parse s)) = false /\
  (if Str.includes "=" (Label.key l)
   then Label.parse (Label.toString l) <> l
   else Label.parse (Label.toString l) = l).
Proof.
  assert (Hparse : forall s,
            Label.toString (Label.parse s) =
              (if Str.includes "=" s then s else s +:+ "=") /\
            Str.includes "=" (Label.key (Label.parse s)) = false).
  { clear. intros s. unfold Label.parse, Label.toString.
    destruct (Str.includes "=" s) eqn:Hs.
    - apply TypeFacts.includes_true, SplitFacts.first_cut in Hs
        as (k & v & -> & Hk).
      destruct (cut_at_equals k v Hk) as (-> & -> & ->). simpl.
      split; [done|]. by apply SplitFacts.includes_without.
    - pose proof Hs as Hs'. apply SplitFacts.includes_without in Hs'.
      rewrite SplitFacts.indexOf_without by done. simpl. done. }
  split; [apply Hparse|]. split; [apply Hparse|].
  destruct (Str.includes "=" (Label.key l)) eqn:Hl.
  - intros Heq. destruct (Hparse (Label.toString l)) as [_ Hkey].
    rewrite Heq in Hkey. congruence.
  - destruct l as [k v]. simpl in Hl. apply SplitFacts.includes_without in Hl.
    unfold Label.toString, Label.parse. simpl.
    change ("=" +:+ v) with (String "=" v).
    by destruct (cut_at_equals k v Hl) as (-> & -> & ->).
Qed.

End KeyValueFacts.

Module DeviceFacts.

Import MoreNotions.

#[local] Arguments Ascii.eqb : simpl never.

Lemma truthy_string s : primTruthy (PStr s) = negb (String.eqb s "").
Proof. reflexivity. Qed.

(** What [new Device] keeps of strings, and how it is written. *)
Lemma new_strings h c p :
  Device.new (PStr h) (PStr c) p =
  Device.mk (PStr h) (PStr (if String.eqb c "" then h else c))
            (orDefault p PNull).
Proof.
  unfold Device.new. change (orDefault (PStr c) PNull) with (PStr c).
  rewrite truthy_string. by destruct (String.eqb c "").
Qed.

Lemma toString_strings h c p :
  Device.toString (Device.mk (PStr h) (PStr c) p) =
  writtenDevice h c (match p with
                     | PStr p' => if String.eqb p' "" then None else Some p'
                     | _ => if primTruthy p then Some (primToString p) else None
                     end).
Proof.
  unfold Device.toString, writtenDevice. simpl.
  destruct p as [| |b|n| |p']; simpl.
  - by rewrite StrFacts.app_empty_r.
  - by rewrite StrFacts.app_empty_r.
  - destruct b; simpl; [|by rewrite StrFacts.app_empty_r].
    by rewrite StrFacts.app_assoc.
  - destruct (n =? 0); simpl; [by rewrite StrFacts.app_empty_r|].
    by rewrite StrFacts.app_assoc.
  - by rewrite StrFacts.app_empty_r.
  - destruct (String.eqb p' ""); simpl; [by rewrite StrFacts.app_empty_r|].
    by rewrite StrFacts.app_assoc.
Qed.

(** What [Device.parse] reads off one, two and three parts. *)
Lemma parse_one h :
  without ":" h -> Device.parse h = Device.mk (PStr h) (PStr h) PNull.
Proof.
  intros Hh. unfold Device.parse. rewrite PatternFacts.split_plain by done.
  unfold part. simpl. rewrite new_strings. by destruct (String.eqb h "").
Qed.

Lemma parse_two h c :
  without ":" h -> without ":" c ->
  Device.parse (h +:+ String ":" c) =
  Device.mk (PStr h) (PStr (if String.eqb c "" then h else c)) PNull.
Proof.
  intros Hh Hc. unfold Device.parse.
  rewrite PatternFacts.split_app, PatternFacts.split_plain by done.
  unfold part. simpl. by rewrite new_strings.
Qed.

Lemma parse_more h c p rest :
  without ":" h -> without ":" c ->
  Str.split ":" rest = p :: tl (Str.split ":" rest) ->
  Device.parse (h +:+ String ":" (c +:+ String ":" rest)) =
  Device.mk (PStr h) (PStr (if String.eqb c "" then h else c)) (PStr p).
Proof.
  intros Hh Hc Hrest. unfold Device.parse.
  rewrite !PatternFacts.split_app by done. rewrite Hrest.
  unfold part. simpl. by rewrite new_strings.
Qed.

(** The written form of any device that was read is of one kind. *)
Lemma normal_form s :
  exists h c p,
    without ":" h /\ without ":" c /\ (c = "" -> h = "") /\
    match p with
    | Some p' => without ":" p' /\ p' <> ""
    | None => True
    end /\
    Device.toString (Device.parse s) = writtenDevice h c p.
Proof.
  pose proof (SplitFacts.split_parts ":" s) as Hparts.
  pose proof (SplitFacts.join_split ":" s) as Hs.
  pose proof (SplitFacts.split_nonempty ":" s) as Hne.
  destruct (Str.split ":" s) as [|h [|c [|p rest]]] eqn:E; [done| | |].
  - simpl in Hs. subst s. apply Forall_cons in Hparts as [Hh _].
    exists h, h, None. rewrite parse_one, toString_strings by done. done.
  - simpl in Hs. subst s.
    apply Forall_cons in Hparts as [Hh Hparts].
    apply Forall_cons in Hparts as [Hc _].
    exists h, (if String.eqb c "" then h else c), None.
    change (":" +:+ c) with (String ":" c).
    rewrite parse_two, toString_strings by done.
    destruct (String.eqb_spec c "") as [->|Hc']; done.
  - apply Forall_cons in Hparts as [Hh Hparts].
    apply Forall_cons in Hparts as [Hc Hparts].
    pose proof Hparts as Htail. apply Forall_cons in Hparts as [Hp _].
    assert (Hrest : exists r, s = h +:+ String ":" (c +:+ String ":" r) /\
                              Str.split ":" r = p :: rest).
    { exists (Str.join ":" (p :: rest)). split.
      - rewrite <- Hs. by rewrite !SplitFacts.join_cons by done.
      - by apply SplitFacts.split_join. }
    destruct Hrest as (r & -> & Hr).
    exists h, (if String.eqb c "" then h else c),
      (if String.eqb p "" then None else Some p).
    rewrite (parse_more h c p r), toString_strings by (by rewrite ?Hr).
    destruct (String.eqb_spec c "") as [->|Hc'];
      destruct (String.eqb_spec p "") as [->|Hp']; done.
Qed.

(** A written form is read and written back as it is. *)
Lemma written_stable h c p :
  without ":" h -> without ":" c -> (c = "" -> h = "") ->
  match p with
  | Some p' => without ":" p' /\ p' <> ""
  | None => True
  end ->
  Device.toString (Device.parse (writtenDevice h c p)) = writtenDevice h c p.
Proof.
  intros Hh Hc Hempty Hp. unfold writtenDevice.
  assert (Hc' : (if String.eqb c "" then h else c) = c).
  { destruct (String.eqb_spec c "") as [->|_]; [by rewrite Hempty|done]. }
  destruct p as [p|].
  - destruct Hp as [Hp Hne].
    rewrite (parse_more h c p p), toString_strings, Hc';
      [|done|done|by rewrite PatternFacts.split_plain].
    by apply String.eqb_neq in Hne as ->.
  - rewrite StrFacts.app_empty_r, parse_two, toString_strings, Hc' by done.
    unfold writtenDevice. simpl. by rewrite StrFacts.app_empty_r.
Qed.

(** [Device.parse] then [Device.toString].  A device given as a bare path
    is written back with the path as its container device too; a device
    given as [host:container] or [host:container:permissions] is written
    back as it was; an empty container device is replaced by the host
    device; and whatever the string, the written form is stable: reading
    and writing it again changes nothing. *)
Theorem Device_toString_parse (h c p : string) :
  Str.includes ":" h = false -> Str.includes ":" c = false ->
  Str.includes ":" p = false -> c <> "" -> p <> "" ->
  Device.toString (Device.parse h) = h +:+ ":" +:+ h /\
  Device.toString (Device.parse (h +:+ ":" +:+ c)) = h +:+ ":" +:+ c /\
  Device.toString (Device.parse (h +:+ ":" +:+ c +:+ ":" +:+ p)) =
    h +:+ ":" +:+ c +:+ ":" +:+ p /\
  Device.toString (Device.parse (h +:+ "::" +:+ p)) =
    h +:+ ":" +:+ h +:+ ":" +:+ p /\
  forall s,
    Device.toString (Device.parse (Device.toString (Device.parse s))) =
    Device.toString (Device.parse s).
Proof.
  intros Hh%SplitFacts.includes_without Hc%SplitFacts.includes_without
         Hp%SplitFacts.includes_without Hc' Hp'.
  apply String.eqb_neq in Hc', Hp'.
  assert (Hempty : without ":" "") by done.
  split.
  { rewrite parse_one, toString_strings by done. unfold writtenDevice.
    by rewrite StrFacts.app_empty_r. }
  split.
  { change (":" +:+ c) with (String ":" c).
    rewrite parse_two, toString_strings, Hc' by done. unfold writtenDevice.
    by rewrite StrFacts.app_empty_r. }
  split.
  { change (":" +:+ c +:+ ":" +:+ p) with (String ":" (c +:+ String ":" p)).
    rewrite (parse_more h c p p), toString_strings, Hc', Hp';
      [done|done|done|by rewrite PatternFacts.split_plain]. }
  split.
  { change ("::" +:+ p) with (String ":" ("" +:+ String ":" p)).
    rewrite (parse_more h "" p p), toString_strings, Hp';
      [done|done|done|by rewrite PatternFacts.split_plain]. }
  intros s. destruct (normal_form s) as (h' & c0 & p0 & H1 & H2 & H3 & H4 & ->).
  by apply written_stable.
Qed.

(** The devices [/dev/fuse], [/dev/sda:/dev/xvda] and
    [/dev/sda:/dev/xvda:rwm]. *)
Lemma Device_toString_parse_witness :
  Device.toString (Device.parse "/dev/sda") = "/dev/sda:/dev/sda" /\
  Device.toString (Device.parse "/dev/sda:/dev/xvda") = "/dev/sda:/dev/xvda" /\
  Device.toString (Device.parse "/dev/sda:/dev/xvda:rwm") =
    "/dev/sda:/dev/xvda:rwm" /\
  Device.toString (Device.parse "/dev/sda::rwm") = "/dev/sda:/dev/sda:rwm".
Proof.
  destruct (Device_toString_parse "/dev/sda" "/dev/xvda" "rwm")
    as (H1 & H2 & H3 & H4 & _);
    [reflexivity|reflexivity|reflexivity|discriminate|discriminate|].
  split; [exact H1|]. split; [exact H2|]. split; [exact H3|exact H4].
Defined.

End DeviceFacts.

Module ContainerUtilsFacts.

Import MoreNotions.

#[local] Arguments Ascii.eqb : simpl never.

(** The last part of [repo/x], and the first part of [name:tag]. *)
Lemma last_segment repo x :
  without "/" x ->
  let parts := Str.split "/" (repo +:+ String "/" x) in
  part (length parts - 1) parts = x.
Proof.
  intros Hx. cbv zeta. rewrite TypeFacts.split_snoc by done.
  apply TypeFacts.part_last.
Qed.

Lemma only_segment x :
  without "/" x ->
  let parts := Str.split "/" x in part (length parts - 1) parts = x.
Proof. intros Hx. cbv zeta. by rewrite PatternFacts.split_plain. Qed.

Lemma first_of_tagged name tag :
  without ":" name -> part 0 (Str.split ":" (name +:+ String ":" tag)) = name.
Proof. intros Hname. by rewrite PatternFacts.split_app. Qed.

Lemma first_of_plain name :
  without ":" name -> part 0 (Str.split ":" name) = name.
Proof. intros Hname. by rewrite PatternFacts.split_plain. Qed.

(** [ContainerUtils.imageToName] gives the name of an image: the part
    after the last slash, up to the first colon.  So a registry with a
    port and a tag are both cut off. *)
Theorem imageToName_name (repo name tag : string) :
  Str.includes "/" name = false -> Str.includes ":" name = false ->
  Str.includes "/" tag = false ->
  ContainerUtils.imageToName name = name /\
  ContainerUtils.imageToName (name +:+ ":" +:+ tag) = name /\
  ContainerUtils.imageToName (repo +:+ "/" +:+ name) = name /\
  ContainerUtils.imageToName (repo +:+ "/" +:+ name +:+ ":" +:+ tag) = name.
Proof.
  intros Hname%SplitFacts.includes_without Hname'%SplitFacts.includes_without
         Htag%SplitFacts.includes_without.
  assert (Htagged : without "/" (name +:+ String ":" tag)).
  { apply SplitFacts.without_app. split; [done|]. unfold without in *.
    simpl. by rewrite Htag. }
  unfold ContainerUtils.imageToName.
  change (":" +:+ tag) with (String ":" tag).
  change ("/" +:+ ?t) with (String "/" t).
  rewrite !last_segment, !only_segment by done.
  by rewrite first_of_plain, first_of_tagged.
Qed.

(** The image [registry.example.com:5000/team/app:1.2] is named [app]. *)
Lemma imageToName_name_witness :
  ContainerUtils.imageToName "app" = "app" /\
  ContainerUtils.imageToName "app:1.2" = "app" /\
  ContainerUtils.imageToName "registry.example.com:5000/team/app" = "app" /\
  ContainerUtils.imageToName "registry.example.com:5000/team/app:1.2" = "app".
Proof.
  apply (imageToName_name "registry.example.com:5000/team" "app" "1.2");
    reflexivity.
Defined.

(** The name holds neither a slash nor a colon, whatever the image. *)
Lemma imageToName_plain image :
  Str.includes "/" (ContainerUtils.imageToName image) = false /\
  Str.includes ":" (ContainerUtils.imageToName image) = false.
Proof.
  unfold ContainerUtils.imageToName.
  set (imageName := part _ (Str.split "/" image)).
  assert (Himage : without "/" imageName).
  { apply (TypeFacts.part_Forall (without "/")); [done|].
    apply SplitFacts.split_parts. }
  split; apply SplitFacts.includes_without.
  - apply (TypeFacts.part_Forall (without "/")); [done|].
    by apply TypeFacts.split_any.
  - apply (TypeFacts.part_Forall (without ":")); [done|].
    apply SplitFacts.split_parts.
Qed.

(** ** [validateContainer] *)

Lemma forEachFrom_ext {A St} (xs : list A) (f g : A -> nat -> St -> St) i s :
  (forall x index s, f x index s = g x index s) ->
  ContainerUtils.forEachFrom i xs f s = ContainerUtils.forEachFrom i xs g s.
Proof.
  intros Hfg. revert i s. induction xs as [|x xs IH]; intros i s; [done|].
  simpl. by rewrite Hfg, IH.
Qed.

Lemma forEachFrom_errors {A} (f : nat -> A -> list string) xs i errors :
  ContainerUtils.forEachFrom i xs (fun x index errors => errors ++ f index x)
    errors =
  errors ++ concat (imap (fun k x => f (i + k)%nat x) xs).
Proof.
  revert i errors. induction xs as [|x xs IH]; intros i errors; simpl.
  - by rewrite app_nil_r.
  - rewrite IH, Nat.add_0_r, <- app_assoc. do 3 f_equal.
    apply imap_ext. intros k y _. simpl. f_equal. lia.
Qed.

Lemma validateContainer_spec (σ : store) (c : Container) :
  ContainerUtils.validateContainer σ c =
    (if String.eqb (image c) "" then [ContainerUtils.imageIsRequired] else []) ++
    portProblems (arr σ (publishPort c)) ++
    volumeProblems (arr σ (volume c)).
Proof.
  unfold ContainerUtils.validateContainer, portProblems, volumeProblems.
  rewrite (forEachFrom_ext (arr σ (volume c)) _
             (fun volume index errors => errors ++
                match volume with
                | PStr v =>
                    if Str.includes ":" v then []
                    else [ContainerUtils.invalidVolumeMapping index volume]
                | _ => []
                end)).
  2:{ intros [| |b|n| |v] index errors; simpl; rewrite ?app_nil_r; try done.
      pose proof (BuiltFacts.Volume_parse_cases v) as Hv.
      destruct (Str.includes ":" v).
      - destruct Hv as [r ->]. by rewrite app_nil_r.
      - by rewrite Hv. }
  rewrite (forEachFrom_ext (arr σ (publishPort c)) _
             (fun port index errors => errors ++
                match port with
                | PStr _ => []
                | _ => [ContainerUtils.invalidPortMapping index port]
                end)).
  2:{ intros [| |b|n| |v] index errors; simpl; by rewrite ?app_nil_r. }
  rewrite !forEachFrom_errors. simpl.
  destruct (image c); simpl; by rewrite <- ?app_assoc.
Qed.

Lemma concat_imap_nil {A} (f : nat -> A -> list string) xs :
  concat (imap f xs) = [] <-> forall i x, xs !! i = Some x -> f i x = [].
Proof.
  revert f. induction xs as [|x xs IH]; intros f; simpl.
  - split; [by intros _ i x|done].
  - rewrite app_nil, IH. split.
    + intros [H0 HS] [|i] y; simpl; [by intros [= <-]|apply HS].
    + intros H. split; [by apply (H 0%nat)|]. intros i y Hi. by apply (H (S i)).
Qed.

(** What [ContainerUtils.validateContainer] reports, in this order: the
    missing image; each published port that is not a string, and no port
    that is a string, whatever the string; each volume that is a string
    without a colon, a bare absolute path among them, and no volume that
    is not a string.  So nothing is reported exactly when there is an
    image, every port is a string and every volume that is a string holds
    a colon. *)
Theorem validateContainer_reports (σ : store) (c : Container) :
  ContainerUtils.validateContainer σ c =
    (if String.eqb (image c) "" then [ContainerUtils.imageIsRequired] else []) ++
    portProblems (arr σ (publishPort c)) ++
    volumeProblems (arr σ (volume c)) /\
  (ContainerUtils.validateContainer σ c = [] <->
   image c <> "" /\
   Forall (fun port : prim => isString port = true) (arr σ (publishPort c)) /\
   Forall (fun volume : prim => isString volume = true ->
                         Str.includes ":" (stringOf volume) = true)
          (arr σ (volume c))).
Proof.
  split; [apply validateContainer_spec|].
  rewrite validateContainer_spec, !app_nil.
  unfold portProblems, volumeProblems. rewrite !concat_imap_nil.
  rewrite !Forall_lookup.
  split.
  - intros (Himage & Hports & Hvolumes).
    split; [by destruct (String.eqb_spec (image c) "")|].
    split.
    + intros i port Hi. specialize (Hports i port Hi). by destruct port.
    + intros i volume Hi Hstring. specialize (Hvolumes i volume Hi).
      destruct volume as [| |b|n| |v]; try done. simpl.
      by destruct (Str.includes ":" v).
  - intros (Himage & Hports & Hvolumes).
    split; [by destruct (String.eqb_spec (image c) "")|].
    split.
    + intros i port Hi. specialize (Hports i port Hi). by destruct port.
    + intros i volume Hi. specialize (Hvolumes i volume Hi).
      destruct volume as [| |b|n| |v]; try done. simpl in Hvolumes.
      by rewrite Hvolumes.
Qed.

End ContainerUtilsFacts.

(* ===================================================================== *)
(** * The Container class: names, validation, and what is written *)
(* ===================================================================== *)

Module ValidateFacts.

Import Spec MoreNotions.

#[local] Arguments Ascii.eqb : simpl never.

(** The inner loop of [validate] stops at the first part that does not
    read as a port. *)
Lemma forOf_parts (message : string) (ports : list string) :
  forOf_ ports (fun p =>
    let portNum := Str.parseInt10 p in
    if isNaN portNum || outOfRange portNum
    then Thrown (ErrorMessage message)
    else Returned tt) =
  if forallb readsAsPort ports then Returned tt
  else Thrown (ErrorMessage message).
Proof.
  induction ports as [|p ports IH]; [done|]. simpl. unfold readsAsPort at 1.
  destruct (Str.parseInt10 p) as [n|]; simpl; [|done].
  destruct (Z.ltb_spec n 1), (Z.leb_spec 1 n); try lia; simpl; [done|].
  rewrite Z.gtb_ltb.
  destruct (Z.ltb_spec 65535 n), (Z.leb_spec n 65535); try lia; simpl; [done|].
  apply IH.
Qed.

(** What the body of the outer loop does with one port. *)
Lemma check_port (port : prim) :
  tryCatch
    (match splitPort port with
     | Returned ports =>
         forOf_ ports (fun p =>
           let portNum := Str.parseInt10 p in
           if isNaN portNum || outOfRange portNum
           then Thrown (ErrorMessage ("Invalid port: " +:+ primToString port))
           else Returned tt)
     | Thrown e => Thrown e
     end)
    (fun e =>
       if messageStartsWith "Invalid port:" e then Thrown e
       else Thrown (ErrorMessage
                      ("Invalid port format: " +:+ primToString port))) =
  if acceptable port then Returned tt
  else match port with
       | PStr s => Thrown (ErrorMessage ("Invalid port: " +:+ s))
       | _ => Thrown (ErrorMessage
                        ("Invalid port format: " +:+ primToString port))
       end.
Proof.
  destruct port as [| |b|n| |s]; try done.
  cbn [splitPort acceptable]. rewrite forOf_parts.
  by destruct (forallb readsAsPort (Str.split ":" s)).
Qed.

Lemma forOf_ports (ports : list prim) :
  forOf_ ports (fun port =>
    if acceptable port then Returned tt
    else match port with
         | PStr s => Thrown (ErrorMessage ("Invalid port: " +:+ s))
         | _ => Thrown (ErrorMessage
                          ("Invalid port format: " +:+ primToString port))
         end) =
  match List.find (fun port => negb (acceptable port)) ports with
  | None => Returned tt
  | Some (PStr s) => Thrown (ErrorMessage ("Invalid port: " +:+ s))
  | Some port =>
      Thrown (ErrorMessage ("Invalid port format: " +:+ primToString port))
  end.
Proof.
  induction ports as [|port ports IH]; [done|]. simpl.
  destruct (acceptable port); simpl; [apply IH|]. by destruct port.
Qed.

Lemma forOf__ext {A} (xs : list A) (f g : A -> outcome unit) :
  (forall x, f x = g x) -> forOf_ xs f = forOf_ xs g.
Proof.
  intros Hfg. induction xs as [|x xs IH]; [done|]. simpl. by rewrite Hfg, IH.
Qed.

Lemma validate_spec σ c :
  validate σ c =
    if String.eqb (image c) "" then Thrown (ErrorMessage "Image is required")
    else match List.find (fun port => negb (acceptable port))
                         (arr σ (publishPort c)) with
         | None => Returned tt
         | Some (PStr s) => Thrown (ErrorMessage ("Invalid port: " +:+ s))
         | Some port =>
             Thrown (ErrorMessage
                       ("Invalid port format: " +:+ primToString port))
         end.
Proof.
  unfold validate. simpl truthy.
  destruct (String.eqb (image c) ""); [done|]. cbn [negb].
  rewrite <- forOf_ports. apply forOf__ext. intros port. apply check_port.
Qed.

(** ** Ports that [addPublishPort] accepted *)

Lemma digitsPrefix_stop d acc rest :
  Str.all Str.isDigit d = true ->
  match rest with
  | "" => True
  | String a _ => Str.isDigit a = false
  end ->
  Str.digitsPrefix acc (d +:+ rest) = Str.digitsPrefix acc d.
Proof.
  intros Hd Hrest. revert acc. induction d as [|a d IH]; intros acc.
  - simpl. destruct rest as [|b rest]; [done|]. simpl. by rewrite Hrest.
  - simpl in *. apply andb_true_iff in Hd as [Ha Hd]. rewrite Ha. by apply IH.
Qed.

Lemma parseInt10_stop d rest :
  digits d ->
  match rest with
  | "" => True
  | String a _ => Str.isDigit a = false
  end ->
  Str.parseInt10 (d +:+ rest) = Some (decimal d).
Proof.
  intros Hd Hrest. rewrite <- (PatternFacts.parseInt10_digits d Hd).
  destruct Hd as [Hne Hd]. destruct d as [|a d]; [done|].
  pose proof Hd as Hd'. simpl in Hd'. apply andb_true_iff in Hd' as [Ha _].
  unfold Str.parseInt10. simpl Str.trimStart.
  rewrite (PatternFacts.isDigit_not_ws a Ha).
  destruct (PatternFacts.isDigit_not_sign a Ha) as [-> ->].
  by apply (digitsPrefix_stop (String a d)).
Qed.

Lemma suffix_stops suffix :
  In suffix protocolSuffixes ->
  without ":" suffix /\
  match suffix with
  | "" => True
  | String a _ => Str.isDigit a = false
  end.
Proof.
  unfold protocolSuffixes. simpl. intros [<-|[<-|[<-|[<-|[]]]]]; by vm_compute.
Qed.

Lemma readsAsPort_inRange d rest :
  digits d ->
  match rest with
  | "" => True
  | String a _ => Str.isDigit a = false
  end ->
  inRange d -> readsAsPort (d +:+ rest) = true.
Proof.
  intros Hd Hrest [Hlow Hhigh]. unfold readsAsPort.
  rewrite parseInt10_stop by done.
  apply andb_true_iff. split; by apply Z.leb_le.
Qed.

(** A port of the accepted shape with its components in range is one
    that [validate] takes. *)
Lemma shape_acceptable t comps :
  portShape t comps -> Forall inRange comps -> acceptable (PStr t) = true.
Proof.
  destruct 1 as [cp suffix Hcp Hsuffix|hp cp suffix Hhp Hcp Hsuffix];
    intros Hrange; destruct (suffix_stops suffix Hsuffix) as [Hcolon Hstop];
    cbn [acceptable].
  - apply Forall_cons in Hrange as [Hr _].
    rewrite PatternFacts.split_plain.
    + simpl. by rewrite readsAsPort_inRange.
    + apply SplitFacts.without_app. split; [|done].
      apply PatternFacts.digits_no_colon, Hcp.
  - apply Forall_cons in Hrange as [Hr1 Hrange].
    apply Forall_cons in Hrange as [Hr2 _].
    change (":" +:+ cp +:+ suffix) with (String ":" (cp +:+ suffix)).
    rewrite PatternFacts.split_app by apply PatternFacts.digits_no_colon, Hhp.
    rewrite PatternFacts.split_plain.
    + simpl. rewrite <- (StrFacts.app_empty_r hp).
      rewrite (readsAsPort_inRange hp "") by done.
      by rewrite readsAsPort_inRange.
    + apply SplitFacts.without_app. split; [|done].
      apply PatternFacts.digits_no_colon, Hcp.
Qed.

Lemma accepted_acceptable this v σ r σ' :
  addPublishPort this v σ = (Normal r, σ') ->
  acceptable (PStr (Str.trim (stringOf v))) = true.
Proof.
  rewrite MutatorFacts.addPublishPort_spec. cbv zeta.
  destruct (notNonEmptyString v); [done|].
  destruct (Regex.test _ _) eqn:Htest; [|done].
  apply PatternFacts.portPattern_shape in Htest as [comps Hshape].
  destruct (PatternFacts.portShape_components _ _ Hshape) as [Hcomps Hdigits].
  rewrite Hcomps.
  destruct (List.find _ comps) eqn:Hfind; [done|]. intros _.
  apply (PatternFacts.find_badPort comps Hdigits) in Hfind.
  by apply (shape_acceptable _ comps).
Qed.



End ValidateFacts.

Module Checks.

Import QuadletGenerator Spec MoreNotions.

#[local] Arguments Ascii.eqb : simpl never.

(** [validate].  A container without an image is refused with [Image is
    required].  Otherwise the published ports are looked at in order and
    the first one of which some colon-separated part does not read, with
    [parseInt], as a number from 1 to 65535 is reported: as [Invalid
    port] when it is a string (the [catch] of the method throws that
    error again, unchanged), as [Invalid port format] when it is not a
    string.  The method returns exactly when there is an image and every
    port is of that kind. *)
Theorem validate_reports (σ : store) (c : Container) :
  validate σ c =
    (if String.eqb (image c) "" then Thrown (ErrorMessage "Image is required")
     else match List.find (fun port => negb (acceptable port))
                          (arr σ (publishPort c)) with
          | None => Returned tt
          | Some (PStr s) => Thrown (ErrorMessage ("Invalid port: " +:+ s))
          | Some port =>
              Thrown (ErrorMessage
                        ("Invalid port format: " +:+ primToString port))
          end) /\
  (validate σ c = Returned tt <->
   image c <> "" /\
   Forall (fun port => acceptable port = true) (arr σ (publishPort c))).
Proof.
  split; [apply ValidateFacts.validate_spec|].
  rewrite ValidateFacts.validate_spec.
  destruct (String.eqb_spec (image c) "") as [->|Hne].
  { split; [done|]. by intros [? _]. }
  induction (arr σ (publishPort c)) as [|port ports IH]; simpl.
  - split; [by repeat constructor|done].
  - destruct (acceptable port) eqn:Hport; simpl.
    + rewrite IH. split.
      * intros [? ?]. split; [done|by constructor].
      * intros [? [_ ?]%Forall_cons]. done.
    + split; [by destruct port|].
      intros [_ [? _]%Forall_cons]. congruence.
Qed.

(** A port that [addPublishPort] accepted is, as it is stored, one that
    [validate] takes; the other way round it is not so: the string
    [80/http] reads as port 80 for [validate] and is refused by
    [addPublishPort], whatever the container. *)
Theorem validate_takes_accepted
    (this : cref) (v : value) (σ : store) (r : cref) (σ' : store) :
  addPublishPort this v σ = (Normal r, σ') ->
  acceptable (PStr (Str.trim (stringOf v))) = true /\
  acceptable (PStr "80/http") = true /\
  forall this0 σ0, addPublishPort this0 (str "80/http") σ0 = (Throw PortFormat, σ0).
Proof.
  intros Hadd. split; [by eapply ValidateFacts.accepted_acceptable|].
  split; [by vm_compute|].
  intros this0 σ0. by rewrite MutatorFacts.addPublishPort_spec.
Qed.

(** The port [8080:80/tcp], given with blanks around it to a new
    container. *)
Lemma validate_takes_accepted_witness :
  acceptable (PStr "8080:80/tcp") = true.
Proof.
  apply (validate_takes_accepted 0%nat (str " 8080:80/tcp ")
           (snd (newContainer Examples.emptyStore)) 0%nat
           (snd (addPublishPort 0%nat (str " 8080:80/tcp ")
                   (snd (newContainer Examples.emptyStore))))).
  vm_compute. reflexivity.
Defined.

End Checks.

Module Names.

Import QuadletGenerator Spec MoreNotions.

#[local] Arguments Ascii.eqb : simpl never.

(** A value that passes the guard of the mutators is a string whose
    trimmed form is not empty. *)
Lemma nonEmptyString v :
  notNonEmptyString v = false ->
  v = str (stringOf v) /\ Str.trim (stringOf v) <> "".
Proof.
  unfold notNonEmptyString. intros H.
  apply orb_false_iff in H as [H Htrim].
  apply orb_false_iff in H as [_ Hstring].
  apply String.eqb_neq in Htrim.
  destruct v as [[| |b|n| |s]|a|o]; try done.
Qed.

Lemma truthy_str t : t <> "" -> truthy (str t) = true.
Proof. by destruct t. Qed.

(** [getDefaultName].  The name is the container name when one is set,
    and otherwise what [ContainerUtils.imageToName] makes of the image:
    the two copies of that code agree.  A name made from the image holds
    neither a slash nor a colon.  After [setContainerName] has accepted a
    name, the default name is that name, trimmed. *)
Theorem getDefaultName_cases (c : Container) :
  getDefaultName c =
    (if truthy (containerName c) then containerName c
     else str (ContainerUtils.imageToName (image c))) /\
  Str.includes "/" (ContainerUtils.imageToName (image c)) = false /\
  Str.includes ":" (ContainerUtils.imageToName (image c)) = false /\
  forall this v σ r σ',
    setContainerName this v σ = (Normal r, σ') ->
    exists c', container σ' this = Some c' /\
               getDefaultName c' = str (Str.trim (stringOf v)).
Proof.
  split; [done|].
  split; [apply ContainerUtilsFacts.imageToName_plain|].
  split; [apply ContainerUtilsFacts.imageToName_plain|].
  intros this v σ r σ'. rewrite MutatorFacts.setContainerName_spec.
  destruct (notNonEmptyString v) eqn:Hv; [done|].
  apply nonEmptyString in Hv as [_ Hv].
  destruct (Regex.test _ _); [|done].
  unfold Notions.assignOn. destruct (container σ this) as [c0|] eqn:Hc0; [|done].
  intros [= <- <-]. eexists. split; [by eapply Validation.assigned_this|].
  unfold getDefaultName. cbn [containerName set_containerName].
  by rewrite truthy_str.
Qed.

End Names.

Module Setters.

Import QuadletGenerator Spec MoreNotions.

#[local] Arguments Ascii.eqb : simpl never.

Lemma assignOn_step this f σ c :
  container σ this = Some c ->
  Notions.assignOn this f σ = (Normal this, assigned this (f c) σ).
Proof. intros Hc. unfold Notions.assignOn. by rewrite Hc. Qed.

Lemma setPod_spec this v σ : setPod this v σ = Notions.assignOn this (set_pod v) σ.
Proof. apply MutatorFacts.update_this. Qed.

(** The setters and the serializer.  On a container that exists, a call
    of [setImage], [setContainerName] or [setExec] that returns has set
    the field that the [Container] section then writes: the image and the
    name trimmed, on one line each; the command as it was given, on one
    line when it is a nonempty string, and on no line when it is a falsy
    value, which [setExec] takes too.  A call that throws tells what was
    wrong with the value.  [setPod] takes every value and never throws;
    the pod is written on one line when it is truthy. *)
Theorem setters_written (σ : store) (this : cref) (c : Container) (v : value) :
  container σ this = Some c ->
  match setImage this v σ with
  | (Normal r, σ') =>
      exists c', container σ' this = Some c' /\
        Str.trim (stringOf v) <> "" /\
        linesOf "Image" (emitted σ' c') = [line "Image" (Str.trim (stringOf v))]
  | (Throw e, σ') => notNonEmptyString v = true
  end /\
  match setContainerName this v σ with
  | (Normal r, σ') =>
      exists c', container σ' this = Some c' /\
        linesOf "ContainerName" (emitted σ' c') =
          [line "ContainerName" (Str.trim (stringOf v))]
  | (Throw e, σ') =>
      notNonEmptyString v = true \/
      Regex.test namePattern (Str.trim (stringOf v)) = false
  end /\
  match setExec this v σ with
  | (Normal r, σ') =>
      exists c', container σ' this = Some c' /\ exec c' = v /\
        if truthy v
        then v = str (stringOf v) /\
             linesOf "Exec" (emitted σ' c') = [line "Exec" (stringOf v)]
        else linesOf "Exec" (emitted σ' c') = []
  | (Throw e, σ') => truthy v = true /\ isString v = false
  end /\
  match setPod this v σ with
  | (Normal r, σ') =>
      exists c', container σ' this = Some c' /\ pod c' = v /\
        linesOf "Pod" (emitted σ' c') =
          if truthy v then [line "Pod" (toStr σ v)] else []
  | (Throw e, σ') => False
  end.
Proof.
  intros Hc.
  rewrite MutatorFacts.setImage_spec, MutatorFacts.setContainerName_spec,
    MutatorFacts.setExec_spec, setPod_spec.
  rewrite !(assignOn_step this _ σ c Hc).
  split; [|split; [|split]].
  - destruct (notNonEmptyString v) eqn:Hv; [done|].
    apply Names.nonEmptyString in Hv as [_ Hv].
    eexists. split; [by eapply Validation.assigned_this|]. split; [done|].
    apply LineFacts.linesOf_emitted_In. unfold fieldTable. by left.
  - destruct (notNonEmptyString v) eqn:Hv; [by left|].
    apply Names.nonEmptyString in Hv as [_ Hv].
    destruct (Regex.test _ _); [|by right].
    eexists. split; [by eapply Validation.assigned_this|].
    apply LineFacts.linesOf_emitted_In. unfold fieldTable. right. left.
    unfold scalarRow. cbn [containerName set_containerName].
    by rewrite Names.truthy_str.
  - destruct (truthy v && negb (isString v)) eqn:Hv.
    { apply andb_true_iff in Hv as [Ht Hs].
      by apply negb_true_iff in Hs. }
    eexists. split; [by eapply Validation.assigned_this|]. split; [done|].
    destruct (truthy v) eqn:Ht.
    + simpl in Hv. apply negb_false_iff in Hv.
      destruct v as [[| |b|n| |s]|a|o]; try done.
      split; [done|].
      apply LineFacts.linesOf_emitted_In. unfold fieldTable.
      right. right. left. unfold scalarRow. cbn [exec set_exec].
      by rewrite Ht.
    + apply LineFacts.linesOf_emitted_In. unfold fieldTable.
      right. right. left. unfold scalarRow. cbn [exec set_exec].
      by rewrite Ht.
  - eexists. split; [by eapply Validation.assigned_this|]. split; [done|].
    apply LineFacts.linesOf_emitted_In. unfold fieldTable.
    do 55 right. left. unfold scalarRow. cbn [pod set_pod].
    by destruct v.
Qed.

(** A new container, and the value [nginx:1.27] with a blank after it. *)
Lemma setters_written_witness :
  exists σ' c',
    setImage 0%nat (str "nginx:1.27 ") (snd (newContainer Examples.emptyStore)) =
      (Normal 0%nat, σ') /\
    container σ' 0%nat = Some c' /\
    linesOf "Image" (emitted σ' c') = ["Image=nginx:1.27" +:+ LF].
Proof.
  destruct (container (snd (newContainer Examples.emptyStore)) 0%nat)
    as [c|] eqn:Hc; [|by vm_compute in Hc].
  destruct (setters_written _ 0%nat c (str "nginx:1.27 ") Hc) as [H _].
  destruct (setImage 0%nat (str "nginx:1.27 ") _) as [[r|e] σ'] eqn:Hset;
    [|by vm_compute in H].
  destruct H as (c' & Hc' & _ & Hlines).
  assert (r = 0%nat) as ->.
  { rewrite MutatorFacts.setImage_spec in Hset.
    change (notNonEmptyString (str "nginx:1.27 ")) with false in Hset.
    cbv iota in Hset. rewrite (assignOn_step _ _ _ c Hc) in Hset.
    congruence. }
  exists σ', c'. split; [done|]. split; [done|]. exact Hlines.
Defined.

End Setters.

Module Fresh.

Import QuadletGenerator Spec MoreNotions Notions.

#[local] Arguments Ascii.eqb : simpl never.

(** [new Container()].  In any store the constructor returns a new
    reference and leaves the containers and the arrays that exist as
    they are.  Each of the twenty-five list fields of the new container
    refers to a new array of its own, which is empty: no two fields, and
    no two containers, share a list.  The new container serializes to
    the header and an empty [Image] line. *)
Theorem newContainer_fresh (σ0 : store) :
  exists σ c,
    newContainer σ0 = (Normal (length (containers σ0)), σ) /\
    container σ (length (containers σ0)) = Some c /\
    (forall other, (other < length (containers σ0))%nat ->
       container σ other = container σ0 other) /\
    (forall a, (a < length (arrays σ0))%nat ->
       arrays σ !! a = arrays σ0 !! a) /\
    Forall (fun f => (length (arrays σ0) <= f c < length (arrays σ))%nat /\
                     arrays σ !! f c = Some [])
           arrayFields /\
    NoDup (map (fun f => f c) arrayFields) /\
    generateContainerSection σ c = "[Container]" +:+ LF +:+ "Image=" +:+ LF.
Proof.
  rewrite BuiltFacts.newContainer_spec. destruct σ0 as [l cs].
  eexists. exists (freshContainer (length l)).
  split; [reflexivity|]. unfold container. cbn [arrays containers].
  split; [by apply list_lookup_middle|].
  split; [intros other Hother; by apply lookup_app_l|].
  split; [intros a Ha; by apply lookup_app_l|].
  assert (Hlookup : forall a, (length l <= a < length l + 25)%nat ->
            (l ++ replicate 25 []) !! a = Some ([] : list prim)).
  { intros a Ha. rewrite lookup_app_r by lia.
    apply lookup_replicate_2. lia. }
  split.
  { unfold arrayFields. rewrite length_app, length_replicate.
    repeat (constructor; [split; [simpl; lia|apply Hlookup; simpl; lia]|]).
    constructor. }
  split.
  { unfold arrayFields. simpl.
    repeat (apply NoDup_cons; split;
              [rewrite ?elem_of_cons, elem_of_nil; lia|]).
    apply NoDup_nil_2. }
  etrans.
  { apply (CloneFacts.section_ext
             (snd (newContainer Examples.emptyStore)) _ (freshContainer 0%nat));
      [done|done|done| |by repeat constructor].
    unfold arrayFields.
    repeat (constructor;
              [unfold arr; cbn [arrays]; rewrite Hlookup by (simpl; lia);
               reflexivity|]).
    constructor. }
  vm_compute. reflexivity.
Qed.

End Fresh.

Module CloneMore.

Import QuadletGenerator Spec MoreNotions Notions.

#[local] Arguments Ascii.eqb : simpl never.

(** A new container with an image, its clone, and a port pushed onto the
    clone: the text of the original stays what it was. *)
Lemma clone_lists_independent_witness :
  exists σ σ' σ'' c c',
    setImage 0%nat (str "nginx") (snd (newContainer Examples.emptyStore)) =
      (Normal 0%nat, σ) /\
    container σ 0%nat = Some c /\
    clone 0%nat σ = (Normal 1%nat, σ') /\
    container σ' 1%nat = Some c' /\
    push (publishPort c') (PStr "8080:80") σ' = (Normal tt, σ'') /\
    container σ'' 0%nat = Some c /\
    generateContainerSection σ'' c = generateContainerSection σ c.
Proof.
  pose (σ := snd (setImage 0%nat (str "nginx")
                    (snd (newContainer Examples.emptyStore)))).
  pose (c := set_image "nginx" (freshContainer 0%nat)).
  pose (σ' := snd (clone 0%nat σ)).
  pose (c' := clonedContainer 50%nat c).
  assert (Hc : container σ 0%nat = Some c) by (vm_compute; reflexivity).
  assert (Hwf : wellFormed (length (arrays σ)) c).
  { split; repeat (constructor; [vm_compute; try lia; try exact I|]);
      constructor. }
  assert (Hclone : clone 0%nat σ = (Normal (length (containers σ)), σ'))
    by (vm_compute; reflexivity).
  assert (Hc' : container σ' (length (containers σ)) = Some c')
    by (vm_compute; reflexivity).
  destruct (Clone.clone_lists_independent σ σ' 0%nat c c' Hc Hwf Hclone Hc')
    as [Hpush _].
  destruct (Hpush publishPort (PStr "8080:80"))
    as (σ'' & Hpushed & Hthis & _ & Htext).
  { unfold arrayFields. do 7 right. by left. }
  exists σ, σ', σ'', c, c'.
  split; [vm_compute; reflexivity|].
  split; [exact Hc|]. split; [exact Hclone|]. split; [exact Hc'|].
  split; [exact Hpushed|]. split; [exact Hthis|exact Htext].
Defined.

(** [clone] and the readers.  For a container whose references are
    allocated, the clone is told apart from the original by none of the
    functions that read a container: [validate] returns or throws the
    same, [getDefaultName] gives the same name,
    [ContainerUtils.validateContainer] reports the same problems, and
    [containerToQuadlet] without options gives the same file. *)
Theorem clone_reads_alike (σ : store) (this : cref) (c : Container) :
  container σ this = Some c ->
  wellFormed (length (arrays σ)) c ->
  exists σ' c',
    clone this σ = (Normal (length (containers σ)), σ') /\
    container σ' (length (containers σ)) = Some c' /\
    validate σ' c' = validate σ c /\
    getDefaultName c' = getDefaultName c /\
    ContainerUtils.validateContainer σ' c' =
      ContainerUtils.validateContainer σ c /\
    PodletJS.containerToQuadlet σ' c' (mkOptions None None None None) =
      PodletJS.containerToQuadlet σ c (mkOptions None None None None).
Proof.
  intros Hc Hwf.
  destruct (Clone.clone_same_text σ this c Hc Hwf)
    as (σ' & c' & Hclone & Hc' & _ & _ & _ & Htext).
  exists σ', c'. split; [done|]. split; [done|].
  pose proof Hclone as Hspec.
  rewrite (CloneFacts.clone_spec σ this c Hc (proj1 Hwf)) in Hspec.
  injection Hspec as Hσ'.
  assert (c' = clonedContainer (length (arrays σ) + 25)%nat c) as ->.
  { rewrite <- Hσ' in Hc'. unfold container in Hc'. cbn [containers] in Hc'.
    rewrite list_lookup_middle in Hc' by done. by injection Hc'. }
  assert (Hports : arr σ' (publishPort
                             (clonedContainer (length (arrays σ) + 25)%nat c)) =
                   arr σ (publishPort c)).
  { rewrite <- Hσ'. cbn [clonedContainer publishPort].
    by rewrite <- Nat.add_assoc, CloneFacts.arr_app_r. }
  assert (Hvolumes : arr σ' (volume
                               (clonedContainer (length (arrays σ) + 25)%nat c)) =
                     arr σ (volume c)).
  { rewrite <- Hσ'. cbn [clonedContainer volume].
    by rewrite <- Nat.add_assoc, CloneFacts.arr_app_r. }
  assert (Hvalidate : validate σ'
                        (clonedContainer (length (arrays σ) + 25)%nat c) =
                      validate σ c).
  { rewrite !ValidateFacts.validate_spec, Hports. done. }
  split; [exact Hvalidate|]. split; [done|].
  split.
  { rewrite !ContainerUtilsFacts.validateContainer_spec, Hports, Hvolumes.
    done. }
  unfold PodletJS.containerToQuadlet. rewrite Hvalidate.
  destruct (validate σ c); [|done]. f_equal.
  unfold generateFile, block, emit. simpl. by rewrite Htext.
Qed.

(** A new container with the image [nginx] and its clone. *)
Lemma clone_reads_alike_witness :
  exists σ' c',
    clone 0%nat MoreExamples.nginxStore = (Normal 1%nat, σ') /\
    container σ' 1%nat = Some c' /\
    validate σ' c' = Returned tt /\
    getDefaultName c' = str "nginx".
Proof.
  destruct (clone_reads_alike MoreExamples.nginxStore 0%nat MoreExamples.nginx)
    as (σ' & c' & Hclone & Hc' & Hvalidate & Hname & _ & _).
  - vm_compute. reflexivity.
  - split; repeat (constructor; [vm_compute; try lia; try exact I|]);
      constructor.
  - exists σ', c'. split; [exact Hclone|]. split; [exact Hc'|].
    split; [rewrite Hvalidate|rewrite Hname]; vm_compute; reflexivity.
Defined.

End CloneMore.

(* ===================================================================== *)
(** * The serializer: what is never written, and escaping *)
(* ===================================================================== *)

Module GeneratorFacts.

Import QuadletGenerator Spec MoreNotions Notions.

#[local] Arguments Ascii.eqb : simpl never.

(** A key that is not in the table has no line. *)
Lemma linesOf_absent (table : list row) key :
  plainKey key -> Forall rowOK table -> ~ In key (map fst table) ->
  linesOf key (flat_map snd table) = [].
Proof.
  intros Hkey Hok. induction Hok as [|r table Hr Hok IH]; [done|].
  simpl. intros Hnotin. rewrite LineFacts.linesOf_app, LineFacts.linesOf_row by done.
  destruct (String.eqb_spec key (fst r)) as [->|_]; [by destruct Hnotin; left|].
  simpl. apply IH. intros Hin. apply Hnotin. by right.
Qed.

Lemma linesOf_emitted_absent σ c key :
  plainKey key -> ~ In key (map fst (fieldTable σ c)) ->
  linesOf key (emitted σ c) = [].
Proof.
  intros Hkey Hnotin.
  rewrite OutputFacts.emitted_sectionLines. unfold sectionLines.
  cbn [linesOf List.filter]. rewrite LineFacts.hasKey_no_equals by done.
  apply linesOf_absent; [done|apply LineFacts.fieldTable_ok|done].
Qed.

(** The rows of the table depend on the store only through the arrays of
    the list fields that are written and the arrays that the other fields
    refer to. *)
Lemma fieldTable_written σ σ' c :
  Forall (fun f => arr σ' (f c) = arr σ (f c)) writtenLists ->
  Forall (fun v => forall a, v = VArr a -> arr σ' a = arr σ a) (values c) ->
  fieldTable σ' c = fieldTable σ c.
Proof.
  intros Harrays Hrefs.
  unfold writtenLists in Harrays. unfold values in Hrefs.
  repeat match goal with
         | H : Forall _ (_ :: _) |- _ => apply Forall_cons in H as [? H]
         end.
  unfold fieldTable.
  repeat match goal with
         | H : arr σ' _ = arr σ _ |- _ => rewrite H; clear H
         end.
  repeat match goal with
         | H : forall a, ?v = VArr a -> _ |- _ =>
             rewrite ?(CloneFacts.scalarRow_ext σ σ' _ v H),
                     ?(CloneFacts.unmaskRow_ext σ σ' v H);
             clear H
         end.
  reflexivity.
Qed.

End GeneratorFacts.

Module Unwritten.

Import QuadletGenerator Spec MoreNotions Notions.

#[local] Arguments Ascii.eqb : simpl never.

(** The lists that are never written.  Whatever the container, the
    [Container] section has no line for [AddDevice], [Mount] or
    [ExposeHostPort], nor for any key outside its table; and an element
    pushed onto [addDevice], [mount] or [exposeHostPort] (as the compose
    parser does for [devices]) leaves the section as it was, when the
    list is not shared with a field that is written. *)
Theorem unwritten_lists
    (σ : store) (c : Container) (f : Container -> aref) (x : prim) :
  In f unwrittenLists ->
  Forall (fun g => g c <> f c) writtenLists ->
  Forall (fun v => v <> VArr (f c)) (values c) ->
  generateContainerSection (pushed (f c) x σ) c = generateContainerSection σ c /\
  linesOf "AddDevice" (emitted σ c) = [] /\
  linesOf "Mount" (emitted σ c) = [] /\
  linesOf "ExposeHostPort" (emitted σ c) = [] /\
  forall key, plainKey key -> ~ In key (map fst (fieldTable σ c)) ->
              linesOf key (emitted σ c) = [].
Proof.
  intros Hf Hlists Hvalues.
  split.
  { rewrite !OutputFacts.generateContainerSection_text,
      !OutputFacts.emitted_sectionLines.
    unfold sectionLines. f_equal. f_equal. f_equal.
    apply GeneratorFacts.fieldTable_written.
    - eapply List.Forall_impl; [|apply Hlists].
      intros g Hg. by apply Validation.pushed_others.
    - eapply List.Forall_impl; [|apply Hvalues].
      intros v Hv a ->. apply Validation.pushed_others. congruence. }
  assert (Habsent : forall key, plainKey key ->
            bool_decide (key ∈ map fst (fieldTable σ c)) = false ->
            linesOf key (emitted σ c) = []).
  { intros key Hkey Hnotin. apply GeneratorFacts.linesOf_emitted_absent; [done|].
    intros Hin%list_elem_of_In. by apply bool_decide_eq_false in Hnotin. }
  split; [by apply Habsent|]. split; [by apply Habsent|].
  split; [by apply Habsent|].
  intros key Hkey Hnotin. by apply GeneratorFacts.linesOf_emitted_absent.
Qed.

(** A device pushed onto a new container. *)
Lemma unwritten_lists_witness :
  generateContainerSection
    (pushed (addDevice MoreExamples.nginx) (PStr "/dev/fuse")
            MoreExamples.nginxStore) MoreExamples.nginx =
  generateContainerSection MoreExamples.nginxStore MoreExamples.nginx.
Proof.
  apply (unwritten_lists MoreExamples.nginxStore MoreExamples.nginx addDevice
           (PStr "/dev/fuse")).
  - by left.
  - repeat (constructor; [vm_compute; lia|]). constructor.
  - repeat (constructor; [discriminate|]). constructor.
Defined.

End Unwritten.

Module EscapeFacts.

Import QuadletGenerator Spec MoreNotions.

#[local] Arguments Ascii.eqb : simpl never.

Lemma escapeValue_cases x :
  escapeValue x =
  match x with
  | PStr s => if hasSpace s then PStr (quoted s) else x
  | _ => x
  end.
Proof.
  destruct x as [| |b|n| |s]; try done.
  unfold escapeValue. simpl. rewrite OutputFacts.hasSpace_includes.
  by destruct (hasSpace s).
Qed.

Lemma quoted_chars s : quoted s = dquote +:+ escapeChars s +:+ dquote.
Proof. unfold quoted. by rewrite LineFacts.escape_two_passes. Qed.

(** Escaping character by character can be undone: two strings with the
    same escaped form are the same. *)
Lemma escapeChars_inj s t : escapeChars s = escapeChars t -> s = t.
Proof.
  revert t. induction s as [|a s IH]; intros [|b t]; simpl.
  - done.
  - destruct (Ascii.eqb b "092"); [done|]. by destruct (Ascii.eqb b "034").
  - destruct (Ascii.eqb a "092"); [done|]. by destruct (Ascii.eqb a "034").
  - destruct (Ascii.eqb_spec a "092") as [->|Ha1];
      destruct (Ascii.eqb_spec b "092") as [->|Hb1].
    + intros [= H]. by rewrite (IH t H).
    + destruct (Ascii.eqb_spec b "034") as [->|Hb2]; [done|].
      intros [= H _]. congruence.
    + destruct (Ascii.eqb_spec a "034") as [->|Ha2]; [done|].
      intros [= H _]. congruence.
    + destruct (Ascii.eqb_spec a "034") as [->|Ha2];
        destruct (Ascii.eqb_spec b "034") as [->|Hb2].
      * intros [= H]. by rewrite (IH t H).
      * intros [= H _]. congruence.
      * intros [= H _]. congruence.
      * intros [= -> H]. by rewrite (IH t H).
Qed.

Lemma length_append s t :
  String.length (s +:+ t) = (String.length s + String.length t)%nat.
Proof. induction s as [|a s IH]; simpl; [done|by rewrite IH]. Qed.

Lemma app_inv_tail s t u : s +:+ u = t +:+ u -> s = t.
Proof.
  revert t. induction s as [|a s IH]; intros [|b t]; simpl.
  - done.
  - intros H. apply (f_equal String.length) in H.
    rewrite !length_append in H. simpl in H. lia.
  - intros H. apply (f_equal String.length) in H.
    rewrite !length_append in H. simpl in H. lia.
  - intros [= -> H]. by rewrite (IH t H).
Qed.

Lemma quoted_inj s t : quoted s = quoted t -> s = t.
Proof.
  rewrite !quoted_chars. intros [= H].
  rewrite !StrFacts.app_empty_l in H.
  by apply app_inv_tail, escapeChars_inj in H.
Qed.

Lemma hasSpace_escapeChars s : hasSpace (escapeChars s) = hasSpace s.
Proof.
  unfold hasSpace. induction s as [|a s IH]; [done|]. simpl.
  destruct (Ascii.eqb_spec a "092") as [->|_];
    [rewrite !StrFacts.any_app; simpl; by rewrite IH|].
  destruct (Ascii.eqb_spec a "034") as [->|_];
    [rewrite !StrFacts.any_app; simpl; by rewrite IH|].
  simpl. by rewrite IH.
Qed.

Lemma hasSpace_quoted s : hasSpace (quoted s) = hasSpace s.
Proof.
  rewrite quoted_chars. unfold hasSpace.
  rewrite !StrFacts.any_app. simpl. rewrite orb_false_r.
  apply hasSpace_escapeChars.
Qed.

(** [escapeValue] loses nothing: two entries have the same escaped value
    exactly when they are the same entry.  A quoted value always holds a
    space, so it is never taken for an entry that was written as it
    was. *)
Theorem escapeValue_injective (x y : prim) :
  escapeValue x = escapeValue y <-> x = y.
Proof.
  split; [|by intros ->]. rewrite !escapeValue_cases.
  destruct x as [| |b|n| |s], y as [| |b'|n'| |t]; try done;
    try (destruct (hasSpace s); done); try (destruct (hasSpace t); done).
  destruct (hasSpace s) eqn:Hs, (hasSpace t) eqn:Ht; try done.
  - intros H. f_equal. apply quoted_inj. congruence.
  - intros H. assert (Heq : quoted s = t) by congruence.
    rewrite <- Heq, hasSpace_quoted in Ht. congruence.
  - intros H. assert (Heq : s = quoted t) by congruence.
    rewrite Heq, hasSpace_quoted in Hs. congruence.
Qed.

End EscapeFacts.

(* ===================================================================== *)
(** * The callers: compose entries and the final file *)
(* ===================================================================== *)

Module ComposeFacts.

Import QuadletGenerator Spec MoreNotions Notions.
Import ComposeParser.
Local Open Scope js_scope.

#[local] Arguments Ascii.eqb : simpl never.

(** The one pass of [_escapeArg] and the two passes of [escapeValue]
    escape the same characters in the same way. *)
Lemma escapeMatches_chars s : escapeMatches s = escapeChars s.
Proof.
  induction s as [|a s IH]; [done|]. simpl. rewrite IH.
  destruct (Ascii.eqb_spec a "092") as [->|_]; [by rewrite orb_true_r|].
  rewrite orb_false_r. by destruct (Ascii.eqb_spec a "034") as [->|_].
Qed.

Lemma escapeArg_spec arg :
  _escapeArg arg =
  if Str.any isShellSpecial (primToString arg) then quoted (primToString arg)
  else primToString arg.
Proof.
  unfold _escapeArg.
  assert (Harg : (if negb (isString arg) then primToString arg else stringOf arg)
                 = primToString arg) by by destruct arg as [| |[]|n| |s].
  rewrite Harg. destruct (Str.any _ _); [|done].
  by rewrite escapeMatches_chars, EscapeFacts.quoted_chars.
Qed.

Lemma any_weaken (p q : ascii -> bool) s :
  (forall a, p a = true -> q a = true) ->
  Str.any p s = true -> Str.any q s = true.
Proof.
  intros Hpq. induction s as [|a s IH]; [done|]. simpl.
  intros [Ha|Hs]%orb_true_iff; [by rewrite (Hpq a Ha)|].
  rewrite (IH Hs). apply orb_true_r.
Qed.

Lemma space_special s : hasSpace s = true -> Str.any isShellSpecial s = true.
Proof.
  apply any_weaken. intros a Ha%Ascii.eqb_eq. by subst a.
Qed.

(** ** [_addToPodmanArgs] *)

Lemma assigned_twice this c1 c2 σ :
  assigned this c2 (assigned this c1 σ) = assigned this c2 σ.
Proof. unfold assigned. simpl. by rewrite list_insert_insert_eq. Qed.

Lemma argText_not_empty arg : fst arg <> "" -> argText arg <> "".
Proof.
  destruct arg as [flag value]. unfold argText. simpl. intros Hflag.
  destruct flag as [|a flag]; [done|]. by destruct value.
Qed.

Lemma addToPodmanArgs_step σ this c arg :
  container σ this = Some c ->
  _addToPodmanArgs this (fst arg) (snd arg) σ =
    (Normal tt,
     assigned this
       (set_podmanArgs
          (str ((if truthy (podmanArgs c)
                 then toStr σ (podmanArgs c) +:+ " " else "") +:+ argText arg))
          c) σ).
Proof.
  intros Hc. destruct arg as [flag value]. unfold _addToPodmanArgs.
  rewrite (CloneFacts.getThis_step _ σ this c Hc).
  unfold update. rewrite (CloneFacts.getThis_step _ σ this c Hc).
  unfold assigned, or_else, argText. cbn [fst snd]. do 3 f_equal.
  destruct (truthy (podmanArgs c)) eqn:Hargs; rewrite ?Hargs;
    destruct value as [| |b|n| |s]; simpl;
    rewrite ?StrFacts.app_assoc; done.
Qed.

Lemma join_not_empty sep x xs : x <> "" -> Str.join sep (x :: xs) <> "".
Proof.
  intros Hx. destruct x as [|a x]; [done|]. by destruct xs.
Qed.

Lemma addAll_from σ this c a args :
  container σ this = Some c -> podmanArgs c = str a -> a <> "" ->
  Forall (fun arg => fst arg <> "") args -> args <> [] ->
  addAll this args σ =
    (Normal tt,
     assigned this
       (set_podmanArgs (str (Str.join " " (a :: map argText args))) c) σ).
Proof.
  intros Hc Ha Hne Hflags. revert σ c a Hc Ha Hne.
  induction Hflags as [|arg rest Harg Hrest IH]; intros σ c a Hc Ha Hne Hnil;
    [done|].
  unfold addAll. cbn [forOf]. unfold bind at 1.
  rewrite (addToPodmanArgs_step σ this c arg Hc), Ha.
  rewrite (Names.truthy_str a Hne). cbn [toStr primToString].
  destruct rest as [|arg' rest'].
  - simpl. unfold ret. by rewrite !StrFacts.app_assoc.
  - fold (addAll this (arg' :: rest')).
    rewrite (IH _ (set_podmanArgs (str ((a +:+ " ") +:+ argText arg)) c)
               ((a +:+ " ") +:+ argText arg)); [| |done| |done].
    + rewrite assigned_twice.
      change (set_podmanArgs ?x (set_podmanArgs _ c)) with (set_podmanArgs x c).
      rewrite !SplitFacts.join_cons by done.
      by rewrite !StrFacts.app_assoc.
    + by eapply Validation.assigned_this.
    + destruct a; [done|]. done.
Qed.

(** ** Entries handed to the mutators *)

Lemma pushed_container a x σ this : container (pushed a x σ) this = container σ this.
Proof. done. Qed.

Lemma pushed_allocated a x σ :
  is_Some (arrays σ !! a) -> is_Some (arrays (pushed a x σ) !! a).
Proof.
  intros [xs Hxs]. rewrite BuiltFacts.lookup_pushed.
  rewrite decide_True by done. rewrite Hxs. by eexists.
Qed.

Lemma pushOn_step this get x σ c :
  container σ this = Some c -> is_Some (arrays σ !! get c) ->
  pushOn this get x σ = (Normal this, pushed (get c) x σ).
Proof. intros Hc [xs Hxs]. unfold pushOn. by rewrite Hc, Hxs. Qed.

(** A call of a mutator on a container that exists throws what
    [refusal] says and changes nothing, or does its one effect. *)
Lemma call_refusal (m : mutator) σ this c v :
  container σ this = Some c ->
  match target m c with
  | Some a => is_Some (arrays σ !! a)
  | None => True
  end ->
  call m this v σ =
    match refusal m v with
    | Some e => (Throw e, σ)
    | None => (Normal this, effect m v this c σ)
    end.
Proof.
  intros Hc Ha. destruct m; simpl in *.
  - rewrite MutatorFacts.setImage_spec.
    destruct (notNonEmptyString v); [done|].
    unfold Notions.assignOn. by rewrite Hc.
  - rewrite MutatorFacts.setContainerName_spec.
    destruct (notNonEmptyString v); [done|].
    destruct (Regex.test _ _); [|done].
    unfold Notions.assignOn. by rewrite Hc.
  - rewrite MutatorFacts.setExec_spec.
    destruct (_ && _); [done|].
    unfold Notions.assignOn. by rewrite Hc.
  - rewrite MutatorFacts.addPublishPort_spec. cbv zeta.
    destruct (notNonEmptyString v); [done|].
    destruct (Regex.test _ _); [|done].
    destruct (List.find _ _); [done|]. by apply pushOn_step.
  - rewrite MutatorFacts.addEnvironment_spec. cbv zeta.
    destruct (notNonEmptyString v); [done|].
    destruct (Str.includes _ _); [|done]. by apply pushOn_step.
  - rewrite MutatorFacts.addVolume_spec. cbv zeta.
    destruct (notNonEmptyString v); [done|].
    destruct (_ || _); [|done]. by apply pushOn_step.
  - rewrite MutatorFacts.addLabel_spec. cbv zeta.
    destruct (notNonEmptyString v); [done|].
    destruct (Str.includes _ _); [|done]. by apply pushOn_step.
Qed.

(** A call of a mutator that pushes, followed by nothing else. *)
Lemma pushing_step (m : mutator) σ this c a v :
  target m c = Some a ->
  container σ this = Some c -> is_Some (arrays σ !! a) ->
  (call m this v ;; ret tt) σ =
    match refusal m v with
    | Some e => (Throw e, σ)
    | None => (Normal tt, pushed a (stored (stringOf v)) σ)
    end.
Proof.
  intros Ha Hc Hxs. unfold bind, ret.
  rewrite (call_refusal m σ this c v Hc) by (by rewrite Ha).
  destruct (refusal m v); [done|].
  by destruct m; simplify_eq/=.
Qed.

(** What [_parsePorts] does with one entry. *)
Lemma port_entry this e σ :
  (match e with
   | PortScalar p =>
       if String.eqb (typeof p) "string" || String.eqb (typeof p) "number"
       then addPublishPort this (str (primToString p)) ;; ret tt
       else if String.eqb (typeof p) "object"
       then throw TypeError
       else ret tt
   | PortObject published target protocol =>
       let portSpec := "" in
       let portSpec :=
         if primTruthy published
         then portSpec +:+ (primToString published +:+ ":")
         else portSpec in
       let portSpec := portSpec +:+ primToString target in
       let portSpec :=
         if primTruthy protocol && negb (strictEq protocol (str "tcp"))
         then portSpec +:+ ("/" +:+ primToString protocol)
         else portSpec in
       addPublishPort this (str portSpec) ;; ret tt
   end) σ =
  match portSpec e with
  | Some spec =>
      match addPublishPort this (str spec) σ with
      | (Normal _, σ') => (Normal tt, σ')
      | (Throw err, σ') => (Throw err, σ')
      end
  | None =>
      match e with
      | PortScalar PNull => (Throw TypeError, σ)
      | _ => (Normal tt, σ)
      end
  end.
Proof.
  destruct e as [p|published target protocol].
  - destruct p as [| |b|n| |s]; try done.
  - cbv zeta. unfold MoreNotions.portSpec.
    replace ((if primTruthy published
              then primToString published +:+ ":" else "") +:+
             primToString target +:+
             (if primTruthy protocol && negb (strictEq protocol (str "tcp"))
              then "/" +:+ primToString protocol else ""))
      with (if primTruthy protocol && negb (strictEq protocol (str "tcp"))
            then ((if primTruthy published
                   then "" +:+ (primToString published +:+ ":") else "") +:+
                  primToString target) +:+ ("/" +:+ primToString protocol)
            else (if primTruthy published
                  then "" +:+ (primToString published +:+ ":") else "") +:+
                 primToString target).
    + unfold bind, ret. by destruct (addPublishPort _ _ _) as [[r|err] σ'].
    + destruct (_ && _); rewrite ?StrFacts.app_empty_l, ?StrFacts.app_assoc,
        ?StrFacts.app_empty_r; done.
Qed.

Lemma forOf_ext {A} (xs : list A) (f g : A -> M unit) σ :
  (forall x σ, f x σ = g x σ) -> forOf xs f σ = forOf xs g σ.
Proof.
  intros Hfg. revert σ. induction xs as [|x xs IH]; intros σ; [done|].
  simpl. unfold bind. rewrite Hfg. destruct (g x σ) as [[[]|e] σ']; [apply IH|done].
Qed.

(** A loop of steps, each of which throws and changes nothing when its
    element is refused, and otherwise does its one change [F]: the loop
    throws at the first element that is refused, after the changes of
    the elements before it, and returns after all the changes when no
    element is refused. *)
Lemma forOf_throws {A} (I : store -> Prop) (refused : A -> option error)
    (F : A -> store -> store) (step : A -> M unit) before x e after σ :
  (forall x σ, I σ ->
     step x σ = match refused x with
                | Some e => (Throw e, σ)
                | None => (Normal tt, F x σ)
                end) ->
  (forall x σ, I σ -> I (F x σ)) ->
  I σ ->
  Forall (fun y => refused y = None) before -> refused x = Some e ->
  forOf (before ++ x :: after) step σ =
    (Throw e, fold_left (fun σ y => F y σ) before σ).
Proof.
  intros Hstep HI Hσ Hbefore Hx. revert σ Hσ.
  induction Hbefore as [|y before Hy _ IH]; intros σ Hσ.
  - cbn [app forOf fold_left]. unfold bind. by rewrite Hstep, Hx.
  - cbn [app forOf fold_left]. unfold bind at 1. rewrite Hstep, Hy by done.
    apply IH. by apply HI.
Qed.

Lemma forOf_returns {A} (I : store -> Prop) (refused : A -> option error)
    (F : A -> store -> store) (step : A -> M unit) xs σ :
  (forall x σ, I σ ->
     step x σ = match refused x with
                | Some e => (Throw e, σ)
                | None => (Normal tt, F x σ)
                end) ->
  (forall x σ, I σ -> I (F x σ)) ->
  I σ ->
  Forall (fun y => refused y = None) xs ->
  forOf xs step σ = (Normal tt, fold_left (fun σ y => F y σ) xs σ).
Proof.
  intros Hstep HI Hσ Hxs. revert σ Hσ.
  induction Hxs as [|y xs Hy _ IH]; intros σ Hσ; [done|].
  cbn [forOf fold_left]. unfold bind at 1. rewrite Hstep, Hy by done.
  apply IH. by apply HI.
Qed.

(** A list has a first element that is refused, or none. *)
Lemma refused_cases {A} (refused : A -> option error) (xs : list A) :
  Forall (fun y => refused y = None) xs \/
  exists before x e, firstRefused refused xs before x e.
Proof.
  induction xs as [|y xs IH]; [by left|].
  destruct (refused y) as [e|] eqn:Hy.
  - right. exists [], y, e. split; [by exists xs|]. by split.
  - destruct IH as [Hall|(before & x & e & [after ->] & Hbefore & Hx)].
    + left. by constructor.
    + right. exists (y :: before), x, e. split; [by exists after|].
      split; [by constructor|done].
Qed.

Lemma fold_omap {A} a (spec : A -> option string) xs σ :
  fold_left (fun σ y => match spec y with
                        | Some s => pushed a (stored s) σ
                        | None => σ
                        end) xs σ =
  pushedAll a (map stored (omap spec xs)) σ.
Proof.
  unfold pushedAll. revert σ. induction xs as [|x xs IH]; intros σ; [done|].
  simpl. destruct (spec x); simpl; apply IH.
Qed.

(** What [_parsePorts] does with one entry, on a container that
    exists. *)
Lemma port_step this c e σ :
  container σ this = Some c -> is_Some (arrays σ !! publishPort c) ->
  match portSpec e with
  | Some spec =>
      match addPublishPort this (str spec) σ with
      | (Normal _, σ') => (Normal tt, σ')
      | (Throw err, σ') => (Throw err, σ')
      end
  | None =>
      match e with
      | PortScalar PNull => (Throw TypeError, σ)
      | _ => (Normal tt, σ)
      end
  end =
  match portRefusal e with
  | Some err => (Throw err, σ)
  | None =>
      (Normal tt,
       match portSpec e with
       | Some spec => pushed (publishPort c) (stored spec) σ
       | None => σ
       end)
  end.
Proof.
  intros Hc Hxs. unfold portRefusal.
  destruct (portSpec e) as [spec|].
  - pose proof (call_refusal AddPublishPort σ this c (str spec) Hc Hxs) as Hcall.
    change (call AddPublishPort) with addPublishPort in Hcall. rewrite Hcall.
    destruct (refusal AddPublishPort (str spec)); reflexivity.
  - by destruct e as [[| |b|n| |s]|published target protocol].
Qed.

(** An entry [key: value] of an object always passes the checks of
    [addEnvironment] and [addLabel]: it holds an equals sign. *)
Lemma entry_accepted entry :
  notNonEmptyString (str (entryText entry)) = false /\
  Str.includes "=" (Str.trim (entryText entry)) = true.
Proof.
  assert (Hany : Str.any (fun a => Ascii.eqb a "=") (entryText entry) = true).
  { unfold entryText. change ("=" +:+ ?t) with (String "=" t).
    apply TypeFacts.any_cut. }
  assert (Hws : forall a, Ascii.eqb a "=" = true -> Str.isWhiteSpace a = false)
    by (intros a Ha; by apply (SplitFacts.eqb_not_ws "=")).
  split.
  - rewrite PatternFacts.notNonEmptyString_str. apply String.eqb_neq.
    by apply (SplitFacts.trim_not_empty _ _ Hws).
  - apply TypeFacts.includes_true. by rewrite SplitFacts.any_trim.
Qed.

Lemma entries_pushed this (mutate : cref -> value -> M cref)
    (get : Container -> aref) c (entries : list (string * prim)) σ :
  (forall entry σ, container σ this = Some c -> is_Some (arrays σ !! get c) ->
     mutate this (str (entryText entry)) σ =
       (Normal this, pushed (get c) (stored (entryText entry)) σ)) ->
  container σ this = Some c -> is_Some (arrays σ !! get c) ->
  forOf entries (fun '(key, value) =>
    mutate this (str (key +:+ "=" +:+ primToString value)) ;; ret tt) σ =
  (Normal tt, pushedAll (get c) (map (fun entry => stored (entryText entry)) entries) σ).
Proof.
  intros Hmutate. revert σ.
  induction entries as [|[key value] entries IH]; intros σ Hc Hxs; [done|].
  cbn [forOf]. unfold bind at 1. unfold bind at 1.
  pose proof (Hmutate (key, value) σ Hc Hxs) as Hcall.
  unfold entryText in Hcall. cbn [fst snd] in Hcall. rewrite Hcall.
  unfold ret at 1.
  rewrite IH; [done|done|by apply pushed_allocated].
Qed.

Lemma fold_pushed {A} a (f : A -> prim) xs σ :
  fold_left (fun σ x => pushed a (f x) σ) xs σ = pushedAll a (map f xs) σ.
Proof.
  unfold pushedAll. revert σ. induction xs as [|x xs IH]; intros σ; [done|].
  simpl. apply IH.
Qed.

(** The one change that [_parseVolumes] makes for an entry. *)
Lemma volume_entry this c e σ :
  container σ this = Some c ->
  is_Some (arrays σ !! volume c) -> is_Some (arrays σ !! tmpfs c) ->
  let step :=
    match e with
    | VolumeScalar v =>
        if String.eqb (typeof v) "string"
        then addVolume this v ;; ret tt
        else if String.eqb (typeof v) "object"
        then throw TypeError
        else ret tt
    | VolumeObject type_ source target read_only tmpfs_ =>
        if strictEq type_ (str "tmpfs") then
          let tmpfsSpec :=
            match tmpfs_ with
            | Some size =>
                if primTruthy size
                then PStr (primToString target +:+ (":size=" +:+ primToString size))
                else target
            | None => target
            end in
          c <- getThis this ;;
          push (tmpfs c) tmpfsSpec
        else
          let volumeSpec := "" in
          let volumeSpec :=
            if primTruthy source
            then volumeSpec +:+ (primToString source +:+ ":")
            else volumeSpec in
          let volumeSpec := volumeSpec +:+ primToString target in
          let volumeSpec :=
            if primTruthy read_only then volumeSpec +:+ ":ro" else volumeSpec in
          addVolume this (str volumeSpec) ;; ret tt
    end in
  step σ =
    match volumeRefusal e with
    | Some err => (Throw err, σ)
    | None =>
        (Normal tt,
         match volumeSpec e, tmpfsSpec e with
         | Some spec, _ => pushed (volume c) (stored spec) σ
         | None, Some x => pushed (tmpfs c) x σ
         | None, None => σ
         end)
    end.
Proof.
  intros Hc Hvolume Htmpfs. cbv zeta.
  assert (Hadd : forall spec,
            (addVolume this (str spec) ;; ret tt) σ =
              match refusal AddVolume (str spec) with
              | Some err => (Throw err, σ)
              | None => (Normal tt, pushed (volume c) (stored spec) σ)
              end).
  { intros spec.
    exact (pushing_step AddVolume σ this c (volume c) (str spec) eq_refl
             Hc Hvolume). }
  destruct e as [v|type_ source target read_only tmpfs_].
  - destruct v as [| |b|n| |s]; try done. apply Hadd.
  - unfold volumeRefusal, volumeSpec, tmpfsSpec.
    destruct (strictEq type_ (str "tmpfs")).
    + rewrite (CloneFacts.getThis_step _ σ this c Hc).
      destruct Htmpfs as [xs Hxs].
      unfold push, bind, getArray, setArray, pushed, arr, aref in *.
      by rewrite Hxs.
    + replace ((if primTruthy source then primToString source +:+ ":" else "") +:+
               primToString target +:+
               (if primTruthy read_only then ":ro" else ""))
        with (if primTruthy read_only
              then ((if primTruthy source
                     then "" +:+ (primToString source +:+ ":") else "") +:+
                    primToString target) +:+ ":ro"
              else (if primTruthy source
                    then "" +:+ (primToString source +:+ ":") else "") +:+
                   primToString target).
      * apply Hadd.
      * destruct (primTruthy read_only);
          rewrite ?StrFacts.app_empty_l, ?StrFacts.app_assoc,
            ?StrFacts.app_empty_r; done.
Qed.

(** The arrays after the changes of a list of volume entries. *)
Lemma volume_changes c (entries : list volumeEntry) σ :
  is_Some (arrays σ !! volume c) -> is_Some (arrays σ !! tmpfs c) ->
  volume c <> tmpfs c ->
  let σ' :=
    fold_left (fun σ e =>
      match volumeSpec e, tmpfsSpec e with
      | Some spec, _ => pushed (volume c) (stored spec) σ
      | None, Some x => pushed (tmpfs c) x σ
      | None, None => σ
      end) entries σ in
  arr σ' (volume c) = arr σ (volume c) ++ map stored (omap volumeSpec entries) /\
  arr σ' (tmpfs c) =
    arr σ (tmpfs c) ++
    omap (fun e => match volumeSpec e with
                   | Some _ => None
                   | None => tmpfsSpec e
                   end) entries /\
  containers σ' = containers σ /\
  forall a, a <> volume c -> a <> tmpfs c -> arr σ' a = arr σ a.
Proof.
  intros Hvolume Htmpfs Hne. cbv zeta. revert σ Hvolume Htmpfs.
  induction entries as [|e entries IH]; intros σ Hvolume Htmpfs.
  - simpl. by rewrite !app_nil_r.
  - cbn [fold_left]. simpl omap.
    destruct (volumeSpec e) as [spec|] eqn:Hspec;
      [|destruct (tmpfsSpec e) as [x|] eqn:Hx].
    + destruct (IH (pushed (volume c) (stored spec) σ))
        as (H1 & H2 & H3 & H4).
      { by apply pushed_allocated. }
      { rewrite BuiltFacts.lookup_pushed. by rewrite decide_False. }
      rewrite H1, H2, H3.
      rewrite Validation.pushed_this, Validation.pushed_others, <- app_assoc
        by done.
      repeat split; try done.
      intros a Ha1 Ha2. by rewrite H4, Validation.pushed_others.
    + destruct (IH (pushed (tmpfs c) x σ)) as (H1 & H2 & H3 & H4).
      { rewrite BuiltFacts.lookup_pushed. by rewrite decide_False. }
      { by apply pushed_allocated. }
      rewrite H1, H2, H3.
      rewrite Validation.pushed_this, Validation.pushed_others, <- app_assoc
        by done.
      repeat split; try done.
      intros a Ha1 Ha2. by rewrite H4, Validation.pushed_others.
    + by apply IH.
Qed.

(** The store after pushes onto one array. *)
Lemma pushedAll_facts a xs σ :
  is_Some (arrays σ !! a) ->
  arr (pushedAll a xs σ) a = arr σ a ++ xs /\
  containers (pushedAll a xs σ) = containers σ /\
  forall a', a' <> a -> arr (pushedAll a xs σ) a' = arr σ a'.
Proof.
  revert σ. induction xs as [|x xs IH]; intros σ Hxs.
  - by rewrite app_nil_r.
  - destruct (IH (pushed a x σ) (pushed_allocated a x σ Hxs))
      as (Harr & Hcs & Hothers).
    unfold pushedAll in *. cbn [fold_left].
    split; [|split].
    + by rewrite Harr, Validation.pushed_this, <- app_assoc.
    + by rewrite Hcs.
    + intros a' Hne. by rewrite Hothers, Validation.pushed_others.
Qed.

End ComposeFacts.

Module Compose.

Import QuadletGenerator Spec MoreNotions Notions.
Import ComposeParser.
Local Open Scope js_scope.

#[local] Arguments Ascii.eqb : simpl never.

(** [_escapeArg].  An argument without white space, quotes or a
    character of the shell is given back as it is, and any other one
    between double quotes with a backslash before every double quote and
    every backslash.  On a string with a space this is the quoted form
    that [QuadletGenerator.escapeValue] writes; on a string without a
    space that holds one of the other characters, [_escapeArg] quotes and
    [escapeValue] does not. *)
Theorem escapeArg_cases (arg : prim) :
  _escapeArg arg =
    (if Str.any isShellSpecial (primToString arg)
     then quoted (primToString arg) else primToString arg) /\
  (forall s, hasSpace s = true ->
     _escapeArg (PStr s) = primToString (escapeValue (PStr s))) /\
  (forall s, hasSpace s = false -> Str.any isShellSpecial s = true ->
     _escapeArg (PStr s) = quoted s /\
     primToString (escapeValue (PStr s)) = s).
Proof.
  split; [apply ComposeFacts.escapeArg_spec|].
  split.
  - intros s Hs. rewrite ComposeFacts.escapeArg_spec, EscapeFacts.escapeValue_cases.
    simpl. by rewrite ComposeFacts.space_special, Hs.
  - intros s Hs Hspecial.
    rewrite ComposeFacts.escapeArg_spec, EscapeFacts.escapeValue_cases.
    simpl. by rewrite Hspecial, Hs.
Qed.

(** [_addToPodmanArgs], call after call.  On a container without
    [podmanArgs], calls with flags that are not empty leave in the field
    the flags, each with its escaped value when it has one, in the order
    of the calls and separated by single blanks; no other field and no
    array changes, and the section writes them on one [PodmanArgs]
    line. *)
Theorem podmanArgs_accumulate
    (σ : store) (this : cref) (c : Container) (args : list (string * prim)) :
  container σ this = Some c -> truthy (podmanArgs c) = false ->
  Forall (fun arg => fst arg <> "") args -> args <> [] ->
  let text := Str.join " " (map argText args) in
  let c' := set_podmanArgs (str text) c in
  addAll this args σ = (Normal tt, assigned this c' σ) /\
  container (assigned this c' σ) this = Some c' /\
  linesOf "PodmanArgs" (emitted (assigned this c' σ) c') =
    [line "PodmanArgs" text].
Proof.
  intros Hc Hargs Hflags Hne. cbv zeta.
  destruct args as [|arg rest]; [done|].
  apply Forall_cons in Hflags as [Harg Hrest].
  assert (Hrun : addAll this (arg :: rest) σ =
            (Normal tt,
             assigned this
               (set_podmanArgs (str (Str.join " " (map argText (arg :: rest)))) c)
               σ)).
  { unfold addAll. cbn [forOf]. unfold bind at 1.
    rewrite (ComposeFacts.addToPodmanArgs_step σ this c arg Hc), Hargs.
    rewrite StrFacts.app_empty_l.
    destruct rest as [|arg' rest']; [done|].
    fold (addAll this (arg' :: rest')).
    rewrite (ComposeFacts.addAll_from _ this
               (set_podmanArgs (str (argText arg)) c) (argText arg));
      [| |done| |done|done].
    - rewrite ComposeFacts.assigned_twice.
      by change (set_podmanArgs ?x (set_podmanArgs _ c)) with (set_podmanArgs x c).
    - by eapply Validation.assigned_this.
    - by apply ComposeFacts.argText_not_empty. }
  split; [exact Hrun|].
  split; [by eapply Validation.assigned_this|].
  apply LineFacts.linesOf_emitted_In. unfold fieldTable.
  do 69 right. left. unfold scalarRow. cbn [podmanArgs set_podmanArgs].
  rewrite Names.truthy_str; [done|].
  apply ComposeFacts.join_not_empty. by apply ComposeFacts.argText_not_empty.
Qed.

(** The flags of a privileged service with a memory limit and a security
    option that holds a blank. *)
Lemma podmanArgs_accumulate_witness :
  exists σ' c',
    addAll 0%nat
      [("--privileged", PNull); ("--memory", PStr "512m");
       ("--security-opt", PStr "label=type:my type")]
      MoreExamples.nginxStore = (Normal tt, σ') /\
    container σ' 0%nat = Some c' /\
    linesOf "PodmanArgs" (emitted σ' c') =
      ["PodmanArgs=--privileged --memory 512m --security-opt " +:+
       dquote +:+ "label=type:my type" +:+ dquote +:+ LF].
Proof.
  destruct (podmanArgs_accumulate MoreExamples.nginxStore 0%nat MoreExamples.nginx
              [("--privileged", PNull); ("--memory", PStr "512m");
               ("--security-opt", PStr "label=type:my type")])
    as (Hrun & Hc' & Hlines).
  - vm_compute. reflexivity.
  - reflexivity.
  - repeat (constructor; [discriminate|]). constructor.
  - discriminate.
  - eexists. eexists. split; [exact Hrun|]. split; [exact Hc'|exact Hlines].
Defined.

(** [_parsePorts] is not all or nothing.  On a container that exists,
    the entries are handed to [addPublishPort] in order: a string or a
    number as its text, a long-form object as
    [published:target/protocol], with [published] left out when it is
    missing and the protocol left out when it is missing or [tcp]; what
    is neither is passed over.  The method throws at the first entry
    that is refused (by [addPublishPort], with the error of that method,
    or because it is [null]): the ports of the entries before that one
    have been pushed, trimmed and in order, and stay, and no entry after
    it is looked at.  It returns when no entry is refused, after all the
    ports have been pushed.  One of the two is always the case.  No
    other array and no container changes. *)
Theorem parsePorts_prefix
    (σ : store) (this : cref) (c : Container)
    (ports : portEntry + list portEntry) :
  container σ this = Some c -> is_Some (arrays σ !! publishPort c) ->
  (forall before x e,
     firstRefused portRefusal (asArray ports) before x e ->
     _parsePorts ports this σ =
       (Throw e,
        pushedAll (publishPort c) (map stored (omap portSpec before)) σ)) /\
  (Forall (fun x => portRefusal x = None) (asArray ports) ->
   _parsePorts ports this σ =
     (Normal tt,
      pushedAll (publishPort c) (map stored (omap portSpec (asArray ports))) σ)) /\
  (Forall (fun x => portRefusal x = None) (asArray ports) \/
   exists before x e, firstRefused portRefusal (asArray ports) before x e) /\
  (forall xs,
     arr (pushedAll (publishPort c) xs σ) (publishPort c) =
       arr σ (publishPort c) ++ xs /\
     containers (pushedAll (publishPort c) xs σ) = containers σ /\
     forall a, a <> publishPort c ->
               arr (pushedAll (publishPort c) xs σ) a = arr σ a) /\
  (forall v σ0,
     container σ0 this = Some c -> is_Some (arrays σ0 !! publishPort c) ->
     addPublishPort this v σ0 =
       match refusal AddPublishPort v with
       | Some e => (Throw e, σ0)
       | None => (Normal this, pushed (publishPort c) (stored (stringOf v)) σ0)
       end).
Proof.
  intros Hc Hxs.
  assert (Hstep : forall x σ0,
            container σ0 this = Some c /\ is_Some (arrays σ0 !! publishPort c) ->
            (match x with
             | PortScalar p =>
                 if String.eqb (typeof p) "string" || String.eqb (typeof p) "number"
                 then addPublishPort this (str (primToString p)) ;; ret tt
                 else if String.eqb (typeof p) "object"
                 then throw TypeError
                 else ret tt
             | PortObject published target protocol =>
                 let portSpec := "" in
                 let portSpec :=
                   if primTruthy published
                   then portSpec +:+ (primToString published +:+ ":")
                   else portSpec in
                 let portSpec := portSpec +:+ primToString target in
                 let portSpec :=
                   if primTruthy protocol && negb (strictEq protocol (str "tcp"))
                   then portSpec +:+ ("/" +:+ primToString protocol)
                   else portSpec in
                 addPublishPort this (str portSpec) ;; ret tt
             end) σ0 =
            match portRefusal x with
            | Some e => (Throw e, σ0)
            | None =>
                (Normal tt,
                 match portSpec x with
                 | Some spec => pushed (publishPort c) (stored spec) σ0
                 | None => σ0
                 end)
            end).
  { intros x σ0 [Hc0 Hxs0].
    etrans; [apply ComposeFacts.port_entry|by apply ComposeFacts.port_step]. }
  assert (HI : forall (x : portEntry) σ0,
            container σ0 this = Some c /\ is_Some (arrays σ0 !! publishPort c) ->
            container
              (match portSpec x with
               | Some spec => pushed (publishPort c) (stored spec) σ0
               | None => σ0
               end) this = Some c /\
            is_Some (arrays
                       (match portSpec x with
                        | Some spec => pushed (publishPort c) (stored spec) σ0
                        | None => σ0
                        end) !! publishPort c)).
  { intros x σ0 [Hc0 Hxs0]. destruct (portSpec x); [|done].
    split; [done|by apply ComposeFacts.pushed_allocated]. }
  split.
  { intros before x e ([after Hports] & Hbefore & Hx).
    unfold _parsePorts. cbv zeta. rewrite Hports, <- ComposeFacts.fold_omap.
    by apply (ComposeFacts.forOf_throws
                (fun σ0 => container σ0 this = Some c /\
                           is_Some (arrays σ0 !! publishPort c))
                portRefusal
                (fun x σ0 => match portSpec x with
                             | Some spec => pushed (publishPort c) (stored spec) σ0
                             | None => σ0
                             end)). }
  split.
  { intros Hall. unfold _parsePorts. cbv zeta. rewrite <- ComposeFacts.fold_omap.
    by apply (ComposeFacts.forOf_returns
                (fun σ0 => container σ0 this = Some c /\
                           is_Some (arrays σ0 !! publishPort c))
                portRefusal
                (fun x σ0 => match portSpec x with
                             | Some spec => pushed (publishPort c) (stored spec) σ0
                             | None => σ0
                             end)). }
  split; [apply ComposeFacts.refused_cases|].
  split; [intros xs; by apply ComposeFacts.pushedAll_facts|].
  intros v σ0 Hc0 Hxs0.
  exact (ComposeFacts.call_refusal AddPublishPort σ0 this c v Hc0 Hxs0).
Qed.

(** The ports [8080:80], [http] and [443] of a service: the second one is
    refused, the first one stays, the third one is not looked at. *)
Lemma parsePorts_prefix_witness :
  _parsePorts (inr [PortScalar (PStr "8080:80"); PortScalar (PStr "http");
                    PortScalar (PNum 443)]) 0%nat MoreExamples.nginxStore =
    (Throw PortFormat,
     pushedAll (publishPort MoreExamples.nginx)
       (map stored (omap portSpec [PortScalar (PStr "8080:80")]))
       MoreExamples.nginxStore).
Proof.
  destruct (parsePorts_prefix MoreExamples.nginxStore 0%nat MoreExamples.nginx
              (inr [PortScalar (PStr "8080:80"); PortScalar (PStr "http");
                    PortScalar (PNum 443)]))
    as [Hthrow _].
  - vm_compute. reflexivity.
  - vm_compute. eauto.
  - apply (Hthrow _ (PortScalar (PStr "http"))).
    split; [by exists [PortScalar (PNum 443)]|].
    split; [|vm_compute; reflexivity].
    constructor; [vm_compute; reflexivity|constructor].
Defined.

(** [_parseVolumes].  On a container that exists, with its [volume] and
    [tmpfs] lists apart, the entries are handled in order: a string is
    handed to [addVolume]; a long-form object of type [tmpfs] pushes its
    target, with [:size=] and the size when there is one, onto [tmpfs]
    and never onto [volume]; any other object is handed to [addVolume]
    as [source:target], with [source] left out when it is missing and
    [:ro] at the end when it is read-only.  The method throws at the
    first entry that is refused (by [addVolume], with the error of that
    method, or because it is [null]): what the entries before it pushed
    stays, and no entry after it is looked at.  It returns when no entry
    is refused, after all the entries have been handled.  One of the two
    is always the case. *)
Theorem parseVolumes_prefix
    (σ : store) (this : cref) (c : Container)
    (volumes : volumeEntry + list volumeEntry) :
  container σ this = Some c ->
  is_Some (arrays σ !! volume c) -> is_Some (arrays σ !! tmpfs c) ->
  volume c <> tmpfs c ->
  (forall before x e,
     firstRefused volumeRefusal (asArray volumes) before x e ->
     exists σ',
       _parseVolumes volumes this σ = (Throw e, σ') /\
       volumesPushed c before σ σ') /\
  (Forall (fun x => volumeRefusal x = None) (asArray volumes) ->
   exists σ',
     _parseVolumes volumes this σ = (Normal tt, σ') /\
     volumesPushed c (asArray volumes) σ σ') /\
  (Forall (fun x => volumeRefusal x = None) (asArray volumes) \/
   exists before x e, firstRefused volumeRefusal (asArray volumes) before x e) /\
  (forall v σ0,
     container σ0 this = Some c -> is_Some (arrays σ0 !! volume c) ->
     addVolume this v σ0 =
       match refusal AddVolume v with
       | Some e => (Throw e, σ0)
       | None => (Normal this, pushed (volume c) (stored (stringOf v)) σ0)
       end).
Proof.
  intros Hc Hvolume Htmpfs Hne.
  assert (HI : forall (x : volumeEntry) σ0,
            container σ0 this = Some c /\ is_Some (arrays σ0 !! volume c) /\
            is_Some (arrays σ0 !! tmpfs c) ->
            container
              (match volumeSpec x, tmpfsSpec x with
               | Some spec, _ => pushed (volume c) (stored spec) σ0
               | None, Some y => pushed (tmpfs c) y σ0
               | None, None => σ0
               end) this = Some c /\
            is_Some (arrays
                       (match volumeSpec x, tmpfsSpec x with
                        | Some spec, _ => pushed (volume c) (stored spec) σ0
                        | None, Some y => pushed (tmpfs c) y σ0
                        | None, None => σ0
                        end) !! volume c) /\
            is_Some (arrays
                       (match volumeSpec x, tmpfsSpec x with
                        | Some spec, _ => pushed (volume c) (stored spec) σ0
                        | None, Some y => pushed (tmpfs c) y σ0
                        | None, None => σ0
                        end) !! tmpfs c)).
  { intros x σ0 (Hc0 & Hv0 & Ht0).
    destruct (volumeSpec x), (tmpfsSpec x); split; try done;
      split; try (by apply ComposeFacts.pushed_allocated);
      rewrite BuiltFacts.lookup_pushed; by rewrite decide_False. }
  assert (Hchanges : forall entries,
            volumesPushed c entries σ
              (fold_left (fun σ0 x =>
                            match volumeSpec x, tmpfsSpec x with
                            | Some spec, _ => pushed (volume c) (stored spec) σ0
                            | None, Some y => pushed (tmpfs c) y σ0
                            | None, None => σ0
                            end) entries σ)).
  { intros entries.
    exact (ComposeFacts.volume_changes c entries σ Hvolume Htmpfs Hne). }
  split.
  { intros before x e ([after Hvolumes] & Hbefore & Hx).
    eexists. split; [|apply Hchanges].
    unfold _parseVolumes. cbv zeta. rewrite Hvolumes.
    apply (ComposeFacts.forOf_throws
             (fun σ0 => container σ0 this = Some c /\
                        is_Some (arrays σ0 !! volume c) /\
                        is_Some (arrays σ0 !! tmpfs c))
             volumeRefusal
             (fun x σ0 =>
                match volumeSpec x, tmpfsSpec x with
                | Some spec, _ => pushed (volume c) (stored spec) σ0
                | None, Some y => pushed (tmpfs c) y σ0
                | None, None => σ0
                end)); [|exact HI|done|done|done].
    intros y σ0 (Hc0 & Hv0 & Ht0).
    by apply (ComposeFacts.volume_entry this c y σ0). }
  split.
  { intros Hall.
    eexists. split; [|apply Hchanges].
    unfold _parseVolumes. cbv zeta.
    apply (ComposeFacts.forOf_returns
             (fun σ0 => container σ0 this = Some c /\
                        is_Some (arrays σ0 !! volume c) /\
                        is_Some (arrays σ0 !! tmpfs c))
             volumeRefusal
             (fun x σ0 =>
                match volumeSpec x, tmpfsSpec x with
                | Some spec, _ => pushed (volume c) (stored spec) σ0
                | None, Some y => pushed (tmpfs c) y σ0
                | None, None => σ0
                end)); [|exact HI|done|done].
    intros y σ0 (Hc0 & Hv0 & Ht0).
    by apply (ComposeFacts.volume_entry this c y σ0). }
  split; [apply ComposeFacts.refused_cases|].
  intros v σ0 Hc0 Hxs0.
  exact (ComposeFacts.call_refusal AddVolume σ0 this c v Hc0 Hxs0).
Qed.

(** A named volume, a tmpfs mount with a size, and a relative path that
    [addVolume] refuses: what the first two pushed stays. *)
Lemma parseVolumes_prefix_witness :
  exists σ',
    _parseVolumes
      (inr [VolumeObject (PStr "volume") (PStr "db") (PStr "/var/lib/db")
              (PBool true) None;
            VolumeObject (PStr "tmpfs") PUndefined (PStr "/run") PUndefined
              (Some (PNum 65536));
            VolumeScalar (PStr "data")]) 0%nat MoreExamples.nginxStore =
      (Throw VolumeFormat, σ') /\
    volumesPushed MoreExamples.nginx
      [VolumeObject (PStr "volume") (PStr "db") (PStr "/var/lib/db")
         (PBool true) None;
       VolumeObject (PStr "tmpfs") PUndefined (PStr "/run") PUndefined
         (Some (PNum 65536))]
      MoreExamples.nginxStore σ'.
Proof.
  destruct (parseVolumes_prefix MoreExamples.nginxStore 0%nat MoreExamples.nginx
              (inr [VolumeObject (PStr "volume") (PStr "db") (PStr "/var/lib/db")
                      (PBool true) None;
                    VolumeObject (PStr "tmpfs") PUndefined (PStr "/run")
                      PUndefined (Some (PNum 65536));
                    VolumeScalar (PStr "data")]))
    as [Hthrow _].
  - vm_compute. reflexivity.
  - vm_compute. eauto.
  - vm_compute. eauto.
  - vm_compute. lia.
  - apply (Hthrow _ (VolumeScalar (PStr "data"))).
    split; [by exists []|].
    split; [|vm_compute; reflexivity].
    repeat (constructor; [vm_compute; reflexivity|]). constructor.
Defined.

(** The array form of [environment] and [labels]: the elements are
    handed to [addEnvironment] and [addLabel] as they are, in order.
    The method throws at the first element that the mutator refuses, an
    element that is no string among them, with the error of the mutator:
    the elements before it have been pushed, trimmed, and stay, and no
    element after it is looked at.  It returns when no element is
    refused, after all of them have been pushed.  One of the two is
    always the case.  Nothing else changes. *)
Theorem array_entries_prefix
    (σ : store) (this : cref) (c : Container) (xs : list prim) :
  container σ this = Some c ->
  is_Some (arrays σ !! environment c) -> is_Some (arrays σ !! label c) ->
  (forall before x e,
     firstRefused (fun y : prim => refusal AddEnvironment y) xs before x e ->
     _parseEnvironment (MapArray xs) this σ =
       (Throw e,
        pushedAll (environment c)
          (map (fun y : prim => stored (stringOf y)) before) σ)) /\
  (Forall (fun y : prim => refusal AddEnvironment y = None) xs ->
   _parseEnvironment (MapArray xs) this σ =
     (Normal tt,
      pushedAll (environment c) (map (fun y : prim => stored (stringOf y)) xs) σ)) /\
  (forall before x e,
     firstRefused (fun y : prim => refusal AddLabel y) xs before x e ->
     _parseLabels (MapArray xs) this σ =
       (Throw e,
        pushedAll (label c) (map (fun y : prim => stored (stringOf y)) before) σ)) /\
  (Forall (fun y : prim => refusal AddLabel y = None) xs ->
   _parseLabels (MapArray xs) this σ =
     (Normal tt,
      pushedAll (label c) (map (fun y : prim => stored (stringOf y)) xs) σ)) /\
  (forall m : mutator,
     Forall (fun y : prim => refusal m y = None) xs \/
     exists before x e, firstRefused (fun y : prim => refusal m y) xs before x e) /\
  (forall a ys, is_Some (arrays σ !! a) ->
     arr (pushedAll a ys σ) a = arr σ a ++ ys /\
     containers (pushedAll a ys σ) = containers σ /\
     forall a', a' <> a -> arr (pushedAll a ys σ) a' = arr σ a') /\
  (forall v σ0,
     container σ0 this = Some c ->
     (is_Some (arrays σ0 !! environment c) ->
      addEnvironment this v σ0 =
        match refusal AddEnvironment v with
        | Some e => (Throw e, σ0)
        | None => (Normal this, pushed (environment c) (stored (stringOf v)) σ0)
        end) /\
     (is_Some (arrays σ0 !! label c) ->
      addLabel this v σ0 =
        match refusal AddLabel v with
        | Some e => (Throw e, σ0)
        | None => (Normal this, pushed (label c) (stored (stringOf v)) σ0)
        end)).
Proof.
  intros Hc Henv Hlabel.
  assert (Hloop : forall (m : mutator) a,
            target m c = Some a -> is_Some (arrays σ !! a) ->
            (forall before (x : prim) e after,
               Forall (fun y : prim => refusal m y = None) before ->
               refusal m x = Some e ->
               forOf (before ++ x :: after)
                 (fun y : prim => call m this y ;; ret tt) σ =
                 (Throw e,
                  pushedAll a (map (fun y : prim => stored (stringOf y)) before) σ)) /\
            (Forall (fun y : prim => refusal m y = None) xs ->
             forOf xs (fun y : prim => call m this y ;; ret tt) σ =
               (Normal tt,
                pushedAll a (map (fun y : prim => stored (stringOf y)) xs) σ))).
  { intros m a Ha Hxs.
    assert (Hstep : forall (y : prim) σ0,
              container σ0 this = Some c /\ is_Some (arrays σ0 !! a) ->
              (call m this y ;; ret tt) σ0 =
                match refusal m y with
                | Some e => (Throw e, σ0)
                | None => (Normal tt, pushed a (stored (stringOf y)) σ0)
                end).
    { intros y σ0 [Hc0 Hxs0]. by apply (ComposeFacts.pushing_step m σ0 this c). }
    assert (HI : forall (y : prim) σ0,
              container σ0 this = Some c /\ is_Some (arrays σ0 !! a) ->
              container (pushed a (stored (stringOf y)) σ0) this = Some c /\
              is_Some (arrays (pushed a (stored (stringOf y)) σ0) !! a)).
    { intros y σ0 [Hc0 Hxs0].
      split; [done|by apply ComposeFacts.pushed_allocated]. }
    split.
    - intros before x e after Hbefore Hx. rewrite <- ComposeFacts.fold_pushed.
      by apply (ComposeFacts.forOf_throws
                  (fun σ0 => container σ0 this = Some c /\
                             is_Some (arrays σ0 !! a))
                  (fun y : prim => refusal m y)
                  (fun (y : prim) σ0 => pushed a (stored (stringOf y)) σ0)).
    - intros Hall. rewrite <- ComposeFacts.fold_pushed.
      by apply (ComposeFacts.forOf_returns
                  (fun σ0 => container σ0 this = Some c /\
                             is_Some (arrays σ0 !! a))
                  (fun y : prim => refusal m y)
                  (fun (y : prim) σ0 => pushed a (stored (stringOf y)) σ0)). }
  destruct (Hloop AddEnvironment (environment c) eq_refl Henv)
    as [Henv1 Henv2].
  destruct (Hloop AddLabel (label c) eq_refl Hlabel) as [Hlabel1 Hlabel2].
  split.
  { intros before x e ([after ->] & Hbefore & Hx). by apply Henv1. }
  split; [exact Henv2|].
  split.
  { intros before x e ([after ->] & Hbefore & Hx). by apply Hlabel1. }
  split; [exact Hlabel2|].
  split; [intros m; apply ComposeFacts.refused_cases|].
  split; [intros a ys Ha; by apply ComposeFacts.pushedAll_facts|].
  intros v σ0 Hc0. split; intros Hxs0.
  - exact (ComposeFacts.call_refusal AddEnvironment σ0 this c v Hc0 Hxs0).
  - exact (ComposeFacts.call_refusal AddLabel σ0 this c v Hc0 Hxs0).
Qed.

(** The environment [["MODE=fast", 3000, "DEBUG=1"]]: the number is
    refused, the first entry stays, the third one is not looked at. *)
Lemma array_entries_prefix_witness :
  _parseEnvironment (MapArray [PStr "MODE=fast"; PNum 3000; PStr "DEBUG=1"])
    0%nat MoreExamples.nginxStore =
    (Throw EnvironmentMustBeNonEmptyString,
     pushedAll (environment MoreExamples.nginx)
       (map (fun y : prim => stored (stringOf y)) [PStr "MODE=fast"])
       MoreExamples.nginxStore).
Proof.
  destruct (array_entries_prefix MoreExamples.nginxStore 0%nat MoreExamples.nginx
              [PStr "MODE=fast"; PNum 3000; PStr "DEBUG=1"])
    as [Hthrow _].
  - vm_compute. reflexivity.
  - vm_compute. eauto.
  - vm_compute. eauto.
  - apply (Hthrow _ (PNum 3000)). split; [by exists [PStr "DEBUG=1"]|].
    split; [|vm_compute; reflexivity].
    constructor; [vm_compute; reflexivity|constructor].
Defined.

(** The object form of [environment] and [labels] is always taken.  An
    entry [key: value] is handed over as [key=value], which holds an
    equals sign, so on a container that exists neither
    [_parseEnvironment] nor [_parseLabels] throws on an object, whatever
    its keys and values: every entry is pushed, trimmed, in the order of
    the entries, and nothing else changes. *)
Theorem object_entries_accepted
    (σ : store) (this : cref) (c : Container) (entries : list (string * prim)) :
  container σ this = Some c ->
  is_Some (arrays σ !! environment c) -> is_Some (arrays σ !! label c) ->
  (exists σ',
     _parseEnvironment (MapObject entries) this σ = (Normal tt, σ') /\
     arr σ' (environment c) =
       arr σ (environment c) ++
       map (fun entry => stored (entryText entry)) entries /\
     containers σ' = containers σ /\
     forall a, a <> environment c -> arr σ' a = arr σ a) /\
  (exists σ',
     _parseLabels (MapObject entries) this σ = (Normal tt, σ') /\
     arr σ' (label c) =
       arr σ (label c) ++ map (fun entry => stored (entryText entry)) entries /\
     containers σ' = containers σ /\
     forall a, a <> label c -> arr σ' a = arr σ a).
Proof.
  intros Hc Henv Hlabel. split.
  - eexists. split; [|by apply ComposeFacts.pushedAll_facts].
    apply (ComposeFacts.entries_pushed this addEnvironment environment c);
      [|done|done].
    intros entry σ0 Hc0 Hxs0. rewrite MutatorFacts.addEnvironment_spec.
    cbv zeta. destruct (ComposeFacts.entry_accepted entry) as [-> Hincludes].
    change (stringOf (str ?x)) with x. rewrite Hincludes.
    by apply ComposeFacts.pushOn_step.
  - eexists. split; [|by apply ComposeFacts.pushedAll_facts].
    apply (ComposeFacts.entries_pushed this addLabel label c);
      [|done|done].
    intros entry σ0 Hc0 Hxs0. rewrite MutatorFacts.addLabel_spec.
    cbv zeta. destruct (ComposeFacts.entry_accepted entry) as [-> Hincludes].
    change (stringOf (str ?x)) with x. rewrite Hincludes.
    by apply ComposeFacts.pushOn_step.
Qed.

(** The environment [{ NODE_ENV: production, PORT: 3000, EMPTY: null }]. *)
Lemma object_entries_accepted_witness :
  exists σ',
    _parseEnvironment
      (MapObject [("NODE_ENV", PStr "production"); ("PORT", PNum 3000);
                  ("EMPTY", PNull)]) 0%nat MoreExamples.nginxStore =
      (Normal tt, σ') /\
    arr σ' (environment MoreExamples.nginx) =
      [PStr "NODE_ENV=production"; PStr "PORT=3000"; PStr "EMPTY=null"].
Proof.
  destruct (object_entries_accepted MoreExamples.nginxStore 0%nat
              MoreExamples.nginx
              [("NODE_ENV", PStr "production"); ("PORT", PNum 3000);
               ("EMPTY", PNull)])
    as [(σ' & Hrun & Harr & _) _].
  - vm_compute. reflexivity.
  - vm_compute. eauto.
  - vm_compute. eauto.
  - exists σ'. split; [exact Hrun|]. rewrite Harr. vm_compute. reflexivity.
Defined.

End Compose.

Module Podlet.

Import QuadletGenerator Spec MoreNotions Notions.



End Podlet.
